(** * cloud-provider-openstack: load-balancer rename cascade and Manila
      export-location parsing

    Shallow embedding of
    - [pkg/share/manila/sharebackends/util.go]: [splitExportLocation],
      [getAccess], [grantAccessCephx] and [getOrCreateCephxAccess];
    - the [openstack] package file that holds [lbHasOldClusterName],
      [decomposeLBName], [replaceClusterName] and [renameLoadBalancer].

    Go strings are byte sequences; they are modelled by [string] (a list of
    8-bit characters).  All delimiters the code looks at (':', '_', the
    digits, the newline excluded by the regexp dot) are ASCII bytes, so the
    byte-level reading and Go's rune-level reading select the same
    substrings. *)

From Stdlib Require Import String Ascii List ZArith Lia Bool.
From Stdlib Require Import DecimalString.
Import ListNotations.
Open Scope string_scope.

(* ================================================================== *)
(** * Part I: definitions                                              *)
(* ================================================================== *)

(** ** Go's [strings] package, as far as the sources use it *)

Module strings.

(** [strings.HasPrefix(s, prefix)] *)
Fixpoint HasPrefix (s prefix : string) {struct prefix} : bool :=
  match prefix with
  | EmptyString => true
  | String p prefix' =>
      match s with
      | EmptyString => false
      | String c s' => Ascii.eqb c p && HasPrefix s' prefix'
      end
  end.

(** [s[n:]] for [n <= len(s)] *)
Fixpoint drop (n : nat) (s : string) : string :=
  match n with
  | O => s
  | S n' => match s with
            | EmptyString => EmptyString
            | String _ s' => drop n' s'
            end
  end.

(** [s[:n]] for [n <= len(s)] *)
Fixpoint take (n : nat) (s : string) : string :=
  match n with
  | O => EmptyString
  | S n' => match s with
            | EmptyString => EmptyString
            | String c s' => String c (take n' s')
            end
  end.

(** [strings.Replace(s, old, new, 1)]: the leftmost occurrence of [old]
    is replaced.  An empty [old] matches at the beginning of [s], so
    [new] is put in front of [s]. *)
Fixpoint Replace1 (s old new : string) : string :=
  if HasPrefix s old then new ++ drop (String.length old) s
  else match s with
       | EmptyString => EmptyString
       | String c s' => String c (Replace1 s' old new)
       end.

(** [strings.LastIndexByte(s, c)]: index of the last [c] in [s], or -1. *)
Fixpoint LastIndexByte (s : string) (c : ascii) : Z :=
  match s with
  | EmptyString => (-1)%Z
  | String a s' =>
      let i := LastIndexByte s' c in
      if (0 <=? i)%Z then (i + 1)%Z
      else if Ascii.eqb a c then 0%Z else (-1)%Z
  end.

(** the bytes of a string, and "byte [c] occurs in [s]" *)
Fixpoint bytes (s : string) : list ascii :=
  match s with
  | EmptyString => []
  | String c s' => c :: bytes s'
  end.

Definition occurs (c : ascii) (s : string) : Prop := In c (bytes s).

End strings.

(** ** [sharebackends]: export locations *)

Module shares.
Record ExportLocation := { Path : string }.
End shares.

(** Go's [error]; the sources only build, test against nil and pass on
    error values, so the message text is all the model keeps. *)
Definition error := string.

(** A Go result [(v, err)]: [inl err] when [err != nil], [inr v] otherwise. *)
Definition result (A : Type) : Type := (error + A)%type.

(** ** The Manila shares API, as far as [sharebackends] uses it

    The gophercloud structs [shares.Share], [shares.AccessRight] and
    [shares.GrantAccessOpts], and [shareoptions.ShareOptions], cut down to
    the fields the package reads or writes; one module per struct, so
    that the fields keep their Go names. *)

Module Share.
Record t := { ID : string; Name : string }.
End Share.

Module AccessRight.
Record t := {
  ID : string;
  AccessType : string;
  AccessTo : string;
  AccessKey : string
}.

(** the zero value, which [var accessRight shares.AccessRight] holds *)
Definition zero : t :=
  {| ID := ""; AccessType := ""; AccessTo := ""; AccessKey := "" |}.
End AccessRight.

Module GrantAccessOpts.
Record t := { AccessType : string; AccessTo : string; AccessLevel : string }.
End GrantAccessOpts.

Module ShareOptions.
Record t := { OSShareAccessID : string }.
End ShareOptions.

(** [manilaclient.Interface]: the two methods the package calls *)
Module manilaclient.

Inductive call :=
| GetAccessRights (shareID : string)
| GrantAccess (shareID : string) (opts : GrantAccessOpts.t).

(** what a method returns next to its [error] *)
Definition answer (c : call) : Type :=
  match c with
  | GetAccessRights _ => list AccessRight.t
  | GrantAccess _ _ => AccessRight.t
  end.

End manilaclient.

(** ** Computations of the share backends

    The functions that manage access rights reach the outside through
    the Manila client and, inside [gophercloud.WaitFor], through the
    clock.  A computation returns, asks one of the two and goes on with
    the reply, or panics (an index out of range, a nil pointer
    dereferenced).  What the client and the clock reply is left to a
    handler. *)

Module manila.

Inductive request :=
| Client (c : manilaclient.call)
| TimeIsUp.

Definition reply (q : request) : Type :=
  match q with
  | Client c => result (manilaclient.answer c)
  | TimeIsUp => bool
  end.

Inductive prog (R : Type) : Type :=
| Return (r : R)
| Do (q : request) (k : reply q -> prog R)
| Panic.

Arguments Return {R} r.
Arguments Do {R} q k.
Arguments Panic {R}.

Fixpoint bind {A B : Type} (m : prog A) (f : A -> prog B) : prog B :=
  match m with
  | Return a => f a
  | Do q k => Do q (fun r => bind (k r) f)
  | Panic => Panic
  end.

(** One request as it happened: the request and the reply. *)
Inductive event := Ev (q : request) (r : reply q).

Definition handler (S : Type) : Type :=
  forall q : request, S -> reply q * S.

(** Running a computation: its result ([None] when it panicked), the
    state the outside is left in and the requests made, in order. *)
Fixpoint run {S R : Type} (h : handler S) (p : prog R) (s : S)
  : option R * S * list event :=
  match p with
  | Return r => (Some r, s, [])
  | Panic => (None, s, [])
  | Do q k =>
      let '(a, s1) := h q s in
      let '(r, s2, t) := run h (k a) s1 in
      (r, s2, Ev q a :: t)
  end.

End manila.

(** ** [gophercloud.WaitFor]

    [WaitFor(timeout, predicate)] sleeps one second, runs [predicate] and
    starts over, until the predicate returns true (the result is nil) or
    an error (the result is that error).  At the head of each round it
    gives up with a timeout error once [timeout] seconds have passed
    since it started, and it also gives up on a predicate that has not
    returned after [timeout] seconds.  As every round sleeps a second, at
    most [timeout] rounds run the predicate.  [TimeIsUp] asks the clock
    whether this round gives up (for either reason) instead of delivering
    the predicate's outcome.  The predicate is a closure: [V] is the type
    of the variables it captures, which it may assign. *)

Module gophercloud.

Definition timeoutError : error := "A timeout occurred".

Fixpoint WaitFor {V : Type} (timeout : nat)
  (predicate : V -> manila.prog (V * bool * option error)) (v : V)
  : manila.prog (V * option error) :=
  match timeout with
  | O => manila.Return (v, Some timeoutError)
  | S timeout' =>
      manila.Do manila.TimeIsUp (fun up : bool =>
        if up then manila.Return (v, Some timeoutError)
        else
          manila.bind (predicate v) (fun '(v', satisfied, err) =>
            match err with
            | Some e => manila.Return (v', Some e)
            | None =>
                if satisfied then manila.Return (v', None)
                else WaitFor timeout' predicate v'
            end))
  end.

End gophercloud.

(** [%d] of [fmt.Errorf], for a length *)
Module fmt.
Definition d (n : nat) : string := NilEmpty.string_of_uint (Nat.to_uint n).
End fmt.

(** [GrantAccessArgs], without its [Client] field: the client is the
    handler a computation is run against *)
Module GrantAccessArgs.
Record t := { Share : Share.t; Options : ShareOptions.t }.
End GrantAccessArgs.

Module sharebackends.

(** [splitExportLocation]: the three named results [(address, location,
    err)]; [err = None] is Go's [nil]. *)
Definition splitExportLocation (loc : shares.ExportLocation)
  : string * string * option error :=
  let delimPos := strings.LastIndexByte (shares.Path loc) ":" in
  if (delimPos <=? 0)%Z then
    ("", "",
     Some ("failed to parse address and location from export location '"
             ++ shares.Path loc ++ "'"))
  else
    (strings.take (Z.to_nat delimPos) (shares.Path loc),
     strings.drop (Z.to_nat (delimPos + 1)) (shares.Path loc),
     None).

(** [getAccess]: the two results [(accessRight, err)], [None] for nil.
    The loop returns at the first element whose [ID] is [accessID]. *)
Definition getAccess (shareID accessID : string)
  : manila.prog (option AccessRight.t * option error) :=
  manila.Do (manila.Client (manilaclient.GetAccessRights shareID))
    (fun r : result (list AccessRight.t) =>
       match r with
       | inl err => manila.Return (None, Some err)
       | inr accessRights =>
           match find (fun a => String.eqb (AccessRight.ID a) accessID)
                      accessRights with
           | Some a => manila.Return (Some a, None)
           | None =>
               manila.Return
                 (None,
                  Some ("access rule " ++ accessID ++ " for share "
                          ++ shareID ++ " not found"))
           end
       end).

(** The closure [grantAccessCephx] hands to [gophercloud.WaitFor]; it
    captures [accessRight] and assigns it before it returns true. *)
Definition grantAccessCephx_predicate (args : GrantAccessArgs.t)
  (accessRight : AccessRight.t)
  : manila.prog (AccessRight.t * bool * option error) :=
  manila.Do
    (manila.Client
       (manilaclient.GetAccessRights (Share.ID (GrantAccessArgs.Share args))))
    (fun r : result (list AccessRight.t) =>
       match r with
       | inl err => manila.Return (accessRight, false, Some err)
       | inr accessRights =>
           if Nat.ltb 1 (List.length accessRights) then
             manila.Return
               (accessRight, false,
                Some ("unexpected number of access rules: got "
                        ++ fmt.d (List.length accessRights) ++ ", expected 1"))
           else if Nat.eqb (List.length accessRights) 0 then
             manila.Return (accessRight, false, None)
           else
             match nth_error accessRights 0 with
             | None => manila.Panic
             | Some a0 =>
                 if negb (String.eqb (AccessRight.AccessKey a0) "")
                 then manila.Return (a0, true, None)
                 else manila.Return (accessRight, false, None)
             end
       end).

(** [grantAccessCephx]: after a failed [GrantAccess] the pointer is nil;
    after that it is [&accessRight], whatever [WaitFor] returned. *)
Definition grantAccessCephx (args : GrantAccessArgs.t)
  : manila.prog (option AccessRight.t * option error) :=
  let accessOpts :=
    {| GrantAccessOpts.AccessType := "cephx";
       GrantAccessOpts.AccessTo := Share.Name (GrantAccessArgs.Share args);
       GrantAccessOpts.AccessLevel := "rw" |} in
  manila.Do
    (manila.Client
       (manilaclient.GrantAccess (Share.ID (GrantAccessArgs.Share args))
                                 accessOpts))
    (fun r : result AccessRight.t =>
       match r with
       | inl err => manila.Return (None, Some err)
       | inr _ =>
           manila.bind
             (gophercloud.WaitFor 120 (grantAccessCephx_predicate args)
                                  AccessRight.zero)
             (fun '(accessRight, err) =>
                manila.Return (Some accessRight, err))
       end).

(** [getOrCreateCephxAccess]; reading a field of [accessRight] panics
    when the pointer is nil *)
Definition getOrCreateCephxAccess (args : GrantAccessArgs.t)
  : manila.prog (option AccessRight.t * option error) :=
  let shareID := Share.ID (GrantAccessArgs.Share args) in
  let accessID := ShareOptions.OSShareAccessID (GrantAccessArgs.Options args) in
  manila.bind
    (if negb (String.eqb accessID "")
     then getAccess shareID accessID
     else grantAccessCephx args)
    (fun '(accessRight, err) =>
       match err with
       | Some e => manila.Return (None, Some e)
       | None =>
           match accessRight with
           | None => manila.Panic
           | Some a =>
               if negb (String.eqb (AccessRight.AccessType a) "cephx") then
                 manila.Return
                   (None,
                    Some ("wrong type for access rule " ++ AccessRight.ID a
                            ++ " in share " ++ shareID
                            ++ ": expected cephx, got "
                            ++ AccessRight.AccessType a))
               else if String.eqb (AccessRight.AccessKey a) ""
                       || String.eqb (AccessRight.AccessTo a) "" then
                 manila.Return
                   (None,
                    Some ("missing AccessKey or AccessTo for access rule "
                            ++ AccessRight.ID a ++ " in share " ++ shareID))
               else manila.Return (Some a, err)
           end
       end).

End sharebackends.

(** ** Go's [regexp] package, as far as [decomposeLBName] uses it

    [regexp.MustCompile] turns the pattern text into a program; the model
    starts from the parsed pattern.  The patterns of this package are made
    of literal text, of [c+] for a character class [c] and of capture
    groups.  Go's matcher returns the leftmost match and, at that position,
    the match a backtracking search finds first: [exec] lists the matches
    at one position in the order backtracking tries them, a greedy [c+]
    trying its longest run first. *)

Module regexp.

Inductive class :=
| AnyButNewline   (* .     (the s flag is off) *)
| Digit           (* [0-9] *)
| NotUnderscore.  (* [^_]  (a negated class does match newline) *)

Definition in_class (c : class) (a : ascii) : bool :=
  match c with
  | AnyButNewline => negb (Ascii.eqb a "010")
  | Digit => Ascii.leb "0" a && Ascii.leb a "9"
  | NotUnderscore => negb (Ascii.eqb a "_")
  end.

Inductive Regexp :=
| Lit (text : string)
| Plus (c : class)
| Group (r : Regexp)
| Seq (r1 r2 : Regexp).

(** the inputs left after each nonempty run of [c] at the start of [s],
    longest run first *)
Fixpoint plus (c : class) (s : string) : list string :=
  match s with
  | EmptyString => []
  | String a s' => if in_class c a then plus c s' ++ [s'] else []
  end.

(** every way [r] matches at the start of [s], in backtracking order: the
    texts of the capture groups (numbered by their opening parenthesis)
    and the input left *)
Fixpoint exec (r : Regexp) (s : string) : list (list string * string) :=
  match r with
  | Lit text =>
      if strings.HasPrefix s text
      then [([], strings.drop (String.length text) s)] else []
  | Plus c => map (fun rest => ([], rest)) (plus c s)
  | Group r1 =>
      map (fun m => (strings.take (String.length s - String.length (snd m)) s
                       :: fst m, snd m))
          (exec r1 s)
  | Seq r1 r2 =>
      flat_map (fun m1 => map (fun m2 => (fst m1 ++ fst m2, snd m2)%list)
                              (exec r2 (snd m1)))
               (exec r1 s)
  end.

(** the capture groups of the first element of
    [re.FindAllStringSubmatch(s, -1)], [None] for Go's [nil]: the search
    moves right from position 0 and stops at the first position with a
    match *)
Fixpoint FindStringSubmatch (r : Regexp) (s : string) : option (list string) :=
  match exec r s with
  | m :: _ => Some (fst m)
  | [] => match s with
          | EmptyString => None
          | String _ s' => FindStringSubmatch r s'
          end
  end.

End regexp.

(** ** The resources of the load-balancing service

    The gophercloud structs, cut down to the fields the package reads or
    writes. *)

Module loadbalancers.
Record LoadBalancer := { ID : string; Name : string; Tags : list string }.
End loadbalancers.

Module listeners.
Record Listener := { ID : string; Name : string; Tags : list string }.
End listeners.

Module pools.
Record Pool := { ID : string; Name : string; MonitorID : string }.
End pools.

Module monitors.
Record Monitor := { ID : string; Name : string }.
End monitors.

(** ** The name prefixes

    [servicePrefix], [listenerPrefix], [poolPrefix] and [monitorPrefix] are
    package constants declared in a file that is not part of the sources
    at hand, so they are parameters of the model.  They are plain text
    (no regexp operator in them), which is how [Lit] reads them. *)

Record Prefixes := {
  servicePrefix : string;
  listenerPrefix : string;
  poolPrefix : string;
  monitorPrefix : string
}.

(** the values used in the examples: [kube_service_] is the prefix of
    the names in the specification's scenarios, the other three are the
    ones the package's name formats start with *)
Definition upstream : Prefixes :=
  {| servicePrefix := "kube_service_";
     listenerPrefix := "listener_";
     poolPrefix := "pool_";
     monitorPrefix := "monitor_" |}.

(** The two ways the package builds the [resourcePrefix] argument of
    [decomposeLBName]: the empty string, and
    [fmt.Sprintf("%s[0-9]+_", prefix)]. *)
Inductive ResourcePrefix :=
| NoPrefix
| Numbered (prefix : string).

Definition resourcePrefixRegexp (p : ResourcePrefix) : regexp.Regexp :=
  match p with
  | NoPrefix => regexp.Lit ""
  | Numbered prefix =>
      regexp.Seq (regexp.Lit prefix)
                 (regexp.Seq (regexp.Plus regexp.Digit) (regexp.Lit "_"))
  end.

(** ** The accessor: [openstackutil] and the service behind it

    [renameLoadBalancer] reaches the load-balancing service only through
    seven functions of [openstackutil], each taking the service client.
    The model makes every such call an explicit request; what the service
    answers is left to a handler, so that a statement "for every handler"
    covers every behaviour of the service, failures included. *)

Module openstackutil.

Inductive call :=
| GetListenersByLoadBalancerID (lbID : string)
| GetPoolByListener (lbID listenerID : string)
| GetHealthMonitor (monitorID : string)
| UpdateHealthMonitor (monitorID : string) (optsName : string) (lbID : string)
| UpdatePool (lbID poolID : string) (optsName : string)
| UpdateListener (lbID listenerID : string) (optsName : string)
    (optsTags : list string)
| UpdateLoadBalancer (lbID : string) (optsName : string)
    (optsTags : list string).

(** what a call returns next to its [error] *)
Definition answer (c : call) : Type :=
  match c with
  | GetListenersByLoadBalancerID _ => list listeners.Listener
  | GetPoolByListener _ _ => pools.Pool
  | GetHealthMonitor _ => monitors.Monitor
  | UpdateHealthMonitor _ _ _ => unit
  | UpdatePool _ _ _ => unit
  | UpdateListener _ _ _ _ => unit
  | UpdateLoadBalancer _ _ _ => loadbalancers.LoadBalancer
  end.

End openstackutil.

Import openstackutil.

(** A computation that calls the accessor: it returns, or issues a call
    and goes on with whatever the call returned. *)
Inductive prog (R : Type) : Type :=
| Ret (r : R)
| Call (c : call) (k : result (answer c) -> prog R).

Arguments Ret {R} r.
Arguments Call {R} c k.

(** [v, err := f(...); if err != nil { return nil, err }; ...] *)
Fixpoint bind {A B : Type} (m : prog (result A)) (f : A -> prog (result B))
  : prog (result B) :=
  match m with
  | Ret (inl err) => Ret (inl err)
  | Ret (inr a) => f a
  | Call c k => Call c (fun r => bind (k r) f)
  end.

Definition ret {A : Type} (a : A) : prog (result A) := Ret (inr a).

Definition perform (c : call) : prog (result (answer c)) :=
  Call c (fun r => Ret r).

Notation "x <- m ;; k" := (bind m (fun x => k))
  (at level 61, m at next level, right associativity).
Notation "m ;;; k" := (bind m (fun _ => k))
  (at level 61, right associativity).

(** [for _, x := range xs { body }], where [body] either falls through to
    the next element or returns an error from the function *)
Fixpoint forEach {A : Type} (xs : list A) (body : A -> prog (result unit))
  : prog (result unit) :=
  match xs with
  | [] => ret tt
  | x :: xs' => body x ;;; forEach xs' body
  end.

(** One accessor call as it happened: the call and what it returned. *)
Inductive event := Ev (c : call) (r : result (answer c)).

Definition ev_call (e : event) : call := let '(Ev c _) := e in c.

Definition ev_error (e : event) : option error :=
  match e with
  | Ev _ (inl err) => Some err
  | Ev _ (inr _) => None
  end.

(** The service, as a state [S] and its reaction to each call. *)
Definition handler (S : Type) : Type :=
  forall c : call, S -> result (answer c) * S.

(** Running a computation against a service: its result, the state the
    service is left in and the calls issued, in order. *)
Fixpoint run {S R : Type} (h : handler S) (p : prog R) (s : S)
  : R * S * list event :=
  match p with
  | Ret r => (r, s, [])
  | Call c k =>
      let '(a, s1) := h c s in
      let '(r, s2, t) := run h (k a) s1 in
      (r, s2, Ev c a :: t)
  end.

Module openstack.

Section Names.
Context (cfg : Prefixes).

(** [fmt.Sprintf("%s%s(.+)_([^_]+)_([^_]+)", resourcePrefix, servicePrefix)] *)
Definition lbNameRegex (resourcePrefix : ResourcePrefix) : regexp.Regexp :=
  regexp.Seq (resourcePrefixRegexp resourcePrefix)
    (regexp.Seq (regexp.Lit (servicePrefix cfg))
       (regexp.Seq (regexp.Group (regexp.Plus regexp.AnyButNewline))
          (regexp.Seq (regexp.Lit "_")
             (regexp.Seq (regexp.Group (regexp.Plus regexp.NotUnderscore))
                (regexp.Seq (regexp.Lit "_")
                   (regexp.Group (regexp.Plus regexp.NotUnderscore))))))).

(** [decomposeLBName]: clusterName, namespace and name *)
Definition decomposeLBName (resourcePrefix : ResourcePrefix) (lbName : string)
  : string * string * string :=
  match regexp.FindStringSubmatch (lbNameRegex resourcePrefix) lbName with
  | Some [clusterName; namespace; name] => (clusterName, namespace, name)
  | _ => ("", "", "")
  end.

(** [replaceClusterName] *)
Definition replaceClusterName (oldClusterName clusterName objectName : string)
  : string :=
  strings.Replace1 objectName oldClusterName clusterName.

(** [lbHasOldClusterName] (the [klog.Errorf] line only logs) *)
Definition lbHasOldClusterName (loadbalancer : loadbalancers.LoadBalancer)
  (clusterName : string) : bool :=
  if negb (strings.HasPrefix (loadbalancers.Name loadbalancer) (servicePrefix cfg))
  then false
  else
    let '(existingClusterName, _, _) :=
      decomposeLBName NoPrefix (loadbalancers.Name loadbalancer) in
    if negb (String.eqb existingClusterName clusterName) then true else false.

(** The body of the two loops [for i, tag := range x.Tags]: what ends up
    in [x.Tags[i]]. *)
Definition renameTag (clusterName tag : string) : string :=
  let '(oldClusterNameTag, _, _) := decomposeLBName NoPrefix tag in
  if negb (String.eqb oldClusterNameTag "")
     && negb (String.eqb oldClusterNameTag clusterName)
  then replaceClusterName oldClusterNameTag clusterName tag
  else tag.

(** The body of the loop [for _, listener := range lbListeners] of
    [renameLoadBalancer].  As in the source, [oldClusterName] is assigned
    again from the pool's name, and the monitor block declares an
    [oldClusterName] of its own. *)
Definition renameListener (loadbalancer : loadbalancers.LoadBalancer)
  (clusterName : string) (listener : listeners.Listener)
  : prog (result unit) :=
  if negb (strings.HasPrefix (listeners.Name listener) (listenerPrefix cfg))
  then ret tt
  else
    let '(oldClusterName, _, _) :=
      decomposeLBName (Numbered (listenerPrefix cfg)) (listeners.Name listener) in
    if negb (String.eqb oldClusterName clusterName) then
      lbPool <- perform (GetPoolByListener (loadbalancers.ID loadbalancer)
                                           (listeners.ID listener)) ;;
      let '(oldClusterName, _, _) :=
        decomposeLBName (Numbered (poolPrefix cfg)) (pools.Name lbPool) in
      (if negb (String.eqb oldClusterName clusterName) then
         (if negb (String.eqb (pools.MonitorID lbPool) "") then
            monitor <- perform (GetHealthMonitor (pools.MonitorID lbPool)) ;;
            let '(oldClusterName, _, _) :=
              decomposeLBName (Numbered (monitorPrefix cfg))
                              (monitors.Name monitor) in
            if negb (String.eqb oldClusterName clusterName) then
              perform (UpdateHealthMonitor
                         (monitors.ID monitor)
                         (replaceClusterName oldClusterName clusterName
                                             (monitors.Name monitor))
                         (loadbalancers.ID loadbalancer))
            else ret tt
          else ret tt) ;;;
         perform (UpdatePool (loadbalancers.ID loadbalancer) (pools.ID lbPool)
                             (replaceClusterName oldClusterName clusterName
                                                 (pools.Name lbPool)))
       else ret tt) ;;;
      perform (UpdateListener
                 (loadbalancers.ID loadbalancer) (listeners.ID listener)
                 (replaceClusterName oldClusterName clusterName
                                     (listeners.Name listener))
                 (map (renameTag clusterName) (listeners.Tags listener)))
    else ret tt.

(** [renameLoadBalancer], after [GetListenersByLoadBalancerID] has
    returned [lbListeners] *)
Definition renameListed (loadbalancer : loadbalancers.LoadBalancer)
  (lbName clusterName : string) (lbListeners : list listeners.Listener)
  : prog (result loadbalancers.LoadBalancer) :=
  forEach lbListeners (renameListener loadbalancer clusterName) ;;;
  perform (UpdateLoadBalancer
             (loadbalancers.ID loadbalancer) lbName
             (map (renameTag clusterName) (loadbalancers.Tags loadbalancer))).

(** [renameLoadBalancer] *)
Definition renameLoadBalancer (loadbalancer : loadbalancers.LoadBalancer)
  (lbName clusterName : string)
  : prog (result loadbalancers.LoadBalancer) :=
  lbListeners <- perform (GetListenersByLoadBalancerID
                            (loadbalancers.ID loadbalancer)) ;;
  renameListed loadbalancer lbName clusterName lbListeners.

(** Modelled from the spec: the call site of [renameLoadBalancer] is not
    among the sources.  Section 4.2, step 1 of the specification has the
    migration return the load balancer as it is when its name is not
    managed; the package's test for that is [lbHasOldClusterName], which
    also stops the retries once the load balancer carries the new name. *)
Definition migrate (loadbalancer : loadbalancers.LoadBalancer)
  (lbName clusterName : string)
  : prog (result loadbalancers.LoadBalancer) :=
  if lbHasOldClusterName loadbalancer clusterName
  then renameLoadBalancer loadbalancer lbName clusterName
  else ret loadbalancer.

End Names.

End openstack.

(** ** A load-balancing service to run the cascade against

    Modelled from the spec: the accessor ([openstackutil] and the service
    it talks to) is not among the sources.  Section 3 has one load
    balancer with its listeners, each listener with at most one pool, each
    pool with at most one monitor; section 6 lists the seven operations,
    the updates changing only the fields supplied.  Resources are found by
    ID; asking for one that does not exist is an error. *)

Module service.

Record Store := {
  loadbalancer : loadbalancers.LoadBalancer;
  lbListeners : list listeners.Listener;           (* in listing order *)
  lbPools : list (string * pools.Pool);            (* listener ID, its pool *)
  lbMonitors : list monitors.Monitor
}.

Definition notFound : error := "Resource not found".

Definition poolOf (listenerID : string) (s : Store) : option pools.Pool :=
  option_map snd
    (find (fun kp => String.eqb (fst kp) listenerID) (lbPools s)).

Definition monitorOf (monitorID : string) (s : Store)
  : option monitors.Monitor :=
  find (fun m => String.eqb (monitors.ID m) monitorID) (lbMonitors s).

Definition setMonitorName (monitorID name : string) (s : Store) : Store :=
  {| loadbalancer := loadbalancer s;
     lbListeners := lbListeners s;
     lbPools := lbPools s;
     lbMonitors :=
       map (fun m => if String.eqb (monitors.ID m) monitorID
                     then {| monitors.ID := monitors.ID m;
                             monitors.Name := name |}
                     else m)
           (lbMonitors s) |}.

Definition setPoolName (poolID name : string) (s : Store) : Store :=
  {| loadbalancer := loadbalancer s;
     lbListeners := lbListeners s;
     lbPools :=
       map (fun kp => if String.eqb (pools.ID (snd kp)) poolID
                      then (fst kp,
                            {| pools.ID := pools.ID (snd kp);
                               pools.Name := name;
                               pools.MonitorID := pools.MonitorID (snd kp) |})
                      else kp)
           (lbPools s);
     lbMonitors := lbMonitors s |}.

Definition setListener (listenerID name : string) (tags : list string)
  (s : Store) : Store :=
  {| loadbalancer := loadbalancer s;
     lbListeners :=
       map (fun l => if String.eqb (listeners.ID l) listenerID
                     then {| listeners.ID := listeners.ID l;
                             listeners.Name := name;
                             listeners.Tags := tags |}
                     else l)
           (lbListeners s);
     lbPools := lbPools s;
     lbMonitors := lbMonitors s |}.

Definition setLoadBalancer (name : string) (tags : list string) (s : Store)
  : Store :=
  {| loadbalancer :=
       {| loadbalancers.ID := loadbalancers.ID (loadbalancer s);
          loadbalancers.Name := name;
          loadbalancers.Tags := tags |};
     lbListeners := lbListeners s;
     lbPools := lbPools s;
     lbMonitors := lbMonitors s |}.

Definition serve : handler Store :=
  fun c =>
    match c as c0 return Store -> result (answer c0) * Store with
    | GetListenersByLoadBalancerID lbID => fun s =>
        if String.eqb lbID (loadbalancers.ID (loadbalancer s))
        then (inr (lbListeners s), s) else (inl notFound, s)
    | GetPoolByListener _ listenerID => fun s =>
        match poolOf listenerID s with
        | Some p => (inr p, s)
        | None => (inl notFound, s)
        end
    | GetHealthMonitor monitorID => fun s =>
        match monitorOf monitorID s with
        | Some m => (inr m, s)
        | None => (inl notFound, s)
        end
    | UpdateHealthMonitor monitorID name _ => fun s =>
        match monitorOf monitorID s with
        | Some _ => (inr tt, setMonitorName monitorID name s)
        | None => (inl notFound, s)
        end
    | UpdatePool _ poolID name => fun s =>
        if existsb (fun kp => String.eqb (pools.ID (snd kp)) poolID) (lbPools s)
        then (inr tt, setPoolName poolID name s) else (inl notFound, s)
    | UpdateListener _ listenerID name tags => fun s =>
        if existsb (fun l => String.eqb (listeners.ID l) listenerID)
                   (lbListeners s)
        then (inr tt, setListener listenerID name tags s)
        else (inl notFound, s)
    | UpdateLoadBalancer lbID name tags => fun s =>
        if String.eqb lbID (loadbalancers.ID (loadbalancer s))
        then (inr (loadbalancer (setLoadBalancer name tags s)),
              setLoadBalancer name tags s)
        else (inl notFound, s)
    end.

End service.

(** ** Vocabulary of the statements about names *)

(** every byte of [x] is in the class [c] *)
Definition all_in (c : regexp.class) (x : string) : Prop :=
  Forall (fun a => regexp.in_class c a = true) (strings.bytes x).

(** the texts the [resourcePrefix] part of the pattern stands for *)
Definition prefixText (p : ResourcePrefix) (x : string) : Prop :=
  match p with
  | NoPrefix => x = ""
  | Numbered prefix =>
      exists digits, x = prefix ++ digits ++ "_"
                     /\ digits <> "" /\ all_in regexp.Digit digits
  end.

(** [raw] reads [before ++ pre ++ servicePrefix ++ c ++ "_" ++ n ++ "_" ++
    m ++ after] with [pre] a resource prefix, [c] a nonempty text without
    newline and [n], [m] nonempty texts without '_': one way the pattern
    of [decomposeLBName] occurs in [raw]. *)
Definition occurrence (cfg : Prefixes) (p : ResourcePrefix)
  (raw before pre c n m after : string) : Prop :=
  raw = before ++ pre ++ servicePrefix cfg ++ c ++ "_" ++ n ++ "_" ++ m ++ after
  /\ prefixText p pre
  /\ (c <> "" /\ all_in regexp.AnyButNewline c)
  /\ (n <> "" /\ all_in regexp.NotUnderscore n)
  /\ (m <> "" /\ all_in regexp.NotUnderscore m).

(** what a pattern matches, with the texts of its groups *)
Fixpoint derives (r : regexp.Regexp) (x : string) (caps : list string) : Prop :=
  match r with
  | regexp.Lit text => x = text /\ caps = []
  | regexp.Plus c => (x <> "" /\ all_in c x) /\ caps = []
  | regexp.Group r1 => exists caps', derives r1 x caps' /\ caps = x :: caps'
  | regexp.Seq r1 r2 =>
      exists x1 x2 c1 c2,
        x = x1 ++ x2 /\ caps = (c1 ++ c2)%list
        /\ derives r1 x1 c1 /\ derives r2 x2 c2
  end.

(** [old] does not occur in [s] at a position before [n] *)
Definition no_occurrence_before (old s : string) (n : nat) : Prop :=
  forall a b, s = a ++ old ++ b -> n <= String.length a.

(** the cluster name [decomposeLBName] reads off a name, [""] when the
    pattern does not occur in it *)
Definition decodedClusterName (cfg : Prefixes) (p : ResourcePrefix)
  (name : string) : string :=
  fst (fst (openstack.decomposeLBName cfg p name)).

(** ** Vocabulary of the statements about call sequences *)

Inductive kind :=
| KList | KGetPool | KGetMonitor
| KUpdateMonitor | KUpdatePool | KUpdateListener | KUpdateLoadBalancer.

Definition kind_of (c : call) : kind :=
  match c with
  | GetListenersByLoadBalancerID _ => KList
  | GetPoolByListener _ _ => KGetPool
  | GetHealthMonitor _ => KGetMonitor
  | UpdateHealthMonitor _ _ _ => KUpdateMonitor
  | UpdatePool _ _ _ => KUpdatePool
  | UpdateListener _ _ _ _ => KUpdateListener
  | UpdateLoadBalancer _ _ _ => KUpdateLoadBalancer
  end.

Definition ev_kind (e : event) : kind := kind_of (ev_call e).

Definition failed (e : event) : bool :=
  match ev_error e with Some _ => true | None => false end.

(** how deep in the tree an update writes: monitor, pool, listener, load
    balancer; [None] for the calls that only read *)
Definition update_level (e : event) : option nat :=
  match ev_kind e with
  | KUpdateMonitor => Some 0
  | KUpdatePool => Some 1
  | KUpdateListener => Some 2
  | KUpdateLoadBalancer => Some 3
  | _ => None
  end.

(** which call may directly follow which: nothing follows a failed call
    or the update of the load balancer *)
Definition next_ok (e1 e2 : event) : bool :=
  negb (failed e1)
  && match ev_kind e1, ev_kind e2 with
     | KList, (KGetPool | KUpdateLoadBalancer) => true
     | KGetPool, (KGetMonitor | KUpdatePool | KUpdateListener) => true
     | KGetMonitor, (KUpdateMonitor | KUpdatePool) => true
     | KUpdateMonitor, KUpdatePool => true
     | KUpdatePool, KUpdateListener => true
     | KUpdateListener, (KGetPool | KUpdateLoadBalancer) => true
     | _, _ => false
     end.

Fixpoint chain (t : list event) : bool :=
  match t with
  | e1 :: ((e2 :: _) as t') => next_ok e1 e2 && chain t'
  | _ => true
  end.

(** position of a call in the walk down and up one subtree *)
Definition level (e : event) : nat :=
  match ev_kind e with
  | KList => 0
  | KGetPool => 1
  | KGetMonitor => 2
  | KUpdateMonitor => 3
  | KUpdatePool => 4
  | KUpdateListener => 5
  | KUpdateLoadBalancer => 6
  end.

(** the calls made for one listener start with the lookup of its pool *)
Definition seg_first (t : list event) : Prop :=
  match t with
  | [] => True
  | e :: _ => ev_kind e = KGetPool
  end.

(** how a piece of the cascade ends: on success with nothing issued or
    with a successful call of kind [k]; on error with the call that
    returned the error *)
Definition seg_last {A : Type} (r : result A) (t : list event) (k : kind)
  : Prop :=
  match r with
  | inr _ =>
      t = []
      \/ exists t0 e, t = (t0 ++ [e])%list /\ ev_kind e = k /\ failed e = false
  | inl err => exists t0 e, t = (t0 ++ [e])%list /\ ev_error e = Some err
  end.

(** the listeners an event handed to the caller: those of a successful
    [GetListenersByLoadBalancerID] *)
Definition listed (e : event) : list listeners.Listener :=
  match e with
  | Ev c r =>
      match c as c0 return result (answer c0) -> list listeners.Listener with
      | GetListenersByLoadBalancerID _ =>
          fun r0 => match r0 with inr ls => ls | inl _ => [] end
      | _ => fun _ => []
      end r
  end.

(** what an update of a listener found among [ls], or of the load
    balancer [lb], carries as tags *)
Definition carries_renamed_tags (cfg : Prefixes) (cn : string)
  (lb : loadbalancers.LoadBalancer) (ls : list listeners.Listener)
  (e : event) : Prop :=
  match ev_call e with
  | UpdateListener _ listenerID _ tags =>
      exists l, In l ls /\ listenerID = listeners.ID l
                /\ tags = map (openstack.renameTag cfg cn) (listeners.Tags l)
  | UpdateLoadBalancer _ _ tags =>
      tags = map (openstack.renameTag cfg cn) (loadbalancers.Tags lb)
  | _ => True
  end.

(** ** Vocabulary of the statements about invoking the migration again *)

(** a listener name the loop passes over: it lacks the listener prefix,
    or the cluster name read off it is the target *)
Definition settled (cfg : Prefixes) (cn name : string) : Prop :=
  strings.HasPrefix name (listenerPrefix cfg) = true ->
  decodedClusterName cfg (Numbered (listenerPrefix cfg)) name = cn.

(** every listener of the tree that the loop does not pass over gets,
    from the cluster name read off its pool, a name the loop passes over *)
Definition rewrite_lands (cfg : Prefixes) (cn : string) (s : service.Store)
  : Prop :=
  forall l p,
    In l (service.lbListeners s) ->
    ~ settled cfg cn (listeners.Name l) ->
    service.poolOf (listeners.ID l) s = Some p ->
    settled cfg cn
      (openstack.replaceClusterName
         (decodedClusterName cfg (Numbered (poolPrefix cfg)) (pools.Name p))
         cn (listeners.Name l)).

(** no pool of another listener refers to the monitor of [p], the pool
    of the listener with ID [k] *)
Definition monitor_private (s : service.Store) (k : string) (p : pools.Pool)
  : Prop :=
  forall k' p',
    In (k', p') (service.lbPools s) -> k' <> k ->
    pools.MonitorID p' <> pools.MonitorID p.

(** ** Vocabulary of the statements about access rights *)

(** the listing of a share's access rights, as a request *)
Definition listing (shareID : string) : manila.request :=
  manila.Client (manilaclient.GetAccessRights shareID).

(** the options [grantAccessCephx] asks the access with, the request it
    starts with *)
Definition cephxOpts (args : GrantAccessArgs.t) : GrantAccessOpts.t :=
  {| GrantAccessOpts.AccessType := "cephx";
     GrantAccessOpts.AccessTo := Share.Name (GrantAccessArgs.Share args);
     GrantAccessOpts.AccessLevel := "rw" |}.

Definition granting (args : GrantAccessArgs.t) : manila.request :=
  manila.Client
    (manilaclient.GrantAccess (Share.ID (GrantAccessArgs.Share args))
                              (cephxOpts args)).

(** a listing after which [grantAccessCephx] keeps waiting: no access
    right yet, or a single one whose key is still empty *)
Definition pending (accessRights : list AccessRight.t) : bool :=
  match accessRights with
  | [] => true
  | [a] => String.eqb (AccessRight.AccessKey a) ""
  | _ => false
  end.

(** the replies to [GetAccessRights] in a sequence of requests, in order *)
Fixpoint listings (t : list manila.event)
  : list (result (list AccessRight.t)) :=
  match t with
  | [] => []
  | manila.Ev q r :: t' =>
      match q as q0
            return manila.reply q0 -> list (result (list AccessRight.t)) with
      | manila.Client (manilaclient.GetAccessRights _) =>
          fun r0 => r0 :: listings t'
      | _ => fun _ => listings t'
      end r
  end.

(** a request of the wait: the clock, or the listing of the share *)
Definition waits_on (shareID : string) (e : manila.event) : Prop :=
  match e with
  | manila.Ev manila.TimeIsUp _ => True
  | manila.Ev (manila.Client (manilaclient.GetAccessRights i)) _ => i = shareID
  | _ => False
  end.

(** the error of a listing that shows [n] access rights, [n] above one *)
Definition crowded (n : nat) : error :=
  "unexpected number of access rules: got " ++ fmt.d n ++ ", expected 1".

(** The requests of a wait of at most [n] rounds that starts with the
    captured variable at its zero value, and what the wait ends with:
    the variable and the error.  A round asks the clock and, if time is
    not up, lists the access rights; a pending listing leads to the next
    round. *)
Inductive polled (shareID : string)
  : nat -> list manila.event -> AccessRight.t * option error -> Prop :=
| polled_exhausted :
    polled shareID 0 [] (AccessRight.zero, Some gophercloud.timeoutError)
| polled_time_up n :
    polled shareID (S n) [manila.Ev manila.TimeIsUp true]
           (AccessRight.zero, Some gophercloud.timeoutError)
| polled_error n e :
    polled shareID (S n)
           [manila.Ev manila.TimeIsUp false; manila.Ev (listing shareID) (inl e)]
           (AccessRight.zero, Some e)
| polled_crowded n accessRights :
    1 < List.length accessRights ->
    polled shareID (S n)
           [manila.Ev manila.TimeIsUp false;
            manila.Ev (listing shareID) (inr accessRights)]
           (AccessRight.zero, Some (crowded (List.length accessRights)))
| polled_key n a :
    AccessRight.AccessKey a <> "" ->
    polled shareID (S n)
           [manila.Ev manila.TimeIsUp false;
            manila.Ev (listing shareID) (inr [a])]
           (a, None)
| polled_again n accessRights t r :
    pending accessRights = true ->
    polled shareID n t r ->
    polled shareID (S n)
           (manila.Ev manila.TimeIsUp false
              :: manila.Ev (listing shareID) (inr accessRights) :: t)
           r.

(** ** Vocabulary of the statements about the name format *)

(** the name format the pattern of [decomposeLBName] reads: a resource
    prefix, the service prefix and the three fields *)
Definition formatted (cfg : Prefixes) (pre cn ns nm : string) : string :=
  pre ++ servicePrefix cfg ++ cn ++ "_" ++ ns ++ "_" ++ nm.

(** [pre], [cn], [ns] and [nm] are a resource prefix of kind [p] and
    three fields the format can hold, and in the name they form [cn]
    does not occur before its own field *)
Definition fits (cfg : Prefixes) (p : ResourcePrefix)
  (pre cn ns nm : string) : Prop :=
  prefixText p pre
  /\ (cn <> "" /\ all_in regexp.AnyButNewline cn)
  /\ (ns <> "" /\ all_in regexp.NotUnderscore ns)
  /\ (nm <> "" /\ all_in regexp.NotUnderscore nm)
  /\ no_occurrence_before cn (formatted cfg pre cn ns nm)
       (String.length (pre ++ servicePrefix cfg)).

(** how many '_' a text holds *)
Definition underscores (s : string) : nat :=
  count_occ ascii_dec (strings.bytes s) "_"%char.

(** ** Vocabulary of the statements about what the calls carry *)

Definition kind_eq_dec (a b : kind) : {a = b} + {a <> b}.
Proof. decide equality. Defined.

(** how many calls of kind [k] a sequence holds *)
Definition calls_of (k : kind) (t : list event) : nat :=
  count_occ kind_eq_dec (map ev_kind t) k.

(** the pool, the monitor an event handed to the caller *)
Definition pools_read (e : event) : list pools.Pool :=
  match e with
  | Ev c r =>
      match c as c0 return result (answer c0) -> list pools.Pool with
      | GetPoolByListener _ _ =>
          fun r0 => match r0 with inr p => [p] | inl _ => [] end
      | _ => fun _ => []
      end r
  end.

Definition monitors_read (e : event) : list monitors.Monitor :=
  match e with
  | Ev c r =>
      match c as c0 return result (answer c0) -> list monitors.Monitor with
      | GetHealthMonitor _ =>
          fun r0 => match r0 with inr m => [m] | inl _ => [] end
      | _ => fun _ => []
      end r
  end.

(** an update of a pool or of a monitor names one of [ps], of [ms],
    whose name reads another cluster name than the target, and carries
    that name with this cluster name replaced *)
Definition renames_own_name (cfg : Prefixes) (cn : string)
  (lb : loadbalancers.LoadBalancer) (ps : list pools.Pool)
  (ms : list monitors.Monitor) (e : event) : Prop :=
  match ev_call e with
  | UpdatePool lbID poolID name =>
      lbID = loadbalancers.ID lb
      /\ exists p,
           In p ps /\ poolID = pools.ID p
           /\ decodedClusterName cfg (Numbered (poolPrefix cfg)) (pools.Name p)
              <> cn
           /\ name = openstack.replaceClusterName
                       (decodedClusterName cfg (Numbered (poolPrefix cfg))
                                           (pools.Name p))
                       cn (pools.Name p)
  | UpdateHealthMonitor monitorID name lbID =>
      lbID = loadbalancers.ID lb
      /\ exists m,
           In m ms /\ monitorID = monitors.ID m
           /\ decodedClusterName cfg (Numbered (monitorPrefix cfg))
                                 (monitors.Name m) <> cn
           /\ name = openstack.replaceClusterName
                       (decodedClusterName cfg (Numbered (monitorPrefix cfg))
                                           (monitors.Name m))
                       cn (monitors.Name m)
  | _ => True
  end.

(** every update in [t] renames what [ps], [ms] or an earlier event of
    [t] handed over *)
Fixpoint reads_first (cfg : Prefixes) (cn : string)
  (lb : loadbalancers.LoadBalancer) (ps : list pools.Pool)
  (ms : list monitors.Monitor) (t : list event) : Prop :=
  match t with
  | [] => True
  | e :: t' =>
      renames_own_name cfg cn lb ps ms e
      /\ reads_first cfg cn lb (ps ++ pools_read e) (ms ++ monitors_read e) t'
  end.

(** ** Example trees *)

Module scenario.

(** A listener that still carries the old cluster name, over a pool that
    already carries the new one, with a monitor that still carries the
    old one (scenario 3 of the specification). *)
Definition lb3 : loadbalancers.LoadBalancer :=
  {| loadbalancers.ID := "lb1";
     loadbalancers.Name := "kube_service_clusterA_ns1_svc1";
     loadbalancers.Tags := [] |}.

Definition listener3 : listeners.Listener :=
  {| listeners.ID := "l1";
     listeners.Name := "listener_0_kube_service_clusterA_ns1_svc1";
     listeners.Tags := [] |}.

Definition pool3 : pools.Pool :=
  {| pools.ID := "p1";
     pools.Name := "pool_0_kube_service_clusterB_ns1_svc1";
     pools.MonitorID := "m1" |}.

Definition monitor3 : monitors.Monitor :=
  {| monitors.ID := "m1";
     monitors.Name := "monitor_0_kube_service_clusterA_ns1_svc1" |}.

Definition tree3 : service.Store :=
  {| service.loadbalancer := lb3;
     service.lbListeners := [listener3];
     service.lbPools := [("l1", pool3)];
     service.lbMonitors := [monitor3] |}.

(** A tree all on cluster name [clusterA]: one listener with a tag of a
    second service and a free-form tag, its pool and the pool's monitor. *)
Definition lbA : loadbalancers.LoadBalancer :=
  {| loadbalancers.ID := "lb1";
     loadbalancers.Name := "kube_service_clusterA_ns1_svc1";
     loadbalancers.Tags := ["kube_service_clusterA_ns1_svc1"; "team:payments"] |}.

Definition listenerA : listeners.Listener :=
  {| listeners.ID := "l1";
     listeners.Name := "listener_0_kube_service_clusterA_ns1_svc1";
     listeners.Tags := ["kube_service_clusterA_ns1_svc2"; "team:payments"] |}.

Definition poolA : pools.Pool :=
  {| pools.ID := "p1";
     pools.Name := "pool_0_kube_service_clusterA_ns1_svc1";
     pools.MonitorID := "m1" |}.

Definition monitorA : monitors.Monitor :=
  {| monitors.ID := "m1";
     monitors.Name := "monitor_0_kube_service_clusterA_ns1_svc1" |}.

Definition treeA : service.Store :=
  {| service.loadbalancer := lbA;
     service.lbListeners := [listenerA];
     service.lbPools := [("l1", poolA)];
     service.lbMonitors := [monitorA] |}.

(** A cluster called [kube], whose name also occurs in every prefix; the
    second listener has no pool, so that looking its pool up fails. *)
Definition lbK : loadbalancers.LoadBalancer :=
  {| loadbalancers.ID := "lb1";
     loadbalancers.Name := "kube_service_kube_ns_svc";
     loadbalancers.Tags := [] |}.

Definition listenerK1 : listeners.Listener :=
  {| listeners.ID := "l1";
     listeners.Name := "listener_0_kube_service_kube_ns_svc";
     listeners.Tags := [] |}.

Definition listenerK2 : listeners.Listener :=
  {| listeners.ID := "l2";
     listeners.Name := "listener_1_kube_service_kube_ns_svc";
     listeners.Tags := [] |}.

Definition poolK : pools.Pool :=
  {| pools.ID := "p1";
     pools.Name := "pool_0_kube_service_kube_ns_svc";
     pools.MonitorID := "" |}.

Definition treeK : service.Store :=
  {| service.loadbalancer := lbK;
     service.lbListeners := [listenerK1; listenerK2];
     service.lbPools := [("l1", poolK)];
     service.lbMonitors := [] |}.

(** the same tree without the second listener: nothing fails *)
Definition treeK1 : service.Store :=
  {| service.loadbalancer := lbK;
     service.lbListeners := [listenerK1];
     service.lbPools := [("l1", poolK)];
     service.lbMonitors := [] |}.

(** [treeA] with a second listener that has no pool: looking its pool up
    fails *)
Definition listenerF : listeners.Listener :=
  {| listeners.ID := "l2";
     listeners.Name := "listener_1_kube_service_clusterA_ns1_svc1";
     listeners.Tags := [] |}.

Definition treeF : service.Store :=
  {| service.loadbalancer := lbA;
     service.lbListeners := [listenerA; listenerF];
     service.lbPools := [("l1", poolA)];
     service.lbMonitors := [monitorA] |}.

(** [treeA] after its migration to [clusterB] *)
Definition lbB : loadbalancers.LoadBalancer :=
  {| loadbalancers.ID := "lb1";
     loadbalancers.Name := "kube_service_clusterB_ns1_svc1";
     loadbalancers.Tags := ["kube_service_clusterB_ns1_svc1"; "team:payments"] |}.

Definition treeB : service.Store :=
  {| service.loadbalancer := lbB;
     service.lbListeners :=
       [{| listeners.ID := "l1";
           listeners.Name := "listener_0_kube_service_clusterB_ns1_svc1";
           listeners.Tags := ["kube_service_clusterB_ns1_svc2"; "team:payments"] |}];
     service.lbPools :=
       [("l1", {| pools.ID := "p1";
                  pools.Name := "pool_0_kube_service_clusterB_ns1_svc1";
                  pools.MonitorID := "m1" |})];
     service.lbMonitors :=
       [{| monitors.ID := "m1";
           monitors.Name := "monitor_0_kube_service_clusterB_ns1_svc1" |}] |}.

End scenario.

(** ** Example shares and clients *)

Module access.

(** a client whose share never shows an access right, with a clock that
    never cuts a round short *)
Definition idle : manila.handler unit :=
  fun q =>
    match q as q0 return unit -> manila.reply q0 * unit with
    | manila.Client (manilaclient.GetAccessRights _) => fun s => (inr [], s)
    | manila.Client (manilaclient.GrantAccess _ _) =>
        fun s => (inr AccessRight.zero, s)
    | manila.TimeIsUp => fun s => (false, s)
    end.

(** a share to create an access right for, and the same share with the
    ID of an access right to use *)
Definition argsNew : GrantAccessArgs.t :=
  {| GrantAccessArgs.Share := {| Share.ID := "share-1"; Share.Name := "pvc-1" |};
     GrantAccessArgs.Options := {| ShareOptions.OSShareAccessID := "" |} |}.

Definition argsGiven : GrantAccessArgs.t :=
  {| GrantAccessArgs.Share := {| Share.ID := "share-1"; Share.Name := "pvc-1" |};
     GrantAccessArgs.Options := {| ShareOptions.OSShareAccessID := "rule-7" |} |}.

End access.

(* ================================================================== *)
(** * Part II: lemmas and theorems                                     *)
(* ================================================================== *)

(** ** Strings *)

Lemma append_nil_r (s : string) : s ++ "" = s.
Proof. induction s; simpl; congruence. Qed.

Lemma append_assoc (a b c : string) : (a ++ b) ++ c = a ++ (b ++ c).
Proof. induction a; simpl; congruence. Qed.

Lemma length_append (a b : string) :
  String.length (a ++ b) = String.length a + String.length b.
Proof. induction a; simpl; congruence. Qed.

Lemma bytes_append (a b : string) :
  strings.bytes (a ++ b) = (strings.bytes a ++ strings.bytes b)%list.
Proof. induction a; simpl; congruence. Qed.

Lemma take_drop (n : nat) (s : string) : strings.take n s ++ strings.drop n s = s.
Proof.
  revert s; induction n as [|n IH]; intros [|c s]; simpl; try reflexivity.
  now rewrite IH.
Qed.

Lemma take_append (a b : string) : strings.take (String.length a) (a ++ b) = a.
Proof. induction a; simpl; congruence. Qed.

Lemma drop_append (a b : string) : strings.drop (String.length a) (a ++ b) = b.
Proof. induction a; simpl; congruence. Qed.

(** ** [strings.LastIndexByte] *)

Lemma LastIndexByte_lower (s : string) (c : ascii) :
  (-1 <= strings.LastIndexByte s c)%Z.
Proof.
  induction s as [|a s IH]; simpl; [lia|].
  destruct (0 <=? strings.LastIndexByte s c)%Z eqn:E; [lia|].
  destruct (Ascii.eqb a c); lia.
Qed.

Lemma LastIndexByte_absent (s : string) (c : ascii) :
  strings.LastIndexByte s c = (-1)%Z <-> ~ strings.occurs c s.
Proof.
  unfold strings.occurs.
  induction s as [|a s IH]; simpl.
  - split; [intros _ []|reflexivity].
  - pose proof (LastIndexByte_lower s c) as L.
    destruct (0 <=? strings.LastIndexByte s c)%Z eqn:E.
    + apply Z.leb_le in E. split; [lia|].
      intros H. exfalso. apply H. right.
      destruct (in_dec ascii_dec c (strings.bytes s)) as [i|n]; [exact i|].
      apply IH in n. lia.
    + apply Z.leb_gt in E.
      assert (Hs : strings.LastIndexByte s c = (-1)%Z) by lia.
      apply IH in Hs.
      destruct (Ascii.eqb_spec a c) as [->|ne].
      * split; [lia|]. intros H; exfalso; apply H; now left.
      * split; [|reflexivity]. intros _ [e|i]; [congruence|tauto].
Qed.

Lemma LastIndexByte_split (s : string) (c : ascii) (i : Z) :
  strings.LastIndexByte s c = i -> (0 <= i)%Z ->
  s = strings.take (Z.to_nat i) s ++ String c (strings.drop (Z.to_nat (i + 1)) s)
  /\ ~ strings.occurs c (strings.drop (Z.to_nat (i + 1)) s)
  /\ String.length (strings.take (Z.to_nat i) s) = Z.to_nat i.
Proof.
  revert i; induction s as [|a s IH]; simpl; intros i Hi Hpos; [lia|].
  destruct (0 <=? strings.LastIndexByte s c)%Z eqn:E.
  - apply Z.leb_le in E.
    destruct (IH _ eq_refl E) as (Hs & Hno & Hlen).
    subst i.
    replace (Z.to_nat (strings.LastIndexByte s c + 1))
      with (S (Z.to_nat (strings.LastIndexByte s c))) by lia.
    replace (Z.to_nat (strings.LastIndexByte s c + 1 + 1))
      with (S (Z.to_nat (strings.LastIndexByte s c + 1))) by lia.
    simpl. repeat split.
    + f_equal. exact Hs.
    + exact Hno.
    + now rewrite Hlen.
  - apply Z.leb_gt in E.
    pose proof (LastIndexByte_lower s c) as L.
    assert (Hs : strings.LastIndexByte s c = (-1)%Z) by lia.
    apply LastIndexByte_absent in Hs.
    destruct (Ascii.eqb_spec a c) as [->|ne]; [|lia].
    subst i. simpl. repeat split; auto.
Qed.

(** A split at a ':' with no ':' to its right is the split at the last ':'. *)
Lemma last_split_unique (c : ascii) (a b a' b' : string) :
  a ++ String c b = a' ++ String c b' ->
  ~ strings.occurs c b -> ~ strings.occurs c b' -> a = a' /\ b = b'.
Proof.
  unfold strings.occurs.
  revert a'; induction a as [|x a IH]; intros [|y a']; simpl; intros E Hb Hb'.
  - now inversion E.
  - inversion E; subst. exfalso. apply Hb.
    rewrite bytes_append. apply in_or_app. right. now left.
  - inversion E; subst. exfalso. apply Hb'.
    rewrite bytes_append. apply in_or_app. right. now left.
  - inversion E; subst. destruct (IH a' H1 Hb Hb') as [-> ->]. now split.
Qed.

(** C10. [splitExportLocation] fails exactly when the path has no ':' or
    its last ':' is its first byte; otherwise [address] is what stands
    before the last ':' and [location] what stands after it: the two
    joined by ":" give the path back and [location] holds no ':'. *)
Theorem splitExportLocation_last_colon (path : string) :
  let '(address, location, err) :=
    sharebackends.splitExportLocation {| shares.Path := path |} in
  (err <> None <->
     (~ strings.occurs ":" path
      \/ exists rest, path = String ":" rest /\ ~ strings.occurs ":" rest))
  /\ (err <> None <->
        (strings.LastIndexByte path ":" = (-1)%Z
         \/ strings.LastIndexByte path ":" = 0%Z))
  /\ (err = None ->
        address ++ ":" ++ location = path
        /\ ~ strings.occurs ":" location
        /\ address = strings.take (Z.to_nat (strings.LastIndexByte path ":")) path
        /\ location = strings.drop (Z.to_nat (strings.LastIndexByte path ":" + 1)) path
        /\ forall a b, path = a ++ ":" ++ b -> ~ strings.occurs ":" b ->
                       a = address /\ b = location).
Proof.
  unfold sharebackends.splitExportLocation; simpl.
  pose proof (LastIndexByte_lower path ":") as L.
  destruct (strings.LastIndexByte path ":" <=? 0)%Z eqn:E.
  - apply Z.leb_le in E. split; [|split].
    + split; [|intros _; discriminate]. intros _.
      destruct (Z.eq_dec (strings.LastIndexByte path ":") (-1)) as [e|ne].
      * left. now apply LastIndexByte_absent.
      * right. assert (e0 : strings.LastIndexByte path ":" = 0%Z) by lia.
        destruct (LastIndexByte_split path ":" 0 e0 (Z.le_refl 0)) as (Hs & Hno & _).
        simpl in Hs, Hno. eexists; split; [exact Hs|exact Hno].
    + split; [intros _; lia|intros _; discriminate].
    + discriminate.
  - apply Z.leb_gt in E.
    destruct (LastIndexByte_split path ":" _ eq_refl ltac:(lia)) as (Hs & Hno & Hlen).
    split; [|split].
    + split; [intros H; now elim H|].
      intros [Habs|(rest & Hp & Hrest)].
      * apply LastIndexByte_absent in Habs. lia.
      * exfalso. subst path. simpl in E.
        apply LastIndexByte_absent in Hrest. rewrite Hrest in E. simpl in E. lia.
    + split; [intros H; now elim H|]. intros [e|e]; lia.
    + intros _. split; [simpl; symmetry; exact Hs|].
      split; [exact Hno|]. split; [reflexivity|]. split; [reflexivity|].
      intros a b Hab Hb. simpl in Hab.
      destruct (last_split_unique ":" a b _ _ (eq_trans (eq_sym Hab) Hs) Hb Hno)
        as [-> ->].
      now split.
Qed.



(** ** [strings.HasPrefix] and [strings.Replace] *)

Lemma HasPrefix_iff (s p : string) :
  strings.HasPrefix s p = true <-> exists r, s = p ++ r.
Proof.
  revert s; induction p as [|a p IH]; intros s; simpl.
  - split; [intros _; now exists s|reflexivity].
  - destruct s as [|c s].
    + split; [discriminate|intros [r H]; discriminate].
    + rewrite andb_true_iff, IH. split.
      * intros [E [r ->]]. apply Ascii.eqb_eq in E. subst. now exists r.
      * intros [r H]. inversion H; subst. split; [apply Ascii.eqb_refl|now exists r].
Qed.

Lemma HasPrefix_append (p r : string) : strings.HasPrefix (p ++ r) p = true.
Proof. apply HasPrefix_iff. now exists r. Qed.

Lemma HasPrefix_nil (s : string) : strings.HasPrefix s "" = true.
Proof. reflexivity. Qed.

(** [strings.Replace(s, old, new, 1)] rewrites the leftmost occurrence. *)
Lemma Replace1_occurs (s old new : string) :
  (exists a b, s = a ++ old ++ b) ->
  exists a b, s = a ++ old ++ b
              /\ strings.Replace1 s old new = a ++ new ++ b
              /\ no_occurrence_before old s (String.length a).
Proof.
  induction s as [|c s IH]; intros (a & b & E).
  - destruct a; [|discriminate]. destruct old; [|discriminate].
    exists "", "". simpl. rewrite append_nil_r.
    repeat split. intros ? ? _. simpl. lia.
  - simpl. destruct (strings.HasPrefix (String c s) old) eqn:P.
    + apply HasPrefix_iff in P as [r Hr].
      assert (D : strings.drop (String.length old) (String c s) = r)
        by (rewrite Hr; apply drop_append).
      exists "", r. rewrite D. simpl.
      repeat split; auto. intros ? ? _. lia.
    + destruct a as [|c' a].
      * simpl in E. rewrite E in P. rewrite HasPrefix_append in P. discriminate.
      * simpl in E. injection E as Ec Es. subst c'.
        destruct IH as (a1 & b1 & E1 & R1 & N1); [now exists a, b|].
        exists (String c a1), b1. rewrite R1.
        split; [simpl; now f_equal|]. split; [reflexivity|].
        intros a2 b2 E2. destruct a2 as [|c2 a2].
        -- simpl in E2. rewrite E2 in P. rewrite HasPrefix_append in P. discriminate.
        -- simpl in E2. injection E2 as _ E2. simpl.
           apply le_n_S. apply (N1 a2 b2). exact E2.
Qed.

Lemma Replace1_absent (s old new : string) :
  (forall a b, s <> a ++ old ++ b) -> strings.Replace1 s old new = s.
Proof.
  induction s as [|c s IH]; intros H; simpl.
  - destruct (strings.HasPrefix "" old) eqn:P; [|reflexivity].
    apply HasPrefix_iff in P as [r Hr]. exfalso. apply (H "" r). exact Hr.
  - destruct (strings.HasPrefix (String c s) old) eqn:P.
    + apply HasPrefix_iff in P as [r Hr]. exfalso. apply (H "" r). exact Hr.
    + f_equal. apply IH. intros a b E. apply (H (String c a) b). simpl. now f_equal.
Qed.

Lemma Replace1_same (s x : string) : strings.Replace1 s x x = s.
Proof.
  induction s as [|c s IH]; simpl.
  - destruct (strings.HasPrefix "" x) eqn:P; [|reflexivity].
    apply HasPrefix_iff in P as [r Hr].
    destruct x; [reflexivity|discriminate].
  - destruct (strings.HasPrefix (String c s) x) eqn:P.
    + apply HasPrefix_iff in P as [r Hr].
      assert (D : strings.drop (String.length x) (String c s) = r)
        by (rewrite Hr; apply drop_append).
      rewrite D. now symmetry.
    + now f_equal.
Qed.

Lemma Replace1_empty (s new : string) : strings.Replace1 s "" new = new ++ s.
Proof. destruct s; reflexivity. Qed.

(** ** The matcher: what [exec] lists, and in which order *)

Lemma all_in_nil (c : regexp.class) : all_in c "".
Proof. constructor. Qed.

Lemma all_in_cons (c : regexp.class) (a : ascii) (x : string) :
  all_in c (String a x) <-> regexp.in_class c a = true /\ all_in c x.
Proof.
  unfold all_in; simpl. split.
  - intros H. inversion H; subst. now split.
  - intros [H1 H2]. now constructor.
Qed.

Lemma plus_spec (c : regexp.class) (s rest : string) :
  In rest (regexp.plus c s)
  <-> exists x, s = x ++ rest /\ x <> "" /\ all_in c x.
Proof.
  revert rest; induction s as [|a s IH]; intros rest; simpl.
  - split; [intros []|]. intros (x & E & N & _).
    destruct x; [now elim N|discriminate].
  - destruct (regexp.in_class c a) eqn:C.
    + rewrite in_app_iff, IH. simpl. split.
      * intros [(x & E & N & A)|[E|[]]].
        -- exists (String a x). subst s. simpl.
           split; [reflexivity|]. split; [discriminate|]. now apply all_in_cons.
        -- exists (String a ""). subst s. simpl.
           split; [reflexivity|]. split; [discriminate|].
           apply all_in_cons. split; [exact C|apply all_in_nil].
      * intros (x & E & N & A).
        destruct x as [|a' x]; [now elim N|].
        simpl in E. injection E as Ea Es. subst a'.
        apply all_in_cons in A as [_ A].
        destruct x as [|b x].
        -- right. left. simpl in Es. now symmetry.
        -- left. exists (String b x). split; [exact Es|]. split; [discriminate|exact A].
    + split; [intros []|]. intros (x & E & N & A).
      destruct x as [|a' x]; [now elim N|].
      simpl in E. injection E as Ea Es. subst a'.
      apply all_in_cons in A as [A _]. congruence.
Qed.

(** A greedy [c+] in front of a continuation [f]: the first match comes
    from the longest run of [c] after which [f] matches at all. *)
Lemma plus_first {B : Type} (c : regexp.class) (f : string -> list B)
  (s : string) (y : B) :
  hd_error (flat_map f (regexp.plus c s)) = Some y ->
  exists x rest,
    s = x ++ rest /\ x <> "" /\ all_in c x
    /\ hd_error (f rest) = Some y
    /\ forall x' rest', s = x' ++ rest' -> x' <> "" -> all_in c x' ->
                        f rest' <> [] ->
                        String.length x' <= String.length x.
Proof.
  revert y; induction s as [|a s IH]; intros y; simpl; [discriminate|].
  destruct (regexp.in_class c a) eqn:C; [|discriminate].
  rewrite flat_map_app. simpl. rewrite app_nil_r.
  destruct (flat_map f (regexp.plus c s)) as [|y0 l0] eqn:F.
  - simpl. intros H.
    exists (String a ""), s. simpl. split; [reflexivity|].
    split; [discriminate|]. split; [apply all_in_cons; split; [exact C|apply all_in_nil]|].
    split; [exact H|].
    intros x' rest' E N A Hf.
    destruct x' as [|a' x']; [now elim N|].
    simpl in E. injection E as Ea Es. subst a'.
    destruct x' as [|b x']; [simpl; lia|]. exfalso.
    apply all_in_cons in A as [_ A].
    assert (I : In rest' (regexp.plus c s)).
    { apply plus_spec. exists (String b x'). split; [exact Es|]. split; [discriminate|exact A]. }
    destruct (f rest') as [|z l] eqn:Fr; [now elim Hf|].
    assert (I2 : In z (flat_map f (regexp.plus c s))).
    { apply in_flat_map. exists rest'. split; [exact I|]. rewrite Fr. now left. }
    rewrite F in I2. exact I2.
  - simpl. intros H. injection H as ->.
    destruct (IH y) as (x & rest & E & N & A & Hh & Hmax); [reflexivity|].
    exists (String a x), rest. subst s. simpl. split; [reflexivity|].
    split; [discriminate|]. split; [now apply all_in_cons|]. split; [exact Hh|].
    intros x' rest' E' N' A' Hf.
    destruct x' as [|a' x']; [now elim N'|].
    simpl in E'. injection E' as Ea Es. subst a'.
    destruct x' as [|b x']; [simpl; lia|].
    apply all_in_cons in A' as [_ A'].
    simpl. apply le_n_S. apply (Hmax (String b x') rest'); auto. discriminate.
Qed.

(** The first match of a greedy [c+] with nothing after it is the whole
    run: what is left does not start with a byte of [c]. *)
Lemma plus_head_maximal (c : regexp.class) (s rest : string) :
  hd_error (regexp.plus c s) = Some rest ->
  rest = "" \/ exists a r, rest = String a r /\ regexp.in_class c a = false.
Proof.
  revert rest; induction s as [|a s IH]; intros rest; simpl; [discriminate|].
  destruct (regexp.in_class c a) eqn:C; [|discriminate].
  destruct (regexp.plus c s) as [|r0 l0] eqn:P.
  - simpl. intros H. injection H as <-.
    destruct s as [|b s]; [now left|]. right. exists b, s. split; [reflexivity|].
    simpl in P. destruct (regexp.in_class c b); [|reflexivity].
    destruct (regexp.plus c s); discriminate.
  - simpl. intros H. injection H as <-. apply IH. reflexivity.
Qed.

Lemma exec_iff (r : regexp.Regexp) (s : string) (caps : list string)
  (rest : string) :
  In (caps, rest) (regexp.exec r s)
  <-> exists x, s = x ++ rest /\ derives r x caps.
Proof.
  revert s caps rest; induction r as [text|c|r IH|r1 IH1 r2 IH2];
    intros s caps rest; simpl.
  - destruct (strings.HasPrefix s text) eqn:P.
    + apply HasPrefix_iff in P as [r Hr].
      assert (D : strings.drop (String.length text) s = r)
        by (rewrite Hr; apply drop_append).
      rewrite D. simpl. split.
      * intros [E|[]]. injection E as <- <-. now exists text.
      * intros (x & E & -> & ->). left. f_equal. subst s.
        clear D. induction text; simpl in E; [now symmetry|].
        injection E as E. auto.
    + split; [intros []|]. intros (x & E & -> & _).
      subst s. rewrite HasPrefix_append in P. discriminate.
  - rewrite in_map_iff. split.
    + intros (r & E & I). injection E as <- <-.
      apply plus_spec in I as (x & E & N & A). exists x. auto.
    + intros (x & E & (N & A) & ->). exists rest. split; [reflexivity|].
      apply plus_spec. now exists x.
  - rewrite in_map_iff. split.
    + intros ([caps' rest'] & E & I). simpl in E. injection E as <- <-.
      apply IH in I as (x & E & D). exists x. split; [exact E|].
      exists caps'. split; [exact D|]. f_equal.
      subst s. rewrite length_append.
      replace (String.length x + String.length rest' - String.length rest')
        with (String.length x) by lia.
      apply take_append.
    + intros (x & E & caps' & D & ->). exists (caps', rest). simpl. split.
      * f_equal. f_equal. subst s. rewrite length_append.
        replace (String.length x + String.length rest - String.length rest)
          with (String.length x) by lia.
        apply take_append.
      * apply IH. now exists x.
  - rewrite in_flat_map. split.
    + intros ([c1 s1] & I1 & I2). simpl in I2.
      apply in_map_iff in I2 as ([c2 s2] & E & I2). simpl in E.
      injection E as <- <-.
      apply IH1 in I1 as (x1 & E1 & D1). apply IH2 in I2 as (x2 & E2 & D2).
      exists (x1 ++ x2). split; [subst; now rewrite append_assoc|].
      now exists x1, x2, c1, c2.
    + intros (x & E & x1 & x2 & c1 & c2 & -> & -> & D1 & D2).
      exists (c1, x2 ++ rest). split.
      * apply IH1. exists x1. split; [now rewrite <- append_assoc|exact D1].
      * simpl. apply in_map_iff. exists (c2, rest). split; [reflexivity|].
        apply IH2. now exists x2.
Qed.

Lemma FindStringSubmatch_some (r : regexp.Regexp) (s : string)
  (caps : list string) :
  regexp.FindStringSubmatch r s = Some caps ->
  exists before s' rest tl,
    s = before ++ s' /\ regexp.exec r s' = (caps, rest) :: tl
    /\ forall b1 s1, s = b1 ++ s1 -> String.length b1 < String.length before ->
                     regexp.exec r s1 = [].
Proof.
  induction s as [|a s IH]; simpl.
  - destruct (regexp.exec r "") as [|[c0 r0] tl] eqn:E; [discriminate|].
    simpl. intros H. injection H as <-.
    exists "", "", r0, tl. repeat split; auto. simpl. intros; lia.
  - destruct (regexp.exec r (String a s)) as [|[c0 r0] tl] eqn:E.
    + intros H. destruct (IH H) as (before & s' & rest & tl & Es & Ex & Hmin).
      exists (String a before), s', rest, tl. subst s. simpl.
      split; [reflexivity|]. split; [exact Ex|].
      intros b1 s1 E1 L. destruct b1 as [|a1 b1].
      * simpl in E1. now subst s1.
      * simpl in E1. injection E1 as _ E1. apply (Hmin b1 s1 E1). simpl in L. lia.
    + simpl. intros H. injection H as <-.
      exists "", (String a s), r0, tl. repeat split; auto. simpl. intros; lia.
Qed.

Lemma FindStringSubmatch_none (r : regexp.Regexp) (s : string) :
  regexp.FindStringSubmatch r s = None ->
  forall b1 s1, s = b1 ++ s1 -> regexp.exec r s1 = [].
Proof.
  induction s as [|a s IH]; simpl.
  - destruct (regexp.exec r "") eqn:E; [|discriminate].
    intros _ b1 s1 E1. destruct b1; [|discriminate]. simpl in E1. now subst.
  - destruct (regexp.exec r (String a s)) eqn:E; [|discriminate].
    intros H b1 s1 E1. destruct b1 as [|a1 b1].
    + simpl in E1. now subst.
    + simpl in E1. injection E1 as _ E1. now apply (IH H b1 s1).
Qed.

(** ** The pattern of [decomposeLBName] *)

Lemma map_pair_eta {A B : Type} (l : list (A * B)) :
  map (fun m => (fst m, snd m)) l = l.
Proof. induction l as [|[a b] l IH]; simpl; congruence. Qed.

Lemma flat_map_map {A B C : Type} (g : A -> B) (f : B -> list C) (l : list A) :
  flat_map f (map g l) = flat_map (fun a => f (g a)) l.
Proof. induction l; simpl; congruence. Qed.

Lemma hd_error_map {A B : Type} (g : A -> B) (l : list A) (y : B) :
  hd_error (map g l) = Some y -> exists x, hd_error l = Some x /\ y = g x.
Proof. destruct l; simpl; [discriminate|]. intros H. injection H as <-. eauto. Qed.

Lemma exec_seq_lit (text : string) (r : regexp.Regexp) (s : string) :
  regexp.exec (regexp.Seq (regexp.Lit text) r) s
  = if strings.HasPrefix s text
    then regexp.exec r (strings.drop (String.length text) s) else [].
Proof.
  simpl. destruct (strings.HasPrefix s text); [|reflexivity].
  simpl. rewrite app_nil_r. apply map_pair_eta.
Qed.

Lemma exec_seq_group_plus (c : regexp.class) (r : regexp.Regexp) (s : string) :
  regexp.exec (regexp.Seq (regexp.Group (regexp.Plus c)) r) s
  = flat_map
      (fun rest =>
         map (fun m => (strings.take (String.length s - String.length rest) s
                          :: fst m, snd m))
             (regexp.exec r rest))
      (regexp.plus c s).
Proof. simpl. rewrite map_map, flat_map_map. reflexivity. Qed.

Lemma exec_group_plus (c : regexp.class) (s : string) :
  regexp.exec (regexp.Group (regexp.Plus c)) s
  = map (fun rest =>
           ([strings.take (String.length s - String.length rest) s], rest))
        (regexp.plus c s).
Proof. simpl. rewrite map_map. reflexivity. Qed.

(** [[0-9]+_] matches in at most one way: only the whole run of digits can
    be followed by '_'. *)
Lemma digits_underscore_once (s : string) :
  regexp.exec (regexp.Seq (regexp.Plus regexp.Digit) (regexp.Lit "_")) s = []
  \/ exists rest,
       regexp.exec (regexp.Seq (regexp.Plus regexp.Digit) (regexp.Lit "_")) s
       = [([], rest)].
Proof.
  cbn [regexp.exec]. rewrite flat_map_map. cbn [fst snd app].
  induction s as [|a s IH]; cbn [regexp.plus flat_map]; [now left|].
  destruct (regexp.in_class regexp.Digit a); [|now left].
  rewrite flat_map_app. cbn [flat_map]. rewrite app_nil_r.
  destruct s as [|b s]; [now left|].
  destruct (Ascii.eqb b "_") eqn:B.
  - apply Ascii.eqb_eq in B. subst b. right.
    cbn. eauto.
  - replace (strings.HasPrefix (String b s) "_") with false
      by (cbn; now rewrite B).
    cbn [map]. rewrite app_nil_r. exact IH.
Qed.

Lemma prefix_once (p : ResourcePrefix) (s : string) :
  regexp.exec (resourcePrefixRegexp p) s = []
  \/ exists rest, regexp.exec (resourcePrefixRegexp p) s = [([], rest)].
Proof.
  destruct p as [|prefix].
  - right. exists s. reflexivity.
  - unfold resourcePrefixRegexp. rewrite exec_seq_lit.
    destruct (strings.HasPrefix s prefix); [|now left].
    apply digits_underscore_once.
Qed.

Lemma derives_prefix (p : ResourcePrefix) (x : string) (caps : list string) :
  derives (resourcePrefixRegexp p) x caps <-> prefixText p x /\ caps = [].
Proof.
  destruct p as [|prefix]; simpl; [tauto|]. split.
  - intros (x1 & x2 & c1 & c2 & -> & -> & (-> & ->)
            & x3 & x4 & c3 & c4 & -> & -> & ((N & A) & ->) & -> & ->).
    split; [|reflexivity]. now exists x3.
  - intros ((d & -> & N & A) & ->).
    exists prefix, (d ++ "_"), [], []. repeat split.
    exists d, "_", [], []. repeat split; auto.
Qed.

Section Pattern.
Context (cfg : Prefixes).

(** the pattern after the first group, after the second group *)
Let T3 : regexp.Regexp :=
  regexp.Seq (regexp.Lit "_") (regexp.Group (regexp.Plus regexp.NotUnderscore)).
Let T1 : regexp.Regexp :=
  regexp.Seq (regexp.Lit "_")
    (regexp.Seq (regexp.Group (regexp.Plus regexp.NotUnderscore)) T3).

Lemma derives_T1 (x : string) (caps : list string) :
  derives T1 x caps
  <-> exists n m, x = "_" ++ n ++ "_" ++ m /\ caps = [n; m]
                  /\ (n <> "" /\ all_in regexp.NotUnderscore n)
                  /\ (m <> "" /\ all_in regexp.NotUnderscore m).
Proof.
  unfold T1, T3. simpl. split.
  - intros (x1 & x2 & c1 & c2 & -> & -> & (-> & ->)
            & x3 & x4 & c3 & c4 & -> & -> & (c5 & (Hn & ->) & ->)
            & x5 & x6 & c6 & c7 & -> & -> & (-> & ->) & c8 & (Hm & ->) & ->).
    exists x3, x6. simpl. repeat split; tauto.
  - intros (n & m & -> & -> & Hn & Hm).
    exists "_", (n ++ "_" ++ m), [], [n; m]. repeat split.
    exists n, ("_" ++ m), [n], [m]. repeat split.
    + exists []. split; [tauto|reflexivity].
    + exists "_", m, [], [m]. repeat split. exists []. split; [tauto|reflexivity].
Qed.

Lemma derives_lbNameRegex (p : ResourcePrefix) (x : string)
  (caps : list string) :
  derives (openstack.lbNameRegex cfg p) x caps
  <-> exists pre c n m,
        x = pre ++ servicePrefix cfg ++ c ++ "_" ++ n ++ "_" ++ m
        /\ caps = [c; n; m]
        /\ prefixText p pre
        /\ (c <> "" /\ all_in regexp.AnyButNewline c)
        /\ (n <> "" /\ all_in regexp.NotUnderscore n)
        /\ (m <> "" /\ all_in regexp.NotUnderscore m).
Proof.
  assert (E : openstack.lbNameRegex cfg p
              = regexp.Seq (resourcePrefixRegexp p)
                  (regexp.Seq (regexp.Lit (servicePrefix cfg))
                     (regexp.Seq
                        (regexp.Group (regexp.Plus regexp.AnyButNewline)) T1)))
    by reflexivity.
  rewrite E. clear E. cbn [derives]. split.
  - intros (x1 & x2 & c1 & c2 & -> & -> & Dp
            & x3 & x4 & c3 & c4 & -> & -> & (-> & ->)
            & x5 & x6 & c5 & c6 & -> & -> & (c7 & (Hc & ->) & ->) & D1).
    apply derives_prefix in Dp as [Hp ->].
    apply derives_T1 in D1 as (n & m & -> & -> & Hn & Hm).
    exists x1, x5, n, m. simpl. repeat split; tauto.
  - intros (pre & c & n & m & -> & -> & Hp & Hc & Hn & Hm).
    exists pre, (servicePrefix cfg ++ c ++ "_" ++ n ++ "_" ++ m), [], [c; n; m].
    repeat split; [now apply derives_prefix|].
    exists (servicePrefix cfg), (c ++ "_" ++ n ++ "_" ++ m), [], [c; n; m].
    repeat split.
    exists c, ("_" ++ n ++ "_" ++ m), [c], [n; m]. repeat split.
    + exists []. split; [tauto|reflexivity].
    + apply derives_T1. exists n, m. tauto.
Qed.


Lemma exec_seq_single (r1 r2 : regexp.Regexp) (s s1 : string) :
  regexp.exec r1 s = [([], s1)] ->
  regexp.exec (regexp.Seq r1 r2) s = regexp.exec r2 s1.
Proof.
  intros E. cbn [regexp.exec]. rewrite E. cbn [flat_map fst snd app].
  rewrite app_nil_r. apply map_pair_eta.
Qed.

Lemma class_NotUnderscore_false (a : ascii) :
  regexp.in_class regexp.NotUnderscore a = false -> a = "_"%char.
Proof.
  simpl. intros H. apply negb_false_iff in H. now apply Ascii.eqb_eq in H.
Qed.

(** The first match at a position: its first group is the longest
    possible there, and its last group runs up to the next '_' or to the
    end of the input. *)
Lemma exec_lbNameRegex_head (p : ResourcePrefix) (s' : string)
  (caps : list string) (rest : string) (tl : list (list string * string)) :
  regexp.exec (openstack.lbNameRegex cfg p) s' = (caps, rest) :: tl ->
  (rest = "" \/ exists r, rest = String "_" r)
  /\ forall pre' c' n' m' after',
       s' = pre' ++ servicePrefix cfg ++ c' ++ "_" ++ n' ++ "_" ++ m' ++ after' ->
       prefixText p pre' ->
       (c' <> "" /\ all_in regexp.AnyButNewline c') ->
       (n' <> "" /\ all_in regexp.NotUnderscore n') ->
       (m' <> "" /\ all_in regexp.NotUnderscore m') ->
       exists c capsT, caps = c :: capsT /\ String.length c' <= String.length c.
Proof.
  assert (E : openstack.lbNameRegex cfg p
              = regexp.Seq (resourcePrefixRegexp p)
                  (regexp.Seq (regexp.Lit (servicePrefix cfg))
                     (regexp.Seq
                        (regexp.Group (regexp.Plus regexp.AnyButNewline)) T1)))
    by reflexivity.
  rewrite E. clear E. intros H.
  destruct (prefix_once p s') as [P|[s1 P]].
  { cbn [regexp.exec] in H. rewrite P in H. discriminate. }
  rewrite (exec_seq_single _ _ _ _ P) in H.
  rewrite exec_seq_lit in H.
  destruct (strings.HasPrefix s1 (servicePrefix cfg)) eqn:HP; [|discriminate].
  apply HasPrefix_iff in HP as [s2 Hs2].
  assert (D : strings.drop (String.length (servicePrefix cfg)) s1 = s2)
    by (rewrite Hs2; apply drop_append).
  rewrite D in H. clear D.
  rewrite exec_seq_group_plus in H.
  assert (Hh : hd_error
                 (flat_map
                    (fun rest0 =>
                       map (fun m =>
                              (strings.take (String.length s2 - String.length rest0) s2
                                 :: fst m, snd m))
                           (regexp.exec T1 rest0))
                    (regexp.plus regexp.AnyButNewline s2)) = Some (caps, rest))
    by (rewrite H; reflexivity).
  apply plus_first in Hh as (x & rest3 & Ex & Nx & Ax & Hf & Hmax).
  apply hd_error_map in Hf as ([caps2 rest'] & Hh1 & Ecaps).
  simpl in Ecaps. injection Ecaps as -> <-.
  split.
  - (* the last group is maximal *)
    unfold T1 in Hh1. rewrite exec_seq_lit in Hh1.
    destruct (strings.HasPrefix rest3 "_"); [|discriminate].
    rewrite exec_seq_group_plus in Hh1.
    apply plus_first in Hh1 as (x4 & rest5 & _ & _ & _ & Hf & _).
    apply hd_error_map in Hf as ([caps5 rest6] & Hh2 & Ecaps).
    simpl in Ecaps. injection Ecaps as _ <-.
    unfold T3 in Hh2. rewrite exec_seq_lit in Hh2.
    destruct (strings.HasPrefix rest5 "_"); [|discriminate].
    rewrite exec_group_plus in Hh2.
    apply hd_error_map in Hh2 as (rest7 & Hh3 & Ecaps).
    injection Ecaps as _ ->.
    apply plus_head_maximal in Hh3 as [->|(a & r & -> & Ca)]; [now left|].
    right. exists r. f_equal. now apply class_NotUnderscore_false.
  - (* the first group is the longest *)
    intros pre' c' n' m' after' Es' Hp Hc Hn Hm.
    assert (I : In ([], servicePrefix cfg ++ c' ++ "_" ++ n' ++ "_" ++ m' ++ after')
                   (regexp.exec (resourcePrefixRegexp p) s')).
    { apply exec_iff. exists pre'. split; [exact Es'|]. now apply derives_prefix. }
    rewrite P in I. destruct I as [I|[]]. injection I as I.
    rewrite I in Hs2. clear I.
    assert (Es2 : s2 = c' ++ "_" ++ n' ++ "_" ++ m' ++ after').
    { clear - Hs2. induction (servicePrefix cfg) as [|a sp IH];
        simpl in Hs2; [now symmetry|]. injection Hs2 as Hs2. auto. }
    eexists _, _. split; [reflexivity|].
    rewrite Ex at 1. rewrite length_append.
    replace (String.length x + String.length rest3 - String.length rest3)
      with (String.length x) by lia.
    assert (Tk : strings.take (String.length x) s2 = x)
      by (rewrite Ex; apply take_append).
    rewrite Tk.
    apply (Hmax c' ("_" ++ n' ++ "_" ++ m' ++ after')); try tauto.
    assert (I : In ([n'; m'], after')
                   (regexp.exec T1 ("_" ++ n' ++ "_" ++ m' ++ after'))).
    { apply exec_iff. exists ("_" ++ n' ++ "_" ++ m'). split.
      - simpl. f_equal. rewrite !append_assoc. reflexivity.
      - apply derives_T1. exists n', m'. tauto. }
    intros Hnil. apply map_eq_nil in Hnil. rewrite Hnil in I. exact I.
Qed.

End Pattern.

Lemma append_inv_head (a b c : string) : a ++ b = a ++ c -> b = c.
Proof. induction a; simpl; intros H; [exact H|]. injection H as H. auto. Qed.

Lemma occurrence_exec (cfg : Prefixes) (p : ResourcePrefix)
  (raw before pre c n m after : string) :
  occurrence cfg p raw before pre c n m after ->
  exists s', raw = before ++ s'
             /\ s' = pre ++ servicePrefix cfg ++ c ++ "_" ++ n ++ "_" ++ m ++ after
             /\ In ([c; n; m], after) (regexp.exec (openstack.lbNameRegex cfg p) s').
Proof.
  intros (E & Hp & Hc & Hn & Hm).
  eexists. split; [exact E|]. split; [reflexivity|].
  apply exec_iff.
  exists (pre ++ servicePrefix cfg ++ c ++ "_" ++ n ++ "_" ++ m). split.
  - rewrite !append_assoc. simpl. rewrite ?append_assoc. reflexivity.
  - apply derives_lbNameRegex. exists pre, c, n, m. tauto.
Qed.

Lemma decomposeLBName_cases (cfg : Prefixes) (p : ResourcePrefix)
  (raw : string) :
  ((forall before pre c n m after,
       ~ occurrence cfg p raw before pre c n m after)
   /\ openstack.decomposeLBName cfg p raw = ("", "", ""))
  \/ (exists before pre c n m after,
        occurrence cfg p raw before pre c n m after
        /\ openstack.decomposeLBName cfg p raw = (c, n, m)
        /\ (forall before' pre' c' n' m' after',
               occurrence cfg p raw before' pre' c' n' m' after' ->
               String.length before <= String.length before')
        /\ (forall pre' c' n' m' after',
               occurrence cfg p raw before pre' c' n' m' after' ->
               String.length c' <= String.length c)
        /\ (after = "" \/ exists r, after = String "_" r)).
Proof.
  unfold openstack.decomposeLBName.
  destruct (regexp.FindStringSubmatch (openstack.lbNameRegex cfg p) raw)
    as [caps|] eqn:F.
  - right.
    apply FindStringSubmatch_some in F
      as (before & s' & rest & tl & Eraw & Ex & Hmin).
    assert (I : In (caps, rest) (regexp.exec (openstack.lbNameRegex cfg p) s'))
      by (rewrite Ex; now left).
    apply exec_iff in I as (x & Es' & D).
    apply derives_lbNameRegex in D as (pre & c & n & m & -> & -> & Hp & Hc & Hn & Hm).
    assert (Es2 : s' = pre ++ servicePrefix cfg ++ c ++ "_" ++ n ++ "_" ++ m ++ rest).
    { rewrite Es'. rewrite !append_assoc. simpl. rewrite ?append_assoc. reflexivity. }
    exists before, pre, c, n, m, rest. split; [|split; [reflexivity|split; [|split]]].
    + split; [now rewrite Eraw, Es2|tauto].
    + intros before' pre' c' n' m' after' O.
      destruct (Nat.le_gt_cases (String.length before) (String.length before'))
        as [L|L]; [exact L|exfalso].
      apply occurrence_exec in O as (s1 & E1 & _ & I1).
      rewrite (Hmin before' s1 E1 L) in I1. exact I1.
    + intros pre' c' n' m' after' (E' & Hp' & Hc' & Hn' & Hm').
      rewrite Eraw in E'. apply append_inv_head in E'.
      destruct (exec_lbNameRegex_head cfg p s' _ _ _ Ex) as [_ G].
      destruct (G pre' c' n' m' after' E' Hp' Hc' Hn' Hm') as (c0 & capsT & Ec & L).
      injection Ec as <- _. exact L.
    + destruct (exec_lbNameRegex_head cfg p s' _ _ _ Ex) as [G _]. exact G.
  - left. split; [|reflexivity].
    intros before pre c n m after O.
    apply occurrence_exec in O as (s1 & E1 & _ & I1).
    rewrite (FindStringSubmatch_none _ _ F before s1 E1) in I1. exact I1.
Qed.

(** C7. [decomposeLBName] looks for [resourcePrefix ++ servicePrefix ++
    "(clusterName)_(namespace)_(name)"] in the raw string.  When the
    pattern occurs nowhere, the three results are empty (there is no error
    result).  Otherwise the results are the three fields of the leftmost
    occurrence; among the occurrences at that place [clusterName] is the
    longest one, so it may hold '_', while [namespace] and [name] are
    nonempty and hold no '_', [name] running up to the next '_' or to the
    end of the string. *)
Theorem decomposeLBName_matches (cfg : Prefixes) (p : ResourcePrefix)
  (raw : string) :
  ((forall before pre c n m after,
       ~ occurrence cfg p raw before pre c n m after)
   /\ openstack.decomposeLBName cfg p raw = ("", "", ""))
  \/ (exists before pre c n m after,
        occurrence cfg p raw before pre c n m after
        /\ openstack.decomposeLBName cfg p raw = (c, n, m)
        /\ (forall before' pre' c' n' m' after',
               occurrence cfg p raw before' pre' c' n' m' after' ->
               String.length before <= String.length before')
        /\ (forall pre' c' n' m' after',
               occurrence cfg p raw before pre' c' n' m' after' ->
               String.length c' <= String.length c)
        /\ (after = "" \/ exists r, after = String "_" r)).
Proof. exact (decomposeLBName_cases cfg p raw). Qed.

(** ** Running computations *)

Lemma run_bind {S A B : Type} (h : handler S) (m : prog (result A))
  (f : A -> prog (result B)) (s : S) :
  run h (bind m f) s
  = let '(r, s1, t1) := run h m s in
    match r with
    | inl err => (inl err, s1, t1)
    | inr a => let '(r2, s2, t2) := run h (f a) s1 in (r2, s2, (t1 ++ t2)%list)
    end.
Proof.
  revert s; induction m as [[err|a]|c k IH]; intros s; simpl.
  - reflexivity.
  - destruct (run h (f a) s) as [[r2 s2] t2]. reflexivity.
  - destruct (h c s) as [a s1]. rewrite IH.
    destruct (run h (k a) s1) as [[[err|x] s2] t1]; [reflexivity|].
    destruct (run h (f x) s2) as [[r2 s3] t2]. reflexivity.
Qed.

Lemma run_perform {S : Type} (h : handler S) (c : call) (s : S) :
  run h (perform c) s = (fst (h c s), snd (h c s), [Ev c (fst (h c s))]).
Proof. unfold perform. simpl. destruct (h c s). reflexivity. Qed.

Lemma run_ret {S A : Type} (h : handler S) (a : A) (s : S) :
  run h (ret a) s = (inr a, s, []).
Proof. reflexivity. Qed.

Lemma run_renameLoadBalancer {S : Type} (h : handler S) (cfg : Prefixes)
  (lb : loadbalancers.LoadBalancer) (lbName cn : string) (s : S) :
  run h (openstack.renameLoadBalancer cfg lb lbName cn) s
  = let '(a, s1) := h (GetListenersByLoadBalancerID (loadbalancers.ID lb)) s in
    match a with
    | inl err =>
        (inl err, s1,
         [Ev (GetListenersByLoadBalancerID (loadbalancers.ID lb)) (inl err)])
    | inr ls =>
        let '(r, s2, t) :=
          run h (openstack.renameListed cfg lb lbName cn ls) s1 in
        (r, s2,
         Ev (GetListenersByLoadBalancerID (loadbalancers.ID lb)) (inr ls) :: t)
    end.
Proof.
  unfold openstack.renameLoadBalancer. rewrite run_bind.
  unfold perform. cbn [run].
  destruct (h (GetListenersByLoadBalancerID (loadbalancers.ID lb)) s)
    as [[err|ls] s1]; [reflexivity|].
  destruct (run h (openstack.renameListed cfg lb lbName cn ls) s1)
    as [[r s2] t].
  reflexivity.
Qed.

(** The guarded call adds no call of its own. *)
Lemma run_migrate {S : Type} (h : handler S) (cfg : Prefixes)
  (lb : loadbalancers.LoadBalancer) (lbName cn : string) (s : S) :
  run h (openstack.migrate cfg lb lbName cn) s
  = if openstack.lbHasOldClusterName cfg lb cn
    then run h (openstack.renameLoadBalancer cfg lb lbName cn) s
    else (inr lb, s, []).
Proof.
  unfold openstack.migrate.
  destruct (openstack.lbHasOldClusterName cfg lb cn); reflexivity.
Qed.

Lemma run_renameListed {S : Type} (h : handler S) (cfg : Prefixes)
  (lb : loadbalancers.LoadBalancer) (lbName cn : string)
  (ls : list listeners.Listener) (s : S) :
  run h (openstack.renameListed cfg lb lbName cn ls) s
  = let '(r, s1, t) :=
      run h (forEach ls (openstack.renameListener cfg lb cn)) s in
    match r with
    | inl err => (inl err, s1, t)
    | inr _ =>
        let c := UpdateLoadBalancer
                   (loadbalancers.ID lb) lbName
                   (map (openstack.renameTag cfg cn) (loadbalancers.Tags lb)) in
        let '(a, s2) := h c s1 in
        (a, s2, (t ++ [Ev c a])%list)
    end.
Proof.
  unfold openstack.renameListed. rewrite run_bind.
  destruct (run h (forEach ls (openstack.renameListener cfg lb cn)) s)
    as [[[err|x] s1] t]; [reflexivity|].
  unfold perform. cbn [run]. cbv zeta.
  destruct (h (UpdateLoadBalancer (loadbalancers.ID lb) lbName
                 (map (openstack.renameTag cfg cn) (loadbalancers.Tags lb))) s1)
    as [a s2].
  reflexivity.
Qed.

(** ** Call sequences *)

Lemma chain_cons (e : event) (t : list event) :
  chain (e :: t) = true
  <-> chain t = true /\ match t with [] => True | e2 :: _ => next_ok e e2 = true end.
Proof.
  destruct t as [|e2 t]; simpl.
  - tauto.
  - rewrite andb_true_iff. tauto.
Qed.

Lemma chain_app (t1 t2 : list event) :
  chain (t1 ++ t2)%list = true
  <-> chain t1 = true /\ chain t2 = true
      /\ forall t0 e1 e2 t3, t1 = (t0 ++ [e1])%list -> t2 = e2 :: t3 ->
                             next_ok e1 e2 = true.
Proof.
  induction t1 as [|e t1 IH].
  - simpl. split.
    + intros H. repeat split; auto. intros t0 e1 e2 t3 E. destruct t0; discriminate.
    + tauto.
  - change ((e :: t1) ++ t2)%list with (e :: (t1 ++ t2))%list.
    rewrite !chain_cons, IH. split.
    + intros ((C1 & C2 & B) & N). repeat split; auto.
      * destruct t1; [exact I|exact N].
      * intros t0 e1 e2 t3 E1 E2. destruct t0 as [|e0 t0].
        -- simpl in E1. injection E1 as -> ->. subst t2. exact N.
        -- simpl in E1. injection E1 as -> ->. now apply (B t0 e1 e2 t3).
    + intros ((C1 & N) & C2 & B). repeat split; auto.
      * intros t0 e1 e2 t3 E1 E2. apply (B (e :: t0) e1 e2 t3); [|exact E2].
        simpl. now f_equal.
      * destruct t1 as [|e1 t1]; [|exact N].
        simpl. destruct t2 as [|e2 t2]; [exact I|].
        now apply (B [] e e2 t2).
Qed.

Lemma chain_adjacent (t t1 t2 : list event) (e1 e2 : event) :
  chain t = true -> t = (t1 ++ e1 :: e2 :: t2)%list -> next_ok e1 e2 = true.
Proof.
  intros C ->. apply chain_app in C as (_ & C & _).
  now apply chain_cons in C as [_ N].
Qed.

(** ** The calls made for one listener *)

(** Case analysis on everything a run depends on: the tests of the code
    and the answers of the service. *)
Ltac explore h :=
  repeat first
    [ rewrite run_bind
    | progress (unfold perform, ret; cbn [run fst snd app])
    | match goal with
      | |- context [h ?c ?s] =>
          let a := fresh "a" in let e := fresh "err" in let s' := fresh "s" in
          destruct (h c s) as [[e|a] s']
      | |- context [if ?b then _ else _] => destruct b eqn:?
      | |- context [openstack.decomposeLBName ?a ?b ?c] =>
          destruct (openstack.decomposeLBName a b c) as [[? ?] ?] eqn:?
      end ].

Ltac split_last :=
  first [ eexists [], _; split; [reflexivity|]
        | eexists [_], _; split; [reflexivity|]
        | eexists [_; _], _; split; [reflexivity|]
        | eexists [_; _; _], _; split; [reflexivity|]
        | eexists [_; _; _; _], _; split; [reflexivity|] ].

Section ListenerRuns.
Context (cfg : Prefixes) {S : Type} (h : handler S).

Lemma renameListener_shape (lb : loadbalancers.LoadBalancer) (cn : string)
  (l : listeners.Listener) (s : S) :
  let '(r, _, t) := run h (openstack.renameListener cfg lb cn l) s in
  chain t = true /\ seg_first t /\ seg_last r t KUpdateListener.
Proof.
  unfold openstack.renameListener.
  explore h.
  all: split; [reflexivity|split; [reflexivity|]].
  all: cbn [seg_last];
    first [ now left
          | right; split_last; split; reflexivity
          | split_last; reflexivity ].
Qed.

Lemma forEach_shape (lb : loadbalancers.LoadBalancer) (cn : string)
  (ls : list listeners.Listener) (s : S) :
  let '(r, _, t) :=
    run h (forEach ls (openstack.renameListener cfg lb cn)) s in
  chain t = true /\ seg_first t /\ seg_last r t KUpdateListener.
Proof.
  revert s; induction ls as [|l ls IH]; intros s.
  - cbn. auto.
  - cbn [forEach]. rewrite run_bind.
    pose proof (renameListener_shape lb cn l s) as Hl.
    destruct (run h (openstack.renameListener cfg lb cn l) s) as [[[err|[]] s1] t1].
    + exact Hl.
    + specialize (IH s1).
      destruct (run h (forEach ls (openstack.renameListener cfg lb cn)) s1)
        as [[r2 s2] t2].
      destruct Hl as (C1 & F1 & L1). destruct IH as (C2 & F2 & L2).
      split; [|split].
      * apply chain_app. split; [exact C1|]. split; [exact C2|].
        intros t0 e1 e2 t3 E1 E2. subst t2.
        destruct L1 as [->|(t0' & e & E & K & Fl)].
        -- destruct t0; discriminate.
        -- rewrite E1 in E. apply app_inj_tail in E as [_ ->].
           unfold next_ok. rewrite Fl, K. cbn in F2. rewrite F2. reflexivity.
      * destruct t1 as [|e1 t1]; [exact F2|exact F1].
      * destruct r2 as [err|x]; cbn [seg_last] in *.
        -- destruct L2 as (t0 & e & -> & Ee). exists (t1 ++ t0)%list, e.
           split; [now rewrite app_assoc|exact Ee].
        -- destruct L2 as [->|(t0 & e & -> & K & Fl)].
           ++ rewrite app_nil_r. exact L1.
           ++ right. exists (t1 ++ t0)%list, e.
              split; [now rewrite app_assoc|]. now split.
Qed.

(** The calls of one invocation, in order: listing, then for each
    listener its segment, then the update of the load balancer; a failed
    call ends the sequence. *)
Lemma renameLoadBalancer_shape (lb : loadbalancers.LoadBalancer)
  (lbName cn : string) (s : S) :
  let '(r, _, t) := run h (openstack.renameLoadBalancer cfg lb lbName cn) s in
  chain t = true /\ seg_last r t KUpdateLoadBalancer.
Proof.
  unfold openstack.renameLoadBalancer, openstack.renameListed.
  rewrite run_bind. unfold perform at 1. cbn [run].
  destruct (h (GetListenersByLoadBalancerID (loadbalancers.ID lb)) s)
    as [[err|ls] s1].
  - split; [reflexivity|]. cbn.
    now exists [], (Ev (GetListenersByLoadBalancerID (loadbalancers.ID lb)) (inl err)).
  - rewrite run_bind.
    pose proof (forEach_shape lb cn ls s1) as Hl.
    destruct (run h (forEach ls (openstack.renameListener cfg lb cn)) s1)
      as [[[err|[]] s2] t2].
    + destruct Hl as (C & F & (t0 & e & -> & Ee)).
      split.
      * cbn [app]. apply chain_cons. split; [exact C|].
        destruct (t0 ++ [e])%list as [|e2 t3] eqn:E; [exact I|].
        cbn in F. unfold next_ok. cbn. now rewrite F.
      * cbn. exists (Ev (GetListenersByLoadBalancerID (loadbalancers.ID lb)) (inr ls) :: t0), e.
        now split.
    + unfold perform. cbn [run].
      destruct (h (UpdateLoadBalancer (loadbalancers.ID lb) lbName
                     (map (openstack.renameTag cfg cn) (loadbalancers.Tags lb))) s2)
        as [a s3].
      destruct Hl as (C & F & L).
      split.
      * cbn [app]. apply chain_cons. split.
        -- apply chain_app. split; [exact C|]. split; [reflexivity|].
           intros t0 e1 e2 t3 E1 E2. injection E2 as <- <-.
           destruct L as [->|(t0' & e & E & K & Fl)].
           ++ destruct t0; discriminate.
           ++ rewrite E1 in E. apply app_inj_tail in E as [_ ->].
              unfold next_ok. rewrite Fl, K. reflexivity.
        -- destruct t2 as [|e2 t2]; cbn [app].
           ++ reflexivity.
           ++ cbn in F. unfold next_ok. cbn. now rewrite F.
      * destruct a as [err|lb']; cbn [seg_last].
        -- eexists (_ :: t2), _. split; [reflexivity|reflexivity].
        -- right. eexists (_ :: t2), _. split; [reflexivity|]. now split.
Qed.

End ListenerRuns.

(** ** Order of the calls and failures *)

Lemma next_ok_level (e1 e2 : event) :
  next_ok e1 e2 = true -> level e1 < level e2 \/ ev_kind e2 = KGetPool.
Proof.
  unfold next_ok, level. intros H. apply andb_true_iff in H as [_ H].
  destruct (ev_kind e1), (ev_kind e2); try discriminate; auto; left; lia.
Qed.

Lemma next_ok_not_failed (e1 e2 : event) :
  next_ok e1 e2 = true -> ev_error e1 = None.
Proof.
  unfold next_ok, failed. intros H. apply andb_true_iff in H as [H _].
  destruct (ev_error e1); [discriminate|reflexivity].
Qed.

Lemma update_level_level (e : event) (r : nat) :
  update_level e = Some r -> level e = r + 3.
Proof.
  unfold update_level, level. destruct (ev_kind e); intros H;
    try discriminate; injection H as <-; reflexivity.
Qed.

Lemma chain_same_segment (t : list event) (mid : list event) :
  chain t = true ->
  forall t1 e1 e2 t2,
    t = (t1 ++ e1 :: mid ++ e2 :: t2)%list ->
    (forall e, In e (mid ++ [e2])%list -> ev_kind e <> KGetPool) ->
    level e1 < level e2.
Proof.
  intros C. induction mid as [|e mid IH]; intros t1 e1 e2 t2 E N.
  - simpl in E. apply (chain_adjacent _ _ _ _ _ C) in E.
    apply next_ok_level in E as [L|K]; [exact L|].
    exfalso. apply (N e2); [now left|exact K].
  - assert (L1 : level e1 < level e).
    { simpl in E. apply (chain_adjacent _ _ _ _ _ C) in E.
      apply next_ok_level in E as [L|K]; [exact L|].
      exfalso. apply (N e); [now left|exact K]. }
    assert (L2 : level e < level e2).
    { apply (IH (t1 ++ [e1])%list e e2 t2).
      - rewrite E. rewrite <- app_assoc. reflexivity.
      - intros e' I. apply N. now right. }
    lia.
Qed.

Lemma last_unique {A : Type} (t1 t2 : list A) (e1 e2 : A) :
  (t1 ++ [e1])%list = (t2 ++ [e2])%list -> e1 = e2.
Proof. intros E. now apply app_inj_tail in E as [_ E]. Qed.

(** C8. Whatever the service answers, a call of [renameLoadBalancer] that
    returns an error is the last call it makes (no further call, so no
    update that would undo an earlier one), and the function returns
    that very error; an error result always comes from the last call. *)
Theorem accessor_failure_aborts (cfg : Prefixes) (S : Type) (h : handler S)
  (lb : loadbalancers.LoadBalancer) (lbName cn : string) (s : S) :
  let '(r, _, t) := run h (openstack.renameLoadBalancer cfg lb lbName cn) s in
  (forall t1 e t2 err,
      t = (t1 ++ e :: t2)%list -> ev_error e = Some err ->
      t2 = [] /\ r = inl err)
  /\ (forall err, r = inl err ->
        exists t0 e, t = (t0 ++ [e])%list /\ ev_error e = Some err).
Proof.
  pose proof (renameLoadBalancer_shape cfg h lb lbName cn s) as H.
  destruct (run h (openstack.renameLoadBalancer cfg lb lbName cn) s)
    as [[r s'] t].
  destruct H as [C L]. split.
  - intros t1 e t2 err E Ee.
    assert (E2 : t2 = []).
    { destruct t2 as [|e2 t2]; [reflexivity|].
      apply (chain_adjacent _ _ _ _ _ C) in E.
      apply next_ok_not_failed in E. congruence. }
    split; [exact E2|]. subst t2.
    destruct r as [err'|lb']; cbn [seg_last] in L.
    + destruct L as (t0 & e' & E' & Ee'). rewrite E in E'.
      apply last_unique in E'. subst e'. congruence.
    + destruct L as [->|(t0 & e' & E' & _ & Fl)].
      * destruct t1; discriminate.
      * rewrite E in E'. apply last_unique in E'. subst e'.
        unfold failed in Fl. rewrite Ee in Fl. discriminate.
  - intros err ->. exact L.
Qed.

(** C2. In the calls of one invocation: of two updates made while working
    on the same listener (no [GetPoolByListener] after the first up to
    the second), the earlier one writes the lower level (monitor, then
    pool, then listener, then load balancer); the update of the load
    balancer is the last call of all; a successful update of a monitor is
    directly followed by the update of the pool, and a successful update
    of a pool by the update of the listener. *)
Theorem updates_bottom_up (cfg : Prefixes) (S : Type) (h : handler S)
  (lb : loadbalancers.LoadBalancer) (lbName cn : string) (s : S) :
  let t := snd (run h (openstack.renameLoadBalancer cfg lb lbName cn) s) in
  (forall t1 e1 mid e2 t2 l1 l2,
      t = (t1 ++ e1 :: mid ++ e2 :: t2)%list ->
      (forall e, In e (mid ++ [e2])%list -> ev_kind e <> KGetPool) ->
      update_level e1 = Some l1 -> update_level e2 = Some l2 ->
      l1 < l2)
  /\ (forall t1 e t2,
         t = (t1 ++ e :: t2)%list -> ev_kind e = KUpdateLoadBalancer ->
         t2 = [])
  /\ (forall t1 e t2,
         t = (t1 ++ e :: t2)%list -> ev_error e = None ->
         (ev_kind e = KUpdateMonitor ->
          exists e' t3, t2 = e' :: t3 /\ ev_kind e' = KUpdatePool)
         /\ (ev_kind e = KUpdatePool ->
             exists e' t3, t2 = e' :: t3 /\ ev_kind e' = KUpdateListener)).
Proof.
  pose proof (renameLoadBalancer_shape cfg h lb lbName cn s) as H.
  destruct (run h (openstack.renameLoadBalancer cfg lb lbName cn) s)
    as [[r s'] t].
  destruct H as [C L]. cbn [snd]. split; [|split].
  - intros t1 e1 mid e2 t2 l1 l2 E N U1 U2.
    pose proof (chain_same_segment t mid C t1 e1 e2 t2 E N) as Lt.
    apply update_level_level in U1, U2. lia.
  - intros t1 e t2 E K. destruct t2 as [|e2 t2]; [reflexivity|].
    apply (chain_adjacent _ _ _ _ _ C) in E.
    unfold next_ok in E. rewrite K in E.
    rewrite andb_false_r in E. discriminate.
  - intros t1 e t2 E Ok.
    assert (Next : ev_kind e <> KUpdateLoadBalancer ->
                   exists e' t3, t2 = e' :: t3 /\ next_ok e e' = true).
    { intros K. destruct t2 as [|e2 t2].
      - exfalso. destruct r as [err|lb']; cbn [seg_last] in L.
        + destruct L as (t0 & e' & E' & Ee'). rewrite E in E'.
          apply last_unique in E'. subst e'. congruence.
        + destruct L as [->|(t0 & e' & E' & K' & _)].
          * destruct t1; discriminate.
          * rewrite E in E'. apply last_unique in E'. subst e'. congruence.
      - exists e2, t2. split; [reflexivity|].
        now apply (chain_adjacent _ _ _ _ _ C) in E. }
    split; intros K.
    + destruct Next as (e' & t3 & -> & N); [rewrite K; discriminate|].
      exists e', t3. split; [reflexivity|].
      unfold next_ok in N. rewrite K in N.
      apply andb_true_iff in N as [_ N]. destruct (ev_kind e'); try discriminate.
      reflexivity.
    + destruct Next as (e' & t3 & -> & N); [rewrite K; discriminate|].
      exists e', t3. split; [reflexivity|].
      unfold next_ok in N. rewrite K in N.
      apply andb_true_iff in N as [_ N]. destruct (ev_kind e'); try discriminate.
      reflexivity.
Qed.

(** ** Resources that are not ours *)

(** C4. A load balancer whose name does not start with the service prefix
    is not migrated: the guard [lbHasOldClusterName] is false, the
    migration makes no call to the service (so no update), and it returns
    the load balancer it was given, without error. *)
Theorem unmanaged_loadbalancer_untouched (cfg : Prefixes)
  (lb : loadbalancers.LoadBalancer) (lbName cn : string)
  (H : strings.HasPrefix (loadbalancers.Name lb) (servicePrefix cfg) = false) :
  openstack.lbHasOldClusterName cfg lb cn = false
  /\ openstack.migrate cfg lb lbName cn = ret lb
  /\ forall (S : Type) (h : handler S) (s : S),
       run h (openstack.migrate cfg lb lbName cn) s = (inr lb, s, []).
Proof.
  assert (G : openstack.lbHasOldClusterName cfg lb cn = false)
    by (unfold openstack.lbHasOldClusterName; now rewrite H).
  split; [exact G|].
  unfold openstack.migrate. rewrite G. split; [reflexivity|].
  intros S h s. reflexivity.
Qed.

Lemma unmanaged_loadbalancer_untouched_witness :
  let lb := {| loadbalancers.ID := "lb1";
               loadbalancers.Name := "octavia-lb-web";
               loadbalancers.Tags := ["kube_service_clusterA_ns1_svc1"] |} in
  strings.HasPrefix (loadbalancers.Name lb) (servicePrefix upstream) = false
  /\ openstack.migrate upstream lb "kube_service_clusterB_ns1_svc1" "clusterB"
     = ret lb.
Proof.
  intros lb. split; [reflexivity|].
  apply (unmanaged_loadbalancer_untouched upstream lb
           "kube_service_clusterB_ns1_svc1" "clusterB").
  reflexivity.
Defined.

Lemma forEach_skip {A : Type} (body : A -> prog (result unit)) (x : A)
  (xs1 xs2 : list A) :
  body x = ret tt ->
  forEach (xs1 ++ x :: xs2) body = forEach (xs1 ++ xs2) body.
Proof.
  intros H. induction xs1 as [|y xs1 IH]; cbn [forEach app].
  - rewrite H. reflexivity.
  - rewrite IH. reflexivity.
Qed.

(** ** Tags *)

Lemma decoded_is_substring (cfg : Prefixes) (p : ResourcePrefix)
  (name : string) :
  decodedClusterName cfg p name <> "" ->
  exists a b, name = a ++ decodedClusterName cfg p name ++ b.
Proof.
  unfold decodedClusterName.
  destruct (decomposeLBName_cases cfg p name)
    as [[_ E]|(before & pre & c & n & m & after & O & E & _)];
    rewrite E; cbn [fst].
  - intros N. now elim N.
  - intros _. destruct O as (Er & _).
    exists (before ++ pre ++ servicePrefix cfg), ("_" ++ n ++ "_" ++ m ++ after).
    rewrite Er. rewrite !append_assoc. reflexivity.
Qed.

Lemma renameTag_cases (cfg : Prefixes) (cn tag : string) :
  (decodedClusterName cfg NoPrefix tag = ""
   \/ decodedClusterName cfg NoPrefix tag = cn ->
   openstack.renameTag cfg cn tag = tag)
  /\ (decodedClusterName cfg NoPrefix tag <> "" ->
      decodedClusterName cfg NoPrefix tag <> cn ->
      openstack.renameTag cfg cn tag
      = openstack.replaceClusterName
          (decodedClusterName cfg NoPrefix tag) cn tag).
Proof.
  unfold openstack.renameTag, decodedClusterName.
  destruct (openstack.decomposeLBName cfg NoPrefix tag) as [[old n] m].
  cbn [fst].
  destruct (String.eqb_spec old ""), (String.eqb_spec old cn); cbn;
    split; intros; try tauto; congruence.
Qed.

Section TagRuns.
Context (cfg : Prefixes) {S : Type} (h : handler S).

Lemma renameListener_tags (lb : loadbalancers.LoadBalancer) (cn : string)
  (l : listeners.Listener) (s : S) :
  Forall (fun e => carries_renamed_tags cfg cn lb [l] e
                   /\ ev_kind e <> KUpdateLoadBalancer)
         (snd (run h (openstack.renameListener cfg lb cn l) s)).
Proof.
  unfold openstack.renameListener.
  explore h.
  all: repeat constructor; try discriminate.
  all: exists l; repeat split; now left.
Qed.

Lemma carries_renamed_tags_incl (lb : loadbalancers.LoadBalancer)
  (cn : string) (ls ls' : list listeners.Listener) (e : event) :
  incl ls ls' ->
  carries_renamed_tags cfg cn lb ls e -> carries_renamed_tags cfg cn lb ls' e.
Proof.
  unfold carries_renamed_tags. intros I.
  destruct (ev_call e); auto.
  intros (l & Il & H). exists l. split; [now apply I|exact H].
Qed.

Lemma forEach_tags (lb : loadbalancers.LoadBalancer) (cn : string)
  (ls : list listeners.Listener) (s : S) :
  Forall (fun e => carries_renamed_tags cfg cn lb ls e
                   /\ ev_kind e <> KUpdateLoadBalancer)
         (snd (run h (forEach ls (openstack.renameListener cfg lb cn)) s)).
Proof.
  revert s; induction ls as [|l ls IH]; intros s.
  - constructor.
  - cbn [forEach]. rewrite run_bind.
    pose proof (renameListener_tags lb cn l s) as Hl.
    destruct (run h (openstack.renameListener cfg lb cn l) s)
      as [[[err|[]] s1] t1]; cbn [snd] in Hl.
    + cbn [snd]. eapply Forall_impl; [|exact Hl].
      intros e [H1 H2]. split; [|exact H2].
      eapply carries_renamed_tags_incl; [|exact H1].
      intros x [<-|[]]. now left.
    + specialize (IH s1).
      destruct (run h (forEach ls (openstack.renameListener cfg lb cn)) s1)
        as [[r2 s2] t2]. cbn [snd] in *.
      apply Forall_app. split.
      * eapply Forall_impl; [|exact Hl].
        intros e [H1 H2]. split; [|exact H2].
        eapply carries_renamed_tags_incl; [|exact H1].
        intros x [<-|[]]. now left.
      * eapply Forall_impl; [|exact IH].
        intros e [H1 H2]. split; [|exact H2].
        eapply carries_renamed_tags_incl; [|exact H1].
        intros x Hx. now right.
Qed.

Lemma renameLoadBalancer_tags (lb : loadbalancers.LoadBalancer)
  (lbName cn : string) (s : S) :
  let t := snd (run h (openstack.renameLoadBalancer cfg lb lbName cn) s) in
  Forall (carries_renamed_tags cfg cn lb (flat_map listed t)) t.
Proof.
  cbv zeta. rewrite run_renameLoadBalancer.
  destruct (h (GetListenersByLoadBalancerID (loadbalancers.ID lb)) s)
    as [[err|ls] s1].
  - cbn [snd]. constructor; [exact I|constructor].
  - rewrite run_renameListed.
    pose proof (forEach_tags lb cn ls s1) as Hl.
    destruct (run h (forEach ls (openstack.renameListener cfg lb cn)) s1)
      as [[[err|[]] s2] t2]; cbn [snd] in Hl.
    + cbn [snd app flat_map listed]. constructor; [exact I|].
      eapply Forall_impl; [|exact Hl].
      intros e [H1 _]. eapply carries_renamed_tags_incl; [|exact H1].
      intros x Hx. apply in_or_app. now left.
    + cbv zeta.
      destruct (h (UpdateLoadBalancer (loadbalancers.ID lb) lbName
                     (map (openstack.renameTag cfg cn) (loadbalancers.Tags lb))) s2)
        as [a s3].
      cbn [snd app flat_map listed]. constructor; [exact I|].
      apply Forall_app. split.
      * eapply Forall_impl; [|exact Hl].
        intros e [H1 _]. eapply carries_renamed_tags_incl; [|exact H1].
        intros x Hx. apply in_or_app. now left.
      * constructor; [reflexivity|constructor].
Qed.

End TagRuns.

(** C6. The tags an update carries are the tags of the listener (one the
    service listed) or of the load balancer, each put through the loop
    body [renameTag].  That body leaves a tag as it is when the pattern
    does not occur in it, and when the cluster name read off it is the
    target; otherwise it replaces the leftmost occurrence of that cluster
    name in the tag by the target and keeps what stands before and after
    it. *)
Theorem tags_rewritten_in_place (cfg : Prefixes) (cn : string) :
  (forall tag,
      let old := decodedClusterName cfg NoPrefix tag in
      ((forall before pre c n m after,
           ~ occurrence cfg NoPrefix tag before pre c n m after) ->
       openstack.renameTag cfg cn tag = tag)
      /\ (old = cn -> openstack.renameTag cfg cn tag = tag)
      /\ (old <> "" -> old <> cn ->
          exists a b,
            tag = a ++ old ++ b
            /\ openstack.renameTag cfg cn tag = a ++ cn ++ b
            /\ no_occurrence_before old tag (String.length a)))
  /\ (forall (S : Type) (h : handler S) (s : S)
             (lb : loadbalancers.LoadBalancer) (lbName : string),
         let t := snd (run h (openstack.renameLoadBalancer cfg lb lbName cn) s) in
         forall e, In e t ->
                   carries_renamed_tags cfg cn lb (flat_map listed t) e).
Proof.
  split.
  - intros tag old.
    destruct (renameTag_cases cfg cn tag) as [Keep Rewrite].
    split; [|split].
    + intros No. apply Keep. left. unfold decodedClusterName.
      destruct (decomposeLBName_cases cfg NoPrefix tag)
        as [[_ E]|(before & pre & c & n & m & after & O & _)].
      * now rewrite E.
      * now elim (No _ _ _ _ _ _ O).
    + intros E. apply Keep. now right.
    + intros N1 N2. rewrite (Rewrite N1 N2).
      unfold openstack.replaceClusterName.
      apply Replace1_occurs. now apply decoded_is_substring.
  - intros S h s lb lbName t e I.
    pose proof (renameLoadBalancer_tags cfg h lb lbName cn s) as F.
    rewrite Forall_forall in F. now apply F.
Qed.

(** ** One listener: which identity its new name is computed from *)

Ltac in_cases I :=
  repeat (destruct I as [<-|I]); [..|contradiction].

(** C9. For a listener that carries the listener prefix and a cluster name
    other than the target, once the service has returned its pool: every
    update of the listener that is issued carries the listener's name
    with the leftmost occurrence of the cluster name read off the POOL's
    name replaced by the target (the name as it was when that cluster
    name does not occur in it), together with the listener's tags put
    through [renameTag]; when processing the listener succeeds that update
    is its last call; and when the pool's name already reads the target,
    the update carries the listener's name as it was. *)
Theorem listener_renamed_by_pool_identity (cfg : Prefixes) (S : Type)
  (h : handler S) (s s1 : S) (lb : loadbalancers.LoadBalancer) (cn : string)
  (l : listeners.Listener) (p : pools.Pool)
  (Managed : strings.HasPrefix (listeners.Name l) (listenerPrefix cfg) = true)
  (Stale : decodedClusterName cfg (Numbered (listenerPrefix cfg))
             (listeners.Name l) <> cn)
  (Pool : h (GetPoolByListener (loadbalancers.ID lb) (listeners.ID l)) s
          = (inr p, s1)) :
  let old := decodedClusterName cfg (Numbered (poolPrefix cfg)) (pools.Name p) in
  let update :=
    UpdateListener (loadbalancers.ID lb) (listeners.ID l)
      (openstack.replaceClusterName old cn (listeners.Name l))
      (map (openstack.renameTag cfg cn) (listeners.Tags l)) in
  ((exists a b, listeners.Name l = a ++ old ++ b) ->
   exists a b,
     listeners.Name l = a ++ old ++ b
     /\ openstack.replaceClusterName old cn (listeners.Name l) = a ++ cn ++ b
     /\ no_occurrence_before old (listeners.Name l) (String.length a))
  /\ ((forall a b, listeners.Name l <> a ++ old ++ b) ->
      openstack.replaceClusterName old cn (listeners.Name l) = listeners.Name l)
  /\ let '(r, _, t) := run h (openstack.renameListener cfg lb cn l) s in
     (forall e, In e t -> ev_kind e = KUpdateListener -> ev_call e = update)
     /\ (r = inr tt -> exists t0, t = (t0 ++ [Ev update (inr tt)])%list)
     /\ (old = cn ->
         openstack.replaceClusterName old cn (listeners.Name l)
         = listeners.Name l
         /\ exists a,
              t = [Ev (GetPoolByListener (loadbalancers.ID lb) (listeners.ID l))
                      (inr p);
                   Ev update a]).
Proof.
  cbv zeta.
  split; [apply Replace1_occurs|]. split; [apply Replace1_absent|].
  unfold openstack.renameListener, decodedClusterName in *.
  rewrite Managed. cbn [negb].
  destruct (openstack.decomposeLBName cfg (Numbered (listenerPrefix cfg))
              (listeners.Name l)) as [[o1 n1] m1].
  cbn [fst] in Stale.
  destruct (String.eqb_spec o1 cn) as [|_]; [contradiction|]. cbn [negb].
  rewrite run_bind. unfold perform at 1. cbn [run]. rewrite Pool.
  destruct (openstack.decomposeLBName cfg (Numbered (poolPrefix cfg))
              (pools.Name p)) as [[old n2] m2].
  cbn [fst].
  destruct (String.eqb_spec old cn) as [E|NE]; cbn [negb].
  - (* the pool already reads the target *)
    explore h.
    all: split; [intros e I K; in_cases I; first [discriminate K|reflexivity]|].
    all: split; [intros R; try discriminate R|].
    all: try (destruct a; now exists [Ev (GetPoolByListener (loadbalancers.ID lb)
                                            (listeners.ID l)) (inr p)]).
    all: intros _; split;
      [unfold openstack.replaceClusterName; rewrite E; apply Replace1_same
      |eexists; reflexivity].
  - explore h.
    all: split; [intros e I K; in_cases I; first [discriminate K|reflexivity]|].
    all: split; [intros R; try discriminate R|intros E; contradiction].
    all: injection R as ->.
    all: eexists; cbn [app];
      first [ instantiate (1 := [_]); reflexivity
            | instantiate (1 := [_; _]); reflexivity
            | instantiate (1 := [_; _; _]); reflexivity
            | instantiate (1 := [_; _; _; _]); reflexivity ].
Qed.

(** ** One listener: when its pool's monitor is looked at *)

Section MonitorRuns.
Context (cfg : Prefixes) {S : Type} (h : handler S).
Context (lb : loadbalancers.LoadBalancer) (cn : string).
Context (l : listeners.Listener) (p : pools.Pool) (s s1 : S).
Context
  (Managed : strings.HasPrefix (listeners.Name l) (listenerPrefix cfg) = true)
  (Stale : decodedClusterName cfg (Numbered (listenerPrefix cfg))
             (listeners.Name l) <> cn)
  (Pool : h (GetPoolByListener (loadbalancers.ID lb) (listeners.ID l)) s
          = (inr p, s1)).

Lemma current_pool_skips_monitor :
  decodedClusterName cfg (Numbered (poolPrefix cfg)) (pools.Name p) = cn ->
  forall e, In e (snd (run h (openstack.renameListener cfg lb cn l) s)) ->
            ev_kind e = KGetPool \/ ev_kind e = KUpdateListener.
Proof.
  unfold openstack.renameListener, decodedClusterName in *.
  rewrite Managed. cbn [negb].
  destruct (openstack.decomposeLBName cfg (Numbered (listenerPrefix cfg))
              (listeners.Name l)) as [[o1 n1] m1].
  cbn [fst] in Stale.
  destruct (String.eqb_spec o1 cn) as [|_]; [contradiction|]. cbn [negb].
  rewrite run_bind. unfold perform at 1. cbn [run]. rewrite Pool.
  destruct (openstack.decomposeLBName cfg (Numbered (poolPrefix cfg))
              (pools.Name p)) as [[old n2] m2].
  cbn [fst]. intros ->. rewrite String.eqb_refl. cbn [negb].
  explore h.
  all: intros e I; in_cases I; auto.
Qed.

Lemma stale_monitor_renamed_first (m : monitors.Monitor) (s2 : S) :
  decodedClusterName cfg (Numbered (poolPrefix cfg)) (pools.Name p) <> cn ->
  pools.MonitorID p <> "" ->
  h (GetHealthMonitor (pools.MonitorID p)) s1 = (inr m, s2) ->
  decodedClusterName cfg (Numbered (monitorPrefix cfg)) (monitors.Name m) <> cn ->
  exists a t',
    snd (run h (openstack.renameListener cfg lb cn l) s)
    = Ev (GetPoolByListener (loadbalancers.ID lb) (listeners.ID l)) (inr p)
      :: Ev (GetHealthMonitor (pools.MonitorID p)) (inr m)
      :: Ev (UpdateHealthMonitor
               (monitors.ID m)
               (openstack.replaceClusterName
                  (decodedClusterName cfg (Numbered (monitorPrefix cfg))
                                      (monitors.Name m))
                  cn (monitors.Name m))
               (loadbalancers.ID lb)) a
      :: t'
    /\ (forall e, In e t' ->
                  ev_kind e = KUpdatePool \/ ev_kind e = KUpdateListener)
    /\ (a = inr tt ->
        exists a' t'',
          t' = Ev (UpdatePool
                     (loadbalancers.ID lb) (pools.ID p)
                     (openstack.replaceClusterName
                        (decodedClusterName cfg (Numbered (poolPrefix cfg))
                                            (pools.Name p))
                        cn (pools.Name p))) a'
               :: t'').
Proof.
  unfold openstack.renameListener, decodedClusterName in *.
  rewrite Managed. cbn [negb].
  destruct (openstack.decomposeLBName cfg (Numbered (listenerPrefix cfg))
              (listeners.Name l)) as [[o1 n1] m1].
  cbn [fst] in Stale.
  destruct (String.eqb_spec o1 cn) as [|_]; [contradiction|]. cbn [negb].
  rewrite run_bind. unfold perform at 1. cbn [run]. rewrite Pool.
  destruct (openstack.decomposeLBName cfg (Numbered (poolPrefix cfg))
              (pools.Name p)) as [[old n2] m2].
  cbn [fst]. intros NE NM Mon.
  destruct (String.eqb_spec old cn) as [|_]; [contradiction|].
  destruct (String.eqb_spec (pools.MonitorID p) "") as [|_]; [contradiction|].
  cbn [negb]. rewrite !run_bind. unfold perform at 1. cbn [run]. rewrite Mon.
  destruct (openstack.decomposeLBName cfg (Numbered (monitorPrefix cfg))
              (monitors.Name m)) as [[om n3] m3].
  cbn [fst]. intros NEm.
  destruct (String.eqb_spec om cn) as [|_]; [contradiction|]. cbn [negb].
  explore h.
  all: eexists _, _; split; [reflexivity|].
  all: split; [intros e I; in_cases I; auto|].
  all: intros R; try discriminate R.
  all: eexists _, _; reflexivity.
Qed.

End MonitorRuns.

(** C1, as the code has it.  For a listener that carries the listener
    prefix and a cluster name other than the target, once the service has
    returned its pool: when the pool's name already reads the target, the
    only calls made for the listener are the lookup of the pool and the
    update of the listener, so the monitor is neither read nor written;
    when the pool's name reads another cluster name and the pool has a
    monitor whose name reads another cluster name than the target, the
    monitor's rewritten name is sent to the service right after the
    monitor was read, before any update of the pool or of the listener,
    and if that update succeeds the update of the pool comes next. *)
Theorem monitor_checked_inside_pool_branch (cfg : Prefixes) (S : Type)
  (h : handler S) (s s1 : S) (lb : loadbalancers.LoadBalancer) (cn : string)
  (l : listeners.Listener) (p : pools.Pool)
  (Managed : strings.HasPrefix (listeners.Name l) (listenerPrefix cfg) = true)
  (Stale : decodedClusterName cfg (Numbered (listenerPrefix cfg))
             (listeners.Name l) <> cn)
  (Pool : h (GetPoolByListener (loadbalancers.ID lb) (listeners.ID l)) s
          = (inr p, s1)) :
  let t := snd (run h (openstack.renameListener cfg lb cn l) s) in
  let oldPool :=
    decodedClusterName cfg (Numbered (poolPrefix cfg)) (pools.Name p) in
  (oldPool = cn ->
   forall e, In e t -> ev_kind e = KGetPool \/ ev_kind e = KUpdateListener)
  /\ (oldPool <> cn -> pools.MonitorID p <> "" ->
      forall (m : monitors.Monitor) (s2 : S),
        h (GetHealthMonitor (pools.MonitorID p)) s1 = (inr m, s2) ->
        let oldMonitor :=
          decodedClusterName cfg (Numbered (monitorPrefix cfg))
                             (monitors.Name m) in
        oldMonitor <> cn ->
        exists a t',
          t = Ev (GetPoolByListener (loadbalancers.ID lb) (listeners.ID l))
                 (inr p)
              :: Ev (GetHealthMonitor (pools.MonitorID p)) (inr m)
              :: Ev (UpdateHealthMonitor
                       (monitors.ID m)
                       (openstack.replaceClusterName oldMonitor cn
                                                     (monitors.Name m))
                       (loadbalancers.ID lb)) a
              :: t'
          /\ (forall e, In e t' ->
                        ev_kind e = KUpdatePool \/ ev_kind e = KUpdateListener)
          /\ (a = inr tt ->
              exists a' t'',
                t' = Ev (UpdatePool
                           (loadbalancers.ID lb) (pools.ID p)
                           (openstack.replaceClusterName oldPool cn
                                                         (pools.Name p))) a'
                     :: t'')).
Proof.
  cbv zeta. split.
  - intros E. now apply (current_pool_skips_monitor cfg h lb cn l p s s1).
  - intros NE NM m s2 Mon NEm.
    now apply (stale_monitor_renamed_first cfg h lb cn l p s s1
                 Managed Stale Pool m s2).
Qed.

Lemma monitor_checked_inside_pool_branch_witness :
  (strings.HasPrefix (listeners.Name scenario.listenerA)
                     (listenerPrefix upstream) = true
   /\ decodedClusterName upstream (Numbered (listenerPrefix upstream))
        (listeners.Name scenario.listenerA) <> "clusterB"
   /\ service.serve (GetPoolByListener "lb1" "l1") scenario.treeA
      = (inr scenario.poolA, scenario.treeA))
  /\ exists a t',
       snd (run service.serve
              (openstack.renameListener upstream scenario.lbA "clusterB"
                                        scenario.listenerA)
              scenario.treeA)
       = Ev (GetPoolByListener "lb1" "l1") (inr scenario.poolA)
         :: Ev (GetHealthMonitor "m1") (inr scenario.monitorA)
         :: Ev (UpdateHealthMonitor
                  "m1" "monitor_0_kube_service_clusterB_ns1_svc1" "lb1") a
         :: t'.
Proof.
  assert (H1 : strings.HasPrefix (listeners.Name scenario.listenerA)
                                 (listenerPrefix upstream) = true)
    by reflexivity.
  assert (H2 : decodedClusterName upstream (Numbered (listenerPrefix upstream))
                 (listeners.Name scenario.listenerA) <> "clusterB")
    by (vm_compute; discriminate).
  assert (H3 : service.serve (GetPoolByListener "lb1" "l1") scenario.treeA
               = (inr scenario.poolA, scenario.treeA))
    by reflexivity.
  split; [now repeat split|].
  destruct (monitor_checked_inside_pool_branch
              upstream service.Store service.serve
              scenario.treeA scenario.treeA scenario.lbA "clusterB"
              scenario.listenerA scenario.poolA H1 H2 H3) as [_ T].
  destruct (T ltac:(vm_compute; discriminate) ltac:(vm_compute; discriminate)
              scenario.monitorA scenario.treeA eq_refl
              ltac:(vm_compute; discriminate))
    as (a & t' & E & _).
  exists a, t'. exact E.
Defined.

(** The monitor check does not stand on its own.  On scenario 3 the
    listener and the monitor still carry [clusterA], the pool already
    carries the target [clusterB]; the invocation succeeds, the monitor is
    neither read nor updated and keeps its stale name. *)
Lemma stale_monitor_under_current_pool_kept :
  let cn := "clusterB" in
  let '(r, s', t) :=
    run service.serve
        (openstack.renameLoadBalancer upstream scenario.lb3
           "kube_service_clusterB_ns1_svc1" cn)
        scenario.tree3 in
  (openstack.lbHasOldClusterName upstream scenario.lb3 cn = true
   /\ decodedClusterName upstream (Numbered "listener_")
        (listeners.Name scenario.listener3) = "clusterA"
   /\ decodedClusterName upstream (Numbered "pool_")
        (pools.Name scenario.pool3) = cn
   /\ decodedClusterName upstream (Numbered "monitor_")
        (monitors.Name scenario.monitor3) = "clusterA")
  /\ (exists lb', r = inr lb')
  /\ map ev_kind t = [KList; KGetPool; KUpdateListener; KUpdateLoadBalancer]
  /\ service.lbMonitors s' = [scenario.monitor3].
Proof.
  vm_compute. repeat split. eexists. reflexivity.
Qed.

Lemma listener_renamed_by_pool_identity_witness :
  (strings.HasPrefix (listeners.Name scenario.listenerA)
                     (listenerPrefix upstream) = true
   /\ decodedClusterName upstream (Numbered (listenerPrefix upstream))
        (listeners.Name scenario.listenerA) <> "clusterB"
   /\ service.serve (GetPoolByListener "lb1" "l1") scenario.treeA
      = (inr scenario.poolA, scenario.treeA))
  /\ exists t0,
       snd (run service.serve
              (openstack.renameListener upstream scenario.lbA "clusterB"
                                        scenario.listenerA)
              scenario.treeA)
       = (t0 ++ [Ev (UpdateListener
                       "lb1" "l1" "listener_0_kube_service_clusterB_ns1_svc1"
                       ["kube_service_clusterB_ns1_svc2"; "team:payments"])
                    (inr tt)])%list.
Proof.
  assert (H1 : strings.HasPrefix (listeners.Name scenario.listenerA)
                                 (listenerPrefix upstream) = true)
    by reflexivity.
  assert (H2 : decodedClusterName upstream (Numbered (listenerPrefix upstream))
                 (listeners.Name scenario.listenerA) <> "clusterB")
    by (vm_compute; discriminate).
  assert (H3 : service.serve (GetPoolByListener "lb1" "l1") scenario.treeA
               = (inr scenario.poolA, scenario.treeA))
    by reflexivity.
  split; [now repeat split|].
  pose proof (listener_renamed_by_pool_identity
                upstream service.Store service.serve
                scenario.treeA scenario.treeA scenario.lbA "clusterB"
                scenario.listenerA scenario.poolA H1 H2 H3) as T.
  destruct T as (_ & _ & T).
  vm_compute in T. destruct T as (_ & T & _).
  destruct (T eq_refl) as [t0 E]. exists t0. exact E.
Defined.

(** ** Invoking the migration again *)

Lemma current_listener_skipped (cfg : Prefixes)
  (lb : loadbalancers.LoadBalancer) (cn : string) (l : listeners.Listener) :
  (strings.HasPrefix (listeners.Name l) (listenerPrefix cfg) = true ->
   decodedClusterName cfg (Numbered (listenerPrefix cfg)) (listeners.Name l)
   = cn) ->
  openstack.renameListener cfg lb cn l = ret tt.
Proof.
  unfold openstack.renameListener, decodedClusterName.
  destruct (strings.HasPrefix (listeners.Name l) (listenerPrefix cfg));
    [|reflexivity].
  intros H. specialize (H eq_refl). cbn [negb].
  destruct (openstack.decomposeLBName cfg (Numbered (listenerPrefix cfg))
              (listeners.Name l)) as [[o n] m].
  cbn [fst] in H. subst o. now rewrite String.eqb_refl.
Qed.

Lemma forEach_all_skipped {A : Type} (body : A -> prog (result unit))
  (xs : list A) :
  (forall x, In x xs -> body x = ret tt) -> forEach xs body = ret tt.
Proof.
  induction xs as [|x xs IH]; intros H; cbn [forEach]; [reflexivity|].
  rewrite (H x (or_introl eq_refl)). cbn [bind ret].
  apply IH. intros y Hy. apply H. now right.
Qed.

Lemma serve_renameLoadBalancer_success (cfg : Prefixes)
  (lb lb1 : loadbalancers.LoadBalancer) (lbName cn : string)
  (s0 s1 : service.Store) (t1 : list event) :
  run service.serve (openstack.renameLoadBalancer cfg lb lbName cn) s0
  = (inr lb1, s1, t1) ->
  exists sp,
    s1 = service.setLoadBalancer
           lbName (map (openstack.renameTag cfg cn) (loadbalancers.Tags lb)) sp
    /\ lb1 = service.loadbalancer s1
    /\ loadbalancers.ID lb = loadbalancers.ID (service.loadbalancer sp).
Proof.
  rewrite run_renameLoadBalancer. cbn [service.serve].
  destruct (String.eqb (loadbalancers.ID lb)
                       (loadbalancers.ID (service.loadbalancer s0)));
    [|discriminate].
  rewrite run_renameListed.
  destruct (run service.serve
              (forEach (service.lbListeners s0)
                       (openstack.renameListener cfg lb cn)) s0)
    as [[[err|[]] sp] t]; [discriminate|].
  cbv zeta. cbn [service.serve].
  destruct (String.eqb_spec (loadbalancers.ID lb)
                            (loadbalancers.ID (service.loadbalancer sp)))
    as [E|_]; [|discriminate].
  intros H. injection H as <- <- _. exists sp. auto.
Qed.

(** On a tree that a first migration has left converged, a second one
    changes nothing.  When a first migration has returned without error
    and has left every listener that carries the listener prefix on the
    target cluster name and every tag of the load balancer such that the
    tag loop keeps it, a second migration, given the load balancer the
    first one returned, leaves the tree exactly as it found it and
    returns the same load balancer: either the guard stops it before any
    call, or it lists the listeners, passes over each of them and sends
    the load balancer the name and the tags it already has. *)
Lemma converged_tree_untouched (cfg : Prefixes)
  (lb lb1 : loadbalancers.LoadBalancer) (lbName cn : string)
  (s0 s1 : service.Store) (t1 : list event)
  (First : run service.serve (openstack.migrate cfg lb lbName cn) s0
           = (inr lb1, s1, t1))
  (Listeners : forall l, In l (service.lbListeners s1) ->
      strings.HasPrefix (listeners.Name l) (listenerPrefix cfg) = true ->
      decodedClusterName cfg (Numbered (listenerPrefix cfg)) (listeners.Name l)
      = cn)
  (Tags : forall tag, In tag (loadbalancers.Tags lb1) ->
      openstack.renameTag cfg cn tag = tag) :
  (exists t2,
      run service.serve (openstack.migrate cfg lb1 lbName cn) s1
      = (inr lb1, s1, t2)
      /\ (t2 = [] \/ map ev_kind t2 = [KList; KUpdateLoadBalancer]))
  /\ (openstack.lbHasOldClusterName cfg lb cn = true ->
      run service.serve (openstack.renameLoadBalancer cfg lb1 lbName cn) s1
      = (inr lb1, s1,
         [Ev (GetListenersByLoadBalancerID (loadbalancers.ID lb1))
             (inr (service.lbListeners s1));
          Ev (UpdateLoadBalancer (loadbalancers.ID lb1) lbName
                                 (loadbalancers.Tags lb1))
             (inr lb1)])).
Proof.
  unfold openstack.migrate in First.
  destruct (openstack.lbHasOldClusterName cfg lb cn) eqn:G1.
  - (* the first migration ran the cascade *)
    apply serve_renameLoadBalancer_success in First as (sp & Es1 & Elb1 & EID).
    assert (Rerun :
      run service.serve (openstack.renameLoadBalancer cfg lb1 lbName cn) s1
      = (inr lb1, s1,
         [Ev (GetListenersByLoadBalancerID (loadbalancers.ID lb1))
             (inr (service.lbListeners s1));
          Ev (UpdateLoadBalancer (loadbalancers.ID lb1) lbName
                                 (loadbalancers.Tags lb1))
             (inr lb1)])).
    { rewrite run_renameLoadBalancer. cbn [service.serve].
      rewrite Elb1 at 1. rewrite String.eqb_refl.
      rewrite run_renameListed.
      rewrite (forEach_all_skipped _ (service.lbListeners s1)).
      2:{ intros l Il. apply current_listener_skipped. now apply Listeners. }
      cbn [run ret]. cbv zeta. cbn [service.serve].
      rewrite Elb1 at 1. rewrite String.eqb_refl.
      assert (Et : map (openstack.renameTag cfg cn) (loadbalancers.Tags lb1)
                   = loadbalancers.Tags lb1).
      { clear - Tags. induction (loadbalancers.Tags lb1) as [|tag tags IH];
          [reflexivity|].
        cbn [map]. rewrite (Tags tag (or_introl eq_refl)). f_equal.
        apply IH. intros x Hx. apply Tags. now right. }
      rewrite Et.
      assert (Es : service.setLoadBalancer lbName (loadbalancers.Tags lb1) s1 = s1).
      { rewrite Elb1. rewrite Es1. reflexivity. }
      rewrite Es. cbn [app]. rewrite <- Elb1. reflexivity. }
    split; [|intros _; exact Rerun].
    unfold openstack.migrate.
    destruct (openstack.lbHasOldClusterName cfg lb1 cn).
    + eexists. split; [exact Rerun|]. right. reflexivity.
    + exists []. split; [reflexivity|now left].
  - (* the guard stopped the first migration: nothing was called *)
    cbn in First. injection First as <- <- <-.
    split; [|discriminate].
    exists []. unfold openstack.migrate. rewrite G1.
    split; [reflexivity|now left].
Qed.

(** C3. Invoking the migration twice is not invoking it once: the code
    does not keep the idempotence its retries rely on (the load balancer
    is renamed last so that the caller retries until all the children
    are handled).  For the cluster called [kube], whose name also occurs
    in the service prefix, with target [prod]:
    - [replaceClusterName] replaces the first [kube] of the listener's
      name, the one of the service prefix, and leaves the cluster name
      field as it was; the name it writes no longer holds the pattern, so
      [decomposeLBName] reads an empty cluster name off it;
    - on an empty cluster name [replaceClusterName] puts the target in
      front of the name, where the tag loops, which test the cluster name
      against the empty string first, keep such a text as it is;
    - so when the first invocation has renamed the first listener and
      its pool and then failed on the second listener, the retry puts
      [prod] in front of the names the first invocation wrote, and the
      tree after two invocations is not the tree after one;
    - the same happens without any failure when [renameLoadBalancer]
      itself is run again on the load balancer it returned. *)
Lemma second_invocation_renames_again :
  let cn := "prod" in
  let lbName := "kube_service_prod_ns_svc" in
  let names (s : service.Store) :=
    (map listeners.Name (service.lbListeners s),
     map (fun kp => pools.Name (snd kp)) (service.lbPools s)) in
  (openstack.decomposeLBName upstream (Numbered "listener_")
     "listener_0_kube_service_kube_ns_svc" = ("kube", "ns", "svc")
   /\ openstack.replaceClusterName "kube" cn
        "listener_0_kube_service_kube_ns_svc"
      = "listener_0_prod_service_kube_ns_svc"
   /\ openstack.decomposeLBName upstream (Numbered "listener_")
        "listener_0_prod_service_kube_ns_svc" = ("", "", "")
   /\ openstack.replaceClusterName "" cn "listener_0_prod_service_kube_ns_svc"
      = "prodlistener_0_prod_service_kube_ns_svc"
   /\ openstack.renameTag upstream cn "listener_0_prod_service_kube_ns_svc"
      = "listener_0_prod_service_kube_ns_svc")
  /\ (let m := openstack.migrate upstream scenario.lbK lbName cn in
      let '(r1, s1, _) := run service.serve m scenario.treeK in
      let '(r2, s2, _) := run service.serve m s1 in
      r1 = inl service.notFound /\ r2 = inl service.notFound
      /\ names s1 = (["listener_0_prod_service_kube_ns_svc";
                       "listener_1_kube_service_kube_ns_svc"],
                      ["pool_0_prod_service_kube_ns_svc"])
      /\ names s2 = (["prodlistener_0_prod_service_kube_ns_svc";
                       "listener_1_kube_service_kube_ns_svc"],
                      ["prodpool_0_prod_service_kube_ns_svc"])
      /\ s1 <> s2)
  /\ (let '(r1, s1, _) :=
         run service.serve
             (openstack.renameLoadBalancer upstream scenario.lbK lbName cn)
             scenario.treeK1 in
       exists lb1,
         r1 = inr lb1
         /\ let '(r2, s2, _) :=
              run service.serve
                  (openstack.renameLoadBalancer upstream lb1 lbName cn) s1 in
            r2 = inr lb1
            /\ names s1 = (["listener_0_prod_service_kube_ns_svc"],
                           ["pool_0_prod_service_kube_ns_svc"])
            /\ names s2 = (["prodlistener_0_prod_service_kube_ns_svc"],
                           ["prodpool_0_prod_service_kube_ns_svc"])
            /\ s1 <> s2).
Proof.
  vm_compute. split; [|split].
  - repeat split.
  - repeat split. discriminate.
  - eexists. split; [reflexivity|]. repeat split. discriminate.
Qed.

(** ** The modelled service *)

Lemma find_map_key {A : Type} (f : string * A -> string * A) (k : string)
  (l : list (string * A)) :
  (forall x, fst (f x) = fst x) ->
  find (fun kp => String.eqb (fst kp) k) (map f l)
  = option_map f (find (fun kp => String.eqb (fst kp) k) l).
Proof.
  intros Hf. induction l as [|x l IH]; cbn [map find]; [reflexivity|].
  rewrite Hf. destruct (String.eqb (fst x) k); [reflexivity|exact IH].
Qed.

Lemma find_some_in {A : Type} (f : A -> bool) (l : list A) (x : A) :
  find f l = Some x -> In x l /\ f x = true.
Proof. apply find_some. Qed.

Lemma poolOf_in (k : string) (s : service.Store) (p : pools.Pool) :
  service.poolOf k s = Some p -> In (k, p) (service.lbPools s).
Proof.
  unfold service.poolOf.
  destruct (find (fun kp => String.eqb (fst kp) k) (service.lbPools s))
    as [[k' p']|] eqn:F; [|discriminate].
  cbn. intros H. injection H as <-.
  apply find_some in F as [I E]. cbn in E. apply String.eqb_eq in E.
  now subst k'.
Qed.

Lemma poolOf_exists (k : string) (s : service.Store) (p : pools.Pool) :
  service.poolOf k s = Some p ->
  existsb (fun kp => String.eqb (pools.ID (snd kp)) (pools.ID p))
          (service.lbPools s) = true.
Proof.
  intros H. apply poolOf_in in H. apply existsb_exists.
  exists (k, p). split; [exact H|]. cbn. apply String.eqb_refl.
Qed.

Lemma monitorOf_id (k : string) (s : service.Store) (m : monitors.Monitor) :
  service.monitorOf k s = Some m ->
  service.monitorOf (monitors.ID m) s = Some m.
Proof.
  unfold service.monitorOf. intros H.
  pose proof (find_some _ _ H) as [_ E]. cbn in E.
  apply String.eqb_eq in E. now rewrite E.
Qed.

Lemma listener_exists (l : listeners.Listener) (ls : list listeners.Listener) :
  In l ls ->
  existsb (fun l' => String.eqb (listeners.ID l') (listeners.ID l)) ls = true.
Proof.
  intros H. apply existsb_exists. exists l. split; [exact H|apply String.eqb_refl].
Qed.

Lemma NoDup_map_eq {A B : Type} (g : A -> B) (l : list A) (a b : A) :
  NoDup (map g l) -> In a l -> In b l -> g a = g b -> a = b.
Proof.
  induction l as [|x l IH]; intros N Ia Ib E; [contradiction|].
  cbn [map] in N. inversion N as [|? ? Nx Nl]; subst.
  destruct Ia as [<-|Ia], Ib as [<-|Ib].
  - reflexivity.
  - exfalso. apply Nx. rewrite E. now apply in_map.
  - exfalso. apply Nx. rewrite <- E. now apply in_map.
  - now apply IH.
Qed.

Section ServeListener.
Context (cfg : Prefixes) (lb : loadbalancers.LoadBalancer) (cn : string).

Lemma not_settled (name : string) :
  ~ settled cfg cn name ->
  strings.HasPrefix name (listenerPrefix cfg) = true
  /\ decodedClusterName cfg (Numbered (listenerPrefix cfg)) name <> cn.
Proof.
  unfold settled. intros H.
  destruct (strings.HasPrefix name (listenerPrefix cfg)).
  - split; [reflexivity|]. intros E. apply H. intros _. exact E.
  - exfalso. apply H. discriminate.
Qed.

Ltac step :=
  repeat first
    [ rewrite run_bind
    | progress (unfold perform, ret; cbn [run service.serve fst snd app bind]) ].

(** What the loop body does to the modelled service for a listener it
    does not pass over: either a lookup fails and nothing has changed, or
    the listener gets the name computed from its pool's cluster name,
    after at most a rename of that pool and of that pool's monitor. *)
Lemma serve_listener (l : listeners.Listener) (s : service.Store) :
  In l (service.lbListeners s) ->
  ~ settled cfg cn (listeners.Name l) ->
  (exists t,
      run service.serve (openstack.renameListener cfg lb cn l) s
      = (inl service.notFound, s, t))
  \/ (exists p s_mid t,
         service.poolOf (listeners.ID l) s = Some p
         /\ run service.serve (openstack.renameListener cfg lb cn l) s
            = (inr tt,
               service.setListener
                 (listeners.ID l)
                 (openstack.replaceClusterName
                    (decodedClusterName cfg (Numbered (poolPrefix cfg))
                                        (pools.Name p))
                    cn (listeners.Name l))
                 (map (openstack.renameTag cfg cn) (listeners.Tags l))
                 s_mid,
               t)
         /\ service.lbListeners s_mid = service.lbListeners s
         /\ service.loadbalancer s_mid = service.loadbalancer s
         /\ (service.lbPools s_mid = service.lbPools s
             \/ exists n,
                  service.lbPools s_mid
                  = service.lbPools (service.setPoolName (pools.ID p) n s))
         /\ (service.lbMonitors s_mid = service.lbMonitors s
             \/ exists n,
                  service.lbMonitors s_mid
                  = service.lbMonitors
                      (service.setMonitorName (pools.MonitorID p) n s))).
Proof.
  intros Hin Hns. apply not_settled in Hns as [HP Hne].
  pose proof (listener_exists l _ Hin) as Hex.
  unfold openstack.renameListener, decodedClusterName in *.
  rewrite HP. cbn [negb].
  destruct (openstack.decomposeLBName cfg (Numbered (listenerPrefix cfg))
              (listeners.Name l)) as [[o1 n1] m1].
  cbn [fst] in Hne.
  destruct (String.eqb_spec o1 cn) as [|_]; [contradiction|]. cbn [negb].
  step.
  destruct (service.poolOf (listeners.ID l) s) as [p|] eqn:Pool.
  2:{ left. eexists. reflexivity. }
  pose proof (poolOf_exists _ _ _ Pool) as Pex.
  destruct (openstack.decomposeLBName cfg (Numbered (poolPrefix cfg))
              (pools.Name p)) as [[old n2] m2] eqn:Dp.
  destruct (negb (String.eqb old cn)).
  - destruct (negb (String.eqb (pools.MonitorID p) "")).
    + step.
      destruct (service.monitorOf (pools.MonitorID p) s) as [m|] eqn:Mon.
      2:{ left. eexists. reflexivity. }
      assert (Em : monitors.ID m = pools.MonitorID p).
      { unfold service.monitorOf in Mon. apply find_some in Mon as [_ E].
        now apply String.eqb_eq in E. }
      destruct (openstack.decomposeLBName cfg (Numbered (monitorPrefix cfg))
                  (monitors.Name m)) as [[om n3] m3].
      destruct (negb (String.eqb om cn)).
      * rewrite Em. step. rewrite Mon. step.
        cbn [service.setMonitorName service.lbPools]. rewrite Pex. step.
        cbn [service.setPoolName service.setMonitorName service.lbListeners].
        rewrite Hex. step.
        right. eexists p, _, _. rewrite Dp. cbn [fst]. split; [reflexivity|].
        split; [reflexivity|]. split; [reflexivity|]. split; [reflexivity|].
        split; right; eexists; reflexivity.
      * step. rewrite Pex. step.
        cbn [service.setPoolName service.lbListeners]. rewrite Hex. step.
        right. eexists p, _, _. rewrite Dp. cbn [fst]. split; [reflexivity|].
        split; [reflexivity|]. split; [reflexivity|]. split; [reflexivity|].
        split; [right; eexists; reflexivity|now left].
    + step. rewrite Pex. step.
      cbn [service.setPoolName service.lbListeners]. rewrite Hex. step.
      right. eexists p, _, _. rewrite Dp. cbn [fst]. split; [reflexivity|].
      split; [reflexivity|]. split; [reflexivity|]. split; [reflexivity|].
      split; [right; eexists; reflexivity|now left].
  - step. rewrite Hex. step.
    right. eexists p, s, _. rewrite Dp. cbn [fst]. split; [reflexivity|].
    split; [reflexivity|]. split; [reflexivity|]. split; [reflexivity|].
    split; now left.
Qed.

End ServeListener.

Lemma settled_dec (cfg : Prefixes) (cn name : string) :
  {settled cfg cn name} + {~ settled cfg cn name}.
Proof.
  unfold settled.
  destruct (strings.HasPrefix name (listenerPrefix cfg)).
  - destruct (string_dec
                (decodedClusterName cfg (Numbered (listenerPrefix cfg)) name) cn)
      as [E|N].
    + left. intros _. exact E.
    + right. intros H. apply N. now apply H.
  - left. discriminate.
Qed.

Lemma map_fixed {A : Type} (f : A -> A) (l : list A) :
  (forall x, In x l -> f x = x) -> map f l = l.
Proof.
  induction l as [|x l IH]; intros H; cbn [map]; [reflexivity|].
  rewrite (H x (or_introl eq_refl)). f_equal. apply IH. intros y Hy.
  apply H. now right.
Qed.

Lemma setListener_one (l : listeners.Listener) (name : string)
  (tags : list string) (done todo : list listeners.Listener) :
  NoDup (map listeners.ID (done ++ l :: todo)) ->
  map (fun l' => if String.eqb (listeners.ID l') (listeners.ID l)
                 then {| listeners.ID := listeners.ID l';
                         listeners.Name := name;
                         listeners.Tags := tags |}
                 else l')
      (done ++ l :: todo)
  = (done ++ {| listeners.ID := listeners.ID l;
                listeners.Name := name;
                listeners.Tags := tags |} :: todo)%list.
Proof.
  intros N. rewrite map_app in N. cbn [map] in N.
  apply NoDup_remove_2 in N.
  rewrite map_app. cbn [map]. rewrite String.eqb_refl.
  assert (F : forall xs, ~ In (listeners.ID l) (map listeners.ID xs) ->
              map (fun l' => if String.eqb (listeners.ID l') (listeners.ID l)
                             then {| listeners.ID := listeners.ID l';
                                     listeners.Name := name;
                                     listeners.Tags := tags |}
                             else l') xs = xs).
  { intros xs H. apply map_fixed. intros x Hx.
    destruct (String.eqb_spec (listeners.ID x) (listeners.ID l)) as [E|_];
      [|reflexivity].
    exfalso. apply H. rewrite <- E. now apply in_map. }
  rewrite !F; [reflexivity| |].
  - intros H. apply N. apply in_or_app. now right.
  - intros H. apply N. apply in_or_app. now left.
Qed.

Lemma setPoolName_ids (q n : string) (s : service.Store) :
  map (fun kp => pools.ID (snd kp))
      (service.lbPools (service.setPoolName q n s))
  = map (fun kp => pools.ID (snd kp)) (service.lbPools s).
Proof.
  cbn [service.setPoolName service.lbPools]. rewrite map_map.
  apply map_ext. intros [k p]. cbn.
  destruct (String.eqb (pools.ID p) q); reflexivity.
Qed.

Lemma poolOf_ext (k : string) (a b : service.Store) :
  service.lbPools a = service.lbPools b ->
  service.poolOf k a = service.poolOf k b.
Proof. unfold service.poolOf. now intros ->. Qed.

(** Renaming the pool of one listener does not show in the pool of a
    listener with another ID, when no two entries hold the same pool. *)
Lemma poolOf_other (s : service.Store) (k k2 n : string) (p p2 : pools.Pool) :
  NoDup (map (fun kp => pools.ID (snd kp)) (service.lbPools s)) ->
  service.poolOf k s = Some p ->
  k2 <> k ->
  service.poolOf k2 (service.setPoolName (pools.ID p) n s) = Some p2 ->
  service.poolOf k2 s = Some p2.
Proof.
  intros N Hp Hk.
  unfold service.poolOf at 1.
  cbn [service.setPoolName service.lbPools].
  rewrite find_map_key.
  2:{ intros [k' p']. cbn. destruct (String.eqb (pools.ID p') (pools.ID p));
        reflexivity. }
  fold (service.poolOf k2 s) || idtac.
  destruct (find (fun kp => String.eqb (fst kp) k2) (service.lbPools s))
    as [[k' p']|] eqn:F; [|discriminate].
  assert (Hp2 : service.poolOf k2 s = Some p')
    by (unfold service.poolOf; now rewrite F).
  cbn. destruct (String.eqb_spec (pools.ID p') (pools.ID p)) as [E|_].
  - exfalso. apply Hk.
    apply poolOf_in in Hp, Hp2.
    pose proof (NoDup_map_eq (fun kp => pools.ID (snd kp)) _ (k2, p') (k, p)
                  N Hp2 Hp E) as Epair.
    now injection Epair.
  - cbn. intros H. injection H as <-. exact Hp2.
Qed.

Section ServeLoop.
Context (cfg : Prefixes) (lb : loadbalancers.LoadBalancer) (cn : string).

Let body := openstack.renameListener cfg lb cn.

(** the part of [rewrite_lands] that concerns the listeners still to do *)
Let lands (s : service.Store) (todo : list listeners.Listener) : Prop :=
  forall l p,
    In l todo ->
    ~ settled cfg cn (listeners.Name l) ->
    service.poolOf (listeners.ID l) s = Some p ->
    settled cfg cn
      (openstack.replaceClusterName
         (decodedClusterName cfg (Numbered (poolPrefix cfg)) (pools.Name p))
         cn (listeners.Name l)).

(** how the loop leaves the modelled service: on success every listener
    is one the loop passes over; on error the listeners before the
    failing one are such, and the failing one fails again, leaving the
    service as it is *)
Let left_as (r : result unit) (s' : service.Store) : Prop :=
  match r with
  | inr _ =>
      Forall (fun l => settled cfg cn (listeners.Name l)) (service.lbListeners s')
  | inl err =>
      exists pre l rest t',
        service.lbListeners s' = (pre ++ l :: rest)%list
        /\ Forall (fun x => settled cfg cn (listeners.Name x)) pre
        /\ run service.serve (body l) s' = (inl err, s', t')
  end.

Lemma serve_loop (todo : list listeners.Listener) :
  forall (done : list listeners.Listener) (s : service.Store),
    service.lbListeners s = (done ++ todo)%list ->
    Forall (fun l => settled cfg cn (listeners.Name l)) done ->
    NoDup (map listeners.ID (done ++ todo)) ->
    NoDup (map (fun kp => pools.ID (snd kp)) (service.lbPools s)) ->
    lands s todo ->
    exists r s' t,
      run service.serve (forEach todo body) s = (r, s', t)
      /\ service.loadbalancer s' = service.loadbalancer s
      /\ left_as r s'.
Proof.
  induction todo as [|l todo IH]; intros done s El Fd Nl Np La.
  - exists (inr tt), s, []. split; [reflexivity|]. split; [reflexivity|].
    cbn. rewrite El, app_nil_r. exact Fd.
  - cbn [forEach]. rewrite run_bind.
    destruct (settled_dec cfg cn (listeners.Name l)) as [St|Ns].
    + (* passed over *)
      unfold body at 1. rewrite (current_listener_skipped cfg lb cn l St).
      cbn [run ret].
      destruct (IH (done ++ [l])%list s) as (r & s' & t & R & Hlb & Hleft).
      * now rewrite <- app_assoc.
      * apply Forall_app. split; [exact Fd|]. now constructor.
      * now rewrite <- app_assoc.
      * exact Np.
      * intros l2 p2 I2. apply La. now right.
      * exists r, s', t. fold body. rewrite R. cbn [app]. auto.
    + (* processed *)
      assert (Hin : In l (service.lbListeners s))
        by (rewrite El; apply in_or_app; right; now left).
      destruct (serve_listener cfg lb cn l s Hin Ns)
        as [(t & R)|(p & s_mid & t & Pool & R & Els & Elb & Epools & _)].
      * (* a lookup fails *)
        unfold body at 1. rewrite R.
        exists (inl service.notFound), s, t.
        split; [reflexivity|]. split; [reflexivity|].
        exists done, l, todo, t. auto.
      * unfold body at 1. rewrite R.
        set (name' := openstack.replaceClusterName
                        (decodedClusterName cfg (Numbered (poolPrefix cfg))
                                            (pools.Name p))
                        cn (listeners.Name l)) in *.
        set (tags' := map (openstack.renameTag cfg cn) (listeners.Tags l)) in *.
        set (s1 := service.setListener (listeners.ID l) name' tags' s_mid) in *.
        set (l' := {| listeners.ID := listeners.ID l;
                      listeners.Name := name';
                      listeners.Tags := tags' |}).
        assert (El1 : service.lbListeners s1 = (done ++ l' :: todo)%list).
        { unfold s1. cbn [service.setListener service.lbListeners].
          rewrite Els, El. now apply setListener_one. }
        assert (Ep1 : service.lbPools s1 = service.lbPools s_mid) by reflexivity.
        assert (Eids : map (fun kp => pools.ID (snd kp)) (service.lbPools s1)
                       = map (fun kp => pools.ID (snd kp)) (service.lbPools s)).
        { rewrite Ep1. destruct Epools as [->|[n ->]]; [reflexivity|].
          apply setPoolName_ids. }
        assert (Nid : ~ In (listeners.ID l) (map listeners.ID todo)).
        { rewrite map_app in Nl. cbn [map] in Nl.
          apply NoDup_remove_2 in Nl. intros H. apply Nl.
          apply in_or_app. now right. }
        destruct (IH (done ++ [l'])%list s1) as (r & s' & t2 & R2 & Hlb & Hleft).
        -- rewrite El1. now rewrite <- app_assoc.
        -- apply Forall_app. split; [exact Fd|]. constructor; [|constructor].
           cbn. apply (La l p); [now left|exact Ns|exact Pool].
        -- rewrite <- app_assoc. cbn [app].
           rewrite map_app in *. exact Nl.
        -- rewrite Eids. exact Np.
        -- intros l2 p2 I2 Ns2 Pool2. apply (La l2 p2); [now right|exact Ns2|].
           rewrite (poolOf_ext _ s1 s_mid Ep1) in Pool2.
           destruct Epools as [E|[n E]].
           ++ now rewrite (poolOf_ext _ s_mid s E) in Pool2.
           ++ rewrite (poolOf_ext _ s_mid _ E) in Pool2.
              apply (poolOf_other s (listeners.ID l) (listeners.ID l2) n p p2);
                auto.
              intros E2. apply Nid. rewrite <- E2. now apply in_map.
        -- exists r, s', (t ++ t2)%list. fold body. rewrite R2.
           split; [reflexivity|]. split; [|exact Hleft].
           rewrite Hlb. unfold s1. cbn [service.setListener service.loadbalancer].
           exact Elb.
Qed.

End ServeLoop.

Lemma forEach_prefix_skipped {A : Type} (body : A -> prog (result unit))
  (pre xs : list A) :
  (forall x, In x pre -> body x = ret tt) ->
  forEach (pre ++ xs) body = forEach xs body.
Proof.
  induction pre as [|y pre IH]; intros H; cbn [forEach app]; [reflexivity|].
  rewrite (H y (or_introl eq_refl)). cbn [bind ret].
  apply IH. intros x Hx. apply H. now right.
Qed.

(** One run of [renameLoadBalancer] against the modelled service, on a
    tree without shared listeners or pools and on which every rewrite of
    a listener name lands: on success all listeners are such that the
    loop passes over them; on error, running it again on the tree it
    left fails in the same way and changes nothing. *)
Lemma serve_rename_once (cfg : Prefixes) (lb : loadbalancers.LoadBalancer)
  (lbName cn : string) (s0 s1 : service.Store)
  (r1 : result loadbalancers.LoadBalancer) (t1 : list event) :
  NoDup (map listeners.ID (service.lbListeners s0)) ->
  NoDup (map (fun kp => pools.ID (snd kp)) (service.lbPools s0)) ->
  rewrite_lands cfg cn s0 ->
  run service.serve (openstack.renameLoadBalancer cfg lb lbName cn) s0
  = (r1, s1, t1) ->
  match r1 with
  | inr lb1 =>
      Forall (fun l => settled cfg cn (listeners.Name l))
             (service.lbListeners s1)
      /\ loadbalancers.Tags lb1
         = map (openstack.renameTag cfg cn) (loadbalancers.Tags lb)
  | inl err =>
      exists t',
        run service.serve (openstack.renameLoadBalancer cfg lb lbName cn) s1
        = (inl err, s1, t')
  end.
Proof.
  intros Nl Np La.
  rewrite run_renameLoadBalancer. cbn [service.serve].
  destruct (String.eqb (loadbalancers.ID lb)
                       (loadbalancers.ID (service.loadbalancer s0))) eqn:EID.
  2:{ intros H. injection H as <- <- _.
      rewrite run_renameLoadBalancer. cbn [service.serve]. rewrite EID.
      eexists. reflexivity. }
  rewrite run_renameListed.
  destruct (serve_loop cfg lb cn (service.lbListeners s0) [] s0)
    as (r & s' & t & R & Hlb & Hleft); auto.
  rewrite R. destruct r as [err|[]].
  - intros H. injection H as <- <- _.
    destruct Hleft as (pre & l & rest & t' & El & Fp & Rl).
    rewrite run_renameLoadBalancer. cbn [service.serve].
    rewrite Hlb, EID. rewrite run_renameListed. rewrite El.
    rewrite forEach_prefix_skipped.
    2:{ intros x Hx. apply current_listener_skipped.
        rewrite Forall_forall in Fp. now apply Fp. }
    cbn [forEach]. rewrite run_bind. rewrite Rl.
    eexists. reflexivity.
  - cbv zeta. cbn [service.serve]. rewrite Hlb, EID.
    intros H. injection H as <- <- _.
    cbn [service.setLoadBalancer service.lbListeners service.loadbalancer
           loadbalancers.Tags].
    split; [exact Hleft|reflexivity].
Qed.

(** Where the rewrites land, invoking again changes nothing.  Run
    against the modelled service, on a tree in which no two listeners
    share an ID and no two listeners share a pool, and on which every
    rewrite lands (each listener the loop does not pass over gets, from
    the cluster name read off its pool, a name the loop passes over; each
    tag of the load balancer, once put through the tag loop, is kept by
    it): a second invocation, on the tree the first one left and with
    the load balancer it returned (or, after an error of that service,
    with the load balancer the caller still holds), leaves the tree as
    the first invocation left it and returns what the first returned. *)
Lemma migrate_twice_as_once (cfg : Prefixes)
  (lb : loadbalancers.LoadBalancer) (lbName cn : string) (s0 : service.Store)
  (ListenerIDs : NoDup (map listeners.ID (service.lbListeners s0)))
  (PoolIDs : NoDup (map (fun kp => pools.ID (snd kp)) (service.lbPools s0)))
  (Lands : rewrite_lands cfg cn s0)
  (TagsLand : forall tag, In tag (loadbalancers.Tags lb) ->
      openstack.renameTag cfg cn (openstack.renameTag cfg cn tag)
      = openstack.renameTag cfg cn tag) :
  let '(r1, s1, _) := run service.serve (openstack.migrate cfg lb lbName cn) s0 in
  let lb' := match r1 with inr lb1 => lb1 | inl _ => lb end in
  let '(r2, s2, _) := run service.serve (openstack.migrate cfg lb' lbName cn) s1 in
  s2 = s1 /\ r2 = r1.
Proof.
  destruct (run service.serve (openstack.migrate cfg lb lbName cn) s0)
    as [[[err|lb1] s1] t1] eqn:First.
  - (* the first invocation failed *)
    unfold openstack.migrate in *.
    destruct (openstack.lbHasOldClusterName cfg lb cn); [|discriminate].
    apply serve_rename_once in First as [t' Again]; auto.
    cbv zeta. rewrite Again. auto.
  - (* the first invocation succeeded *)
    assert (Facts :
      Forall (fun l => settled cfg cn (listeners.Name l)) (service.lbListeners s1)
      /\ (forall tag, In tag (loadbalancers.Tags lb1) ->
                      openstack.renameTag cfg cn tag = tag)
      \/ (lb1 = lb /\ s1 = s0
          /\ openstack.lbHasOldClusterName cfg lb cn = false)).
    { unfold openstack.migrate in First.
      destruct (openstack.lbHasOldClusterName cfg lb cn).
      - left. apply serve_rename_once in First as [Fs Et]; auto.
        split; [exact Fs|]. rewrite Et. intros tag Htag.
        apply in_map_iff in Htag as (tag0 & <- & H0). now apply TagsLand.
      - right. cbn in First. injection First as <- <- _. auto. }
    cbv zeta.
    destruct Facts as [[Fs Ft]|(-> & -> & G)].
    + destruct (converged_tree_untouched cfg lb lb1 lbName cn s0 s1 t1 First)
        as [(t2 & Second & _) _].
      * intros l Hl. rewrite Forall_forall in Fs. now apply Fs.
      * exact Ft.
      * rewrite Second. auto.
    + unfold openstack.migrate. rewrite G. cbn. auto.
Qed.

Lemma migrate_twice_as_once_witness :
  let cn := "clusterB" in
  let lbName := "kube_service_clusterB_ns1_svc1" in
  (NoDup (map listeners.ID (service.lbListeners scenario.treeF))
   /\ NoDup (map (fun kp => pools.ID (snd kp)) (service.lbPools scenario.treeF))
   /\ rewrite_lands upstream cn scenario.treeF)
  /\ let '(r1, s1, _) :=
       run service.serve (openstack.migrate upstream scenario.lbA lbName cn)
           scenario.treeF in
     let lb' := match r1 with inr lb1 => lb1 | inl _ => scenario.lbA end in
     let '(r2, s2, _) :=
       run service.serve (openstack.migrate upstream lb' lbName cn) s1 in
     s2 = s1 /\ r2 = r1.
Proof.
  intros cn lbName.
  assert (H1 : NoDup (map listeners.ID (service.lbListeners scenario.treeF))).
  { cbn. constructor; [intros [E|[]]; discriminate E|].
    constructor; [intros []|constructor]. }
  assert (H2 : NoDup (map (fun kp => pools.ID (snd kp))
                          (service.lbPools scenario.treeF))).
  { cbn. constructor; [intros []|constructor]. }
  assert (H3 : rewrite_lands upstream cn scenario.treeF).
  { intros l p [<-|[<-|[]]] _ Hp.
    - vm_compute in Hp. injection Hp as <-. intros _. vm_compute. reflexivity.
    - vm_compute in Hp. discriminate Hp. }
  split; [now repeat split|].
  apply (migrate_twice_as_once upstream scenario.lbA lbName cn scenario.treeF
           H1 H2 H3).
  intros tag [<-|[<-|[]]]; vm_compute; reflexivity.
Defined.

(** ** What the cascade leaves alone in the modelled service *)

Lemma poolOf_setPoolName_other (s : service.Store) (k k2 n : string)
  (p : pools.Pool) :
  NoDup (map (fun kp => pools.ID (snd kp)) (service.lbPools s)) ->
  service.poolOf k s = Some p ->
  k2 <> k ->
  service.poolOf k2 (service.setPoolName (pools.ID p) n s)
  = service.poolOf k2 s.
Proof.
  intros N Hp Hk.
  destruct (service.poolOf k2 (service.setPoolName (pools.ID p) n s))
    as [p2|] eqn:E.
  - symmetry. now apply (poolOf_other s k k2 n p p2).
  - unfold service.poolOf in *.
    cbn [service.setPoolName service.lbPools] in E.
    rewrite find_map_key in E.
    2:{ intros [k' p']. cbn. destruct (String.eqb (pools.ID p') (pools.ID p));
          reflexivity. }
    destruct (find (fun kp => String.eqb (fst kp) k2) (service.lbPools s));
      [discriminate|reflexivity].
Qed.

Lemma monitorOf_setMonitorName_other (s : service.Store) (k q n : string) :
  k <> q ->
  service.monitorOf k (service.setMonitorName q n s) = service.monitorOf k s.
Proof.
  intros Hk. unfold service.monitorOf.
  cbn [service.setMonitorName service.lbMonitors].
  induction (service.lbMonitors s) as [|m ms IH]; cbn [map find]; [reflexivity|].
  destruct (String.eqb_spec (monitors.ID m) q) as [Eq|_]; cbn [monitors.ID].
  - destruct (String.eqb_spec (monitors.ID m) k) as [Ek|_]; [|exact IH].
    exfalso. apply Hk. congruence.
  - destruct (String.eqb (monitors.ID m) k); [reflexivity|exact IH].
Qed.

Lemma monitorOf_ext (k : string) (a b : service.Store) :
  service.lbMonitors a = service.lbMonitors b ->
  service.monitorOf k a = service.monitorOf k b.
Proof. unfold service.monitorOf. now intros ->. Qed.

Lemma monitor_private_ext (a b : service.Store) (k : string) (p : pools.Pool) :
  (service.lbPools a = service.lbPools b
   \/ exists q n, service.lbPools a
                  = service.lbPools (service.setPoolName q n b)) ->
  monitor_private b k p -> monitor_private a k p.
Proof.
  intros [E|(q & n & E)] H k' p' I Hk; rewrite E in I.
  - now apply (H k' p').
  - cbn [service.setPoolName service.lbPools] in I.
    apply in_map_iff in I as ([k0 p0] & E0 & I0). cbn in E0.
    destruct (String.eqb (pools.ID p0) q); injection E0 as <- <-;
      now apply (H k0 p0).
Qed.

Section ServeFrame.
Context (cfg : Prefixes) (lb : loadbalancers.LoadBalancer) (cn : string).

Let body := openstack.renameListener cfg lb cn.

(** A listener the loop passes over keeps its entry, its pool and, when
    no other listener's pool refers to it, its pool's monitor, whatever
    the loop does for the other listeners. *)
Lemma serve_loop_frame (todo : list listeners.Listener) :
  forall (done : list listeners.Listener) (s : service.Store)
         (x : listeners.Listener),
    service.lbListeners s = (done ++ todo)%list ->
    NoDup (map listeners.ID (done ++ todo)) ->
    NoDup (map (fun kp => pools.ID (snd kp)) (service.lbPools s)) ->
    In x (service.lbListeners s) ->
    settled cfg cn (listeners.Name x) ->
    let '(_, s', _) := run service.serve (forEach todo body) s in
    service.loadbalancer s' = service.loadbalancer s
    /\ In x (service.lbListeners s')
    /\ service.poolOf (listeners.ID x) s' = service.poolOf (listeners.ID x) s
    /\ forall p,
         service.poolOf (listeners.ID x) s = Some p ->
         monitor_private s (listeners.ID x) p ->
         service.monitorOf (pools.MonitorID p) s'
         = service.monitorOf (pools.MonitorID p) s.
Proof.
  induction todo as [|l todo IH]; intros done s x El Nl Np Ix Sx.
  - cbn. auto.
  - cbn [forEach]. rewrite run_bind.
    destruct (settled_dec cfg cn (listeners.Name l)) as [St|Ns].
    + unfold body at 1. rewrite (current_listener_skipped cfg lb cn l St).
      cbn [run ret].
      specialize (IH (done ++ [l])%list s x).
      rewrite <- app_assoc in IH. specialize (IH El Nl Np Ix Sx).
      fold body.
      destruct (run service.serve (forEach todo body) s) as [[r s'] t].
      exact IH.
    + assert (Hin : In l (service.lbListeners s))
        by (rewrite El; apply in_or_app; right; now left).
      assert (Hxl : listeners.ID x <> listeners.ID l).
      { intros E. rewrite El in Ix, Hin.
        pose proof (NoDup_map_eq listeners.ID _ x l Nl Ix Hin E) as ->.
        contradiction. }
      destruct (serve_listener cfg lb cn l s Hin Ns)
        as [(t & R)|(p & s_mid & t & Pool & R & Els & Elb & Epools & Emons)].
      * unfold body at 1. rewrite R. auto.
      * unfold body at 1. rewrite R.
        set (name' := openstack.replaceClusterName
                        (decodedClusterName cfg (Numbered (poolPrefix cfg))
                                            (pools.Name p))
                        cn (listeners.Name l)) in *.
        set (tags' := map (openstack.renameTag cfg cn) (listeners.Tags l)) in *.
        set (s1 := service.setListener (listeners.ID l) name' tags' s_mid) in *.
        set (l' := {| listeners.ID := listeners.ID l;
                      listeners.Name := name';
                      listeners.Tags := tags' |}).
        assert (El1 : service.lbListeners s1 = (done ++ l' :: todo)%list).
        { unfold s1. cbn [service.setListener service.lbListeners].
          rewrite Els, El. now apply setListener_one. }
        assert (Ep1 : service.lbPools s1 = service.lbPools s_mid) by reflexivity.
        assert (Em1 : service.lbMonitors s1 = service.lbMonitors s_mid)
          by reflexivity.
        assert (Eids : map (fun kp => pools.ID (snd kp)) (service.lbPools s1)
                       = map (fun kp => pools.ID (snd kp)) (service.lbPools s)).
        { rewrite Ep1. destruct Epools as [->|[n ->]]; [reflexivity|].
          apply setPoolName_ids. }
        assert (Ix1 : In x (service.lbListeners s1)).
        { rewrite El1. rewrite El in Ix.
          apply in_app_or in Ix as [I|[I|I]].
          - apply in_or_app. now left.
          - subst x. contradiction.
          - apply in_or_app. right. now right. }
        assert (Epx : service.poolOf (listeners.ID x) s1
                      = service.poolOf (listeners.ID x) s).
        { rewrite (poolOf_ext _ s1 s_mid Ep1).
          destruct Epools as [E|[n E]].
          - now apply poolOf_ext.
          - rewrite (poolOf_ext _ s_mid _ E).
            now apply (poolOf_setPoolName_other s (listeners.ID l)). }
        specialize (IH (done ++ [l'])%list s1 x).
        rewrite <- app_assoc in IH. cbn [app] in IH.
        assert (Nl1 : NoDup (map listeners.ID (done ++ l' :: todo)))
          by (rewrite map_app in *; exact Nl).
        rewrite Eids in IH. specialize (IH El1 Nl1 Np Ix1 Sx).
        fold body.
        destruct (run service.serve (forEach todo body) s1) as [[r s'] t2].
        destruct IH as (Hlb & Hx & Hp & Hm).
        split; [|split; [exact Hx|split]].
        -- rewrite Hlb. unfold s1.
           cbn [service.setListener service.loadbalancer]. exact Elb.
        -- now rewrite Hp.
        -- intros px Hpx Priv.
           rewrite (Hm px).
           ++ rewrite (monitorOf_ext _ s1 s_mid Em1).
              destruct Emons as [E|[n E]]; [now apply monitorOf_ext|].
              rewrite (monitorOf_ext _ s_mid _ E).
              apply monitorOf_setMonitorName_other.
              intros E2. apply (Priv (listeners.ID l) p).
              ** now apply poolOf_in.
              ** intros E3. apply Hxl. now symmetry.
              ** now symmetry.
           ++ now rewrite Epx.
           ++ apply (monitor_private_ext s1 s); [|exact Priv].
              rewrite Ep1. destruct Epools as [E|[n E]]; [now left|].
              right. now exists (pools.ID p), n.
Qed.

End ServeFrame.

(** ** Listeners outside the naming scheme *)

(** C5. A listener whose name does not start with the listener prefix is
    passed over: the loop body makes no call for it (its pool is not even
    looked up, so neither the pool nor the pool's monitor is reached
    through it), and the whole invocation, the load balancer's own update
    included, goes on exactly as it would had the service not listed that
    listener: same calls, same result, same final state of the service.
    Run against the in-memory service, on a tree whose listeners and pools
    have distinct IDs, the invocation, whether it succeeds or stops at an
    error, leaves that listener's entry and its pool as they were, and
    its pool's monitor too when no other listener's pool refers to it. *)
Theorem foreign_listener_untouched (cfg : Prefixes)
  (lb : loadbalancers.LoadBalancer) (lbName cn : string)
  (l : listeners.Listener)
  (H : strings.HasPrefix (listeners.Name l) (listenerPrefix cfg) = false) :
  openstack.renameListener cfg lb cn l = ret tt
  /\ (forall ls1 ls2,
         openstack.renameListed cfg lb lbName cn (ls1 ++ l :: ls2)
         = openstack.renameListed cfg lb lbName cn (ls1 ++ ls2))
  /\ (forall (S : Type) (h : handler S) (s s1 : S) ls1 ls2,
         h (GetListenersByLoadBalancerID (loadbalancers.ID lb)) s
         = (inr (ls1 ++ l :: ls2)%list, s1) ->
         run h (openstack.renameLoadBalancer cfg lb lbName cn) s
         = let '(r, s2, t) :=
             run h (openstack.renameListed cfg lb lbName cn (ls1 ++ ls2)) s1 in
           (r, s2,
            Ev (GetListenersByLoadBalancerID (loadbalancers.ID lb))
               (inr (ls1 ++ l :: ls2)%list) :: t))
  /\ (forall s0 : service.Store,
         In l (service.lbListeners s0) ->
         NoDup (map listeners.ID (service.lbListeners s0)) ->
         NoDup (map (fun kp => pools.ID (snd kp)) (service.lbPools s0)) ->
         let '(_, s1, _) :=
           run service.serve (openstack.renameLoadBalancer cfg lb lbName cn) s0
         in
         In l (service.lbListeners s1)
         /\ service.poolOf (listeners.ID l) s1
            = service.poolOf (listeners.ID l) s0
         /\ forall p,
              service.poolOf (listeners.ID l) s0 = Some p ->
              monitor_private s0 (listeners.ID l) p ->
              service.monitorOf (pools.MonitorID p) s1
              = service.monitorOf (pools.MonitorID p) s0).
Proof.
  assert (B : openstack.renameListener cfg lb cn l = ret tt)
    by (unfold openstack.renameListener; now rewrite H).
  assert (L : forall ls1 ls2,
             openstack.renameListed cfg lb lbName cn (ls1 ++ l :: ls2)
             = openstack.renameListed cfg lb lbName cn (ls1 ++ ls2)).
  { intros ls1 ls2. unfold openstack.renameListed.
    now rewrite (forEach_skip _ l ls1 ls2 B). }
  split; [exact B|]. split; [exact L|]. split.
  - intros S h s s1 ls1 ls2 Hh.
    unfold openstack.renameLoadBalancer. rewrite run_bind.
    unfold perform at 1. cbn [run]. rewrite Hh. rewrite L.
    destruct (run h (openstack.renameListed cfg lb lbName cn (ls1 ++ ls2)) s1)
      as [[r s2] t].
    reflexivity.
  - intros s0 Il Nl Np.
    assert (St : settled cfg cn (listeners.Name l))
      by (intros E; rewrite H in E; discriminate).
    rewrite run_renameLoadBalancer. cbn [service.serve].
    destruct (String.eqb (loadbalancers.ID lb)
                         (loadbalancers.ID (service.loadbalancer s0))) eqn:Eid;
      [|auto].
    rewrite run_renameListed.
    pose proof (serve_loop_frame cfg lb cn (service.lbListeners s0)
                                 [] s0 l eq_refl Nl Np Il St) as F.
    destruct (run service.serve
                  (forEach (service.lbListeners s0)
                           (openstack.renameListener cfg lb cn)) s0)
      as [[r sp] t].
    destruct F as (Flb & Fl & Fp & Fm).
    destruct r as [err|[]]; [auto|].
    cbn [service.serve]. rewrite Flb, Eid.
    cbn [service.setLoadBalancer service.lbListeners].
    split; [exact Fl|]. split; [exact Fp|exact Fm].
Qed.

Lemma foreign_listener_untouched_witness :
  let lb := {| loadbalancers.ID := "lb1";
               loadbalancers.Name := "kube_service_clusterA_ns1_svc1";
               loadbalancers.Tags := [] |} in
  let l := {| listeners.ID := "l9";
              listeners.Name := "metrics-8443";
              listeners.Tags := ["kube_service_clusterA_ns1_svc1"] |} in
  strings.HasPrefix (listeners.Name l) (listenerPrefix upstream) = false
  /\ openstack.renameListener upstream lb "clusterB" l = ret tt.
Proof.
  intros lb l. split; [reflexivity|].
  apply (foreign_listener_untouched upstream lb
           "kube_service_clusterB_ns1_svc1" "clusterB" l).
  reflexivity.
Defined.

(* ================================================================== *)
(** * Part III: further properties of the code                         *)
(* ================================================================== *)

(** ** Export locations: joining and splitting *)

(** X1. Joining a nonempty address and a location that holds no ':' by
    ":" and splitting the result gives the two back, without error; the
    address may itself hold ':'. *)
Theorem splitExportLocation_splits_joined (address location : string)
  (Address : address <> "")
  (Location : ~ strings.occurs ":" location) :
  sharebackends.splitExportLocation
    {| shares.Path := address ++ ":" ++ location |}
  = (address, location, None).
Proof.
  unfold sharebackends.splitExportLocation. cbn [shares.Path].
  set (path := address ++ ":" ++ location).
  pose proof (LastIndexByte_lower path ":") as Low.
  assert (Pos : (0 < strings.LastIndexByte path ":")%Z).
  { destruct (Z.eq_dec (strings.LastIndexByte path ":") (-1)) as [E|NE].
    - apply LastIndexByte_absent in E. exfalso. apply E.
      unfold strings.occurs, path. rewrite bytes_append.
      apply in_or_app. right. now left.
    - destruct (Z.eq_dec (strings.LastIndexByte path ":") 0) as [E0|NE0]; [|lia].
      exfalso.
      destruct (LastIndexByte_split path ":" 0 E0 (Z.le_refl 0)) as (Hs & Hno & _).
      assert (E : "" ++ String ":" (strings.drop (Z.to_nat (0 + 1)) path)
                  = address ++ String ":" location) by (symmetry; exact Hs).
      apply last_split_unique in E as [E _]; [|exact Hno|exact Location].
      apply Address. now symmetry. }
  destruct (strings.LastIndexByte path ":" <=? 0)%Z eqn:Le;
    [apply Z.leb_le in Le; lia|].
  destruct (LastIndexByte_split path ":" _ eq_refl ltac:(lia)) as (Hs & Hno & _).
  assert (E : strings.take (Z.to_nat (strings.LastIndexByte path ":")) path
              ++ String ":"
                   (strings.drop (Z.to_nat (strings.LastIndexByte path ":" + 1))
                                 path)
              = address ++ String ":" location) by (symmetry; exact Hs).
  apply last_split_unique in E as [-> ->]; [reflexivity|exact Hno|exact Location].
Qed.

Lemma splitExportLocation_splits_joined_witness :
  sharebackends.splitExportLocation
    {| shares.Path := "10.0.0.1:6789,10.0.0.2:6789:/volumes/v1" |}
  = ("10.0.0.1:6789,10.0.0.2:6789", "/volumes/v1", None).
Proof.
  apply (splitExportLocation_splits_joined
           "10.0.0.1:6789,10.0.0.2:6789" "/volumes/v1").
  - discriminate.
  - unfold strings.occurs. cbn. intros H.
    repeat (destruct H as [H|H]; [discriminate H|]). exact H.
Defined.

(** ** Access rights: [getAccess] *)

Lemma find_first {A : Type} (f : A -> bool) (l : list A) :
  match find f l with
  | Some x => exists before after,
                l = (before ++ x :: after)%list /\ f x = true
                /\ forall y, In y before -> f y = false
  | None => forall y, In y l -> f y = false
  end.
Proof.
  induction l as [|a l IH]; cbn [find].
  - intros y [].
  - destruct (f a) eqn:Fa.
    + exists [], l. split; [reflexivity|]. split; [exact Fa|]. intros y [].
    + destruct (find f l) as [x|].
      * destruct IH as (before & after & -> & Fx & Hb).
        exists (a :: before), after. split; [reflexivity|]. split; [exact Fx|].
        intros y [<-|I]; [exact Fa|now apply Hb].
      * intros y [<-|I]; [exact Fa|now apply IH].
Qed.

(** X2. [getAccess] makes one request, the listing of the share's access
    rights.  When the listing fails it returns nil and that error.
    Otherwise it returns the first access right of the listing whose ID
    is [accessID], with a nil error; when no access right of the listing
    has that ID it returns nil and an error that names the access rule
    and the share. *)
Theorem getAccess_first_match (S : Type) (h : manila.handler S)
  (shareID accessID : string) (s : S) :
  let '(a, s1) := h (listing shareID) s in
  exists p err,
    manila.run h (sharebackends.getAccess shareID accessID) s
    = (Some (p, err), s1, [manila.Ev (listing shareID) a])
    /\ match a with
       | inl e => p = None /\ err = Some e
       | inr accessRights =>
           (exists before x after,
               accessRights = (before ++ x :: after)%list
               /\ AccessRight.ID x = accessID
               /\ (forall y, In y before -> AccessRight.ID y <> accessID)
               /\ p = Some x /\ err = None)
           \/ ((forall y, In y accessRights -> AccessRight.ID y <> accessID)
               /\ p = None
               /\ err = Some ("access rule " ++ accessID ++ " for share "
                                ++ shareID ++ " not found"))
       end.
Proof.
  unfold sharebackends.getAccess, listing. cbn [manila.run].
  destruct (h (manila.Client (manilaclient.GetAccessRights shareID)) s)
    as [[e|accessRights] s1].
  - exists None, (Some e). cbn. auto.
  - pose proof (find_first (fun a => String.eqb (AccessRight.ID a) accessID)
                           accessRights) as F.
    destruct (find _ accessRights) as [x|].
    + exists (Some x), None. cbn [manila.run]. split; [reflexivity|]. left.
      destruct F as (before & after & E & Fx & Hb).
      exists before, x, after. split; [exact E|].
      split; [now apply String.eqb_eq|]. split; [|auto].
      intros y I. apply String.eqb_neq. now apply Hb.
    + eexists None, (Some _). cbn [manila.run]. split; [reflexivity|]. right.
      split; [|auto]. intros y I. apply String.eqb_neq. now apply F.
Qed.

(** ** Access rights: waiting for the key *)

Lemma manila_run_bind {S A B : Type} (h : manila.handler S)
  (m : manila.prog A) (f : A -> manila.prog B) (s : S) :
  manila.run h (manila.bind m f) s
  = let '(r, s1, t1) := manila.run h m s in
    match r with
    | None => (None, s1, t1)
    | Some a => let '(r2, s2, t2) := manila.run h (f a) s1 in
                (r2, s2, (t1 ++ t2)%list)
    end.
Proof.
  revert s; induction m as [a|q k IH|]; intros s; cbn [manila.bind manila.run].
  - destruct (manila.run h (f a) s) as [[r2 s2] t2]. reflexivity.
  - destruct (h q s) as [a s1]. rewrite IH.
    destruct (manila.run h (k a) s1) as [[[a1|] s2] t1].
    + destruct (manila.run h (f a1) s2) as [[r2 s3] t2]. reflexivity.
    + reflexivity.
  - reflexivity.
Qed.

Section Polling.
Context {S : Type} (h : manila.handler S) (args : GrantAccessArgs.t).

Let shareID := Share.ID (GrantAccessArgs.Share args).

Lemma WaitFor_polled (n : nat) (s : S) :
  let '(r, _, t) :=
    manila.run h (gophercloud.WaitFor n
                    (sharebackends.grantAccessCephx_predicate args)
                    AccessRight.zero) s in
  exists o, r = Some o /\ polled shareID n t o.
Proof.
  revert s; induction n as [|n IH]; intros s.
  - cbn. eexists. split; [reflexivity|constructor].
  - cbn [gophercloud.WaitFor manila.run].
    destruct (h manila.TimeIsUp s) as [[|] s1].
    + cbn. eexists. split; [reflexivity|constructor].
    + rewrite manila_run_bind.
      unfold sharebackends.grantAccessCephx_predicate at 1. cbn [manila.run].
      fold shareID.
      destruct (h (manila.Client (manilaclient.GetAccessRights shareID)) s1)
        as [[e|accessRights] s2].
      * cbn. eexists. split; [reflexivity|]. apply polled_error.
      * destruct accessRights as [|a [|b rest]].
        -- cbn [List.length Nat.ltb Nat.leb Nat.eqb manila.run app].
           specialize (IH s2).
           destruct (manila.run h (gophercloud.WaitFor n _ AccessRight.zero) s2)
             as [[r s3] t].
           destruct IH as (o & -> & P). exists o. split; [reflexivity|].
           now apply polled_again.
        -- cbn [List.length Nat.ltb Nat.leb Nat.eqb nth_error].
           destruct (String.eqb_spec (AccessRight.AccessKey a) "") as [E|NE];
             cbn [negb manila.run app].
           ++ specialize (IH s2).
              destruct (manila.run h (gophercloud.WaitFor n _ AccessRight.zero) s2)
                as [[r s3] t].
              destruct IH as (o & -> & P). exists o. split; [reflexivity|].
              apply polled_again; [|exact P]. cbn. now apply String.eqb_eq.
           ++ eexists. split; [reflexivity|]. now apply polled_key.
        -- cbn [List.length Nat.ltb Nat.leb manila.run app].
           eexists. split; [reflexivity|].
           apply (polled_crowded shareID n (a :: b :: rest)). cbn. lia.
Qed.

End Polling.

Lemma polled_success (shareID : string) (n : nat) (t : list manila.event)
  (v : AccessRight.t) :
  polled shareID n t (v, None) ->
  AccessRight.AccessKey v <> ""
  /\ exists t0, t = (t0 ++ [manila.Ev (listing shareID) (inr [v])])%list.
Proof.
  intros P. remember (v, @None error) as o eqn:Eo.
  induction P as [|n|n e|n rs L|n a K|n rs t r Pe P IH]; try discriminate.
  - injection Eo as <-. split; [exact K|].
    now exists [manila.Ev manila.TimeIsUp false].
  - destruct (IH Eo) as (K & t0 & ->). split; [exact K|].
    now exists (manila.Ev manila.TimeIsUp false
                  :: manila.Ev (listing shareID) (inr rs) :: t0).
Qed.

Lemma polled_failure (shareID : string) (n : nat) (t : list manila.event)
  (v : AccessRight.t) (e : error) :
  polled shareID n t (v, Some e) -> v = AccessRight.zero.
Proof.
  intros P. remember (v, Some e) as o eqn:Eo.
  induction P; try (injection Eo as <- _; reflexivity); try discriminate.
  auto.
Qed.

Lemma polled_bounded (shareID : string) (n : nat) (t : list manila.event)
  (o : AccessRight.t * option error) :
  polled shareID n t o ->
  List.length (listings t) <= n /\ Forall (waits_on shareID) t.
Proof.
  induction 1 as [|n|n e|n rs L|n a K|n rs t r Pe P IH]; cbn.
  - split; [lia|constructor].
  - split; [lia|]. repeat constructor.
  - split; [lia|]. repeat constructor.
  - split; [lia|]. repeat constructor.
  - split; [lia|]. repeat constructor.
  - destruct IH as [L F]. split; [lia|]. now repeat constructor.
Qed.

Lemma polled_listings (shareID : string) (n : nat) (t : list manila.event)
  (o : AccessRight.t * option error) :
  polled shareID n t o ->
  (forall l1 a l2,
      listings t = (l1 ++ a :: l2)%list -> l2 <> [] ->
      exists accessRights, a = inr accessRights /\ pending accessRights = true)
  /\ (forall l1 a,
         listings t = (l1 ++ [a])%list ->
         match a with
         | inl e => o = (AccessRight.zero, Some e)
         | inr accessRights =>
             (1 < List.length accessRights ->
              o = (AccessRight.zero, Some (crowded (List.length accessRights))))
             /\ (forall x, accessRights = [x] ->
                           AccessRight.AccessKey x <> "" -> o = (x, None))
             /\ (pending accessRights = true ->
                 o = (AccessRight.zero, Some gophercloud.timeoutError))
         end)
  /\ (listings t = [] -> o = (AccessRight.zero, Some gophercloud.timeoutError)).
Proof.
  assert (One : forall (A : Type) (l1 l2 : list A) (a b : A),
             [b] = (l1 ++ a :: l2)%list -> l1 = [] /\ a = b /\ l2 = []).
  { intros A [|x l1] l2 a b E; cbn in E.
    - injection E as -> <-. auto.
    - injection E as _ E. destruct l1; discriminate. }
  induction 1 as [|n|n e|n rs L|n a K|n rs t r Pe P IH]; cbn [listings].
  - split; [|split]; [intros [|] ? ? E; discriminate
                     |intros [|] ? E; discriminate|reflexivity].
  - split; [|split]; [intros [|] ? ? E; discriminate
                     |intros [|] ? E; discriminate|reflexivity].
  - split; [|split]; [| |discriminate].
    + intros l1 a l2 E N. apply One in E as (_ & _ & ->). now elim N.
    + intros l1 a E. apply One in E as (_ & -> & _). reflexivity.
  - split; [|split]; [| |discriminate].
    + intros l1 a l2 E N. apply One in E as (_ & _ & ->). now elim N.
    + intros l1 a E. apply One in E as (_ & -> & _).
      split; [reflexivity|]. split.
      * intros x ->. cbn in L. lia.
      * intros Pe. destruct rs as [|x [|y rs]]; cbn in L, Pe; try lia; discriminate.
  - split; [|split]; [| |discriminate].
    + intros l1 b l2 E N. apply One in E as (_ & _ & ->). now elim N.
    + intros l1 b E. apply One in E as (_ & -> & _).
      split; [cbn; lia|]. split.
      * intros x E _. now injection E as ->.
      * cbn. intros Pe. apply String.eqb_eq in Pe. contradiction.
  - destruct IH as (Mid & Last & Empty). split; [|split]; [| |discriminate].
    + intros [|b l1] a l2 E N; cbn in E.
      * injection E as <- _. now exists rs.
      * injection E as _ E. now apply (Mid l1 a l2).
    + intros [|b l1] a E; cbn in E.
      * injection E as <- E. rewrite (Empty E).
        split; [|split]; [| |reflexivity].
        -- intros L. destruct rs as [|x [|y rs]]; cbn in L, Pe; try lia; discriminate.
        -- intros x -> K. cbn in Pe. apply String.eqb_eq in Pe. contradiction.
      * injection E as _ E. now apply (Last l1 a).
Qed.

Lemma run_grantAccessCephx {S : Type} (h : manila.handler S)
  (args : GrantAccessArgs.t) (s : S) :
  let '(g, s1) := h (granting args) s in
  match g with
  | inl e =>
      manila.run h (sharebackends.grantAccessCephx args) s
      = (Some (None, Some e), s1, [manila.Ev (granting args) g])
  | inr _ =>
      exists v err s2 t,
        manila.run h (sharebackends.grantAccessCephx args) s
        = (Some (Some v, err), s2, manila.Ev (granting args) g :: t)
        /\ polled (Share.ID (GrantAccessArgs.Share args)) 120 t (v, err)
  end.
Proof.
  unfold sharebackends.grantAccessCephx, granting, cephxOpts.
  cbn [manila.run].
  destruct (h _ s) as [[e|x] s1]; [reflexivity|].
  rewrite manila_run_bind.
  pose proof (WaitFor_polled h args 120 s1) as W.
  destruct (manila.run h (gophercloud.WaitFor 120 _ AccessRight.zero) s1)
    as [[r s2] t].
  destruct W as ([v err] & -> & P).
  exists v, err, s2, t. cbn [manila.run]. rewrite app_nil_r. now split.
Qed.

(** X3. When [grantAccessCephx] returns a nil error, the pointer it
    returns is not nil, the access right behind it has a nonempty key,
    and that access right is the only one of the last listing, which is
    the last request made. *)
Theorem grantAccessCephx_returns_keyed_right (S : Type) (h : manila.handler S)
  (args : GrantAccessArgs.t) (s : S) :
  let '(r, _, t) := manila.run h (sharebackends.grantAccessCephx args) s in
  forall p, r = Some (p, None) ->
    exists a t0,
      p = Some a
      /\ AccessRight.AccessKey a <> ""
      /\ t = (manila.Ev (granting args) (fst (h (granting args) s)) :: t0
              ++ [manila.Ev (listing (Share.ID (GrantAccessArgs.Share args)))
                            (inr [a])])%list.
Proof.
  pose proof (run_grantAccessCephx h args s) as R.
  destruct (h (granting args) s) as [[e|x] s1]; cbn [fst].
  - rewrite R. intros p E. discriminate.
  - destruct R as (v & err & s2 & t & -> & P).
    intros p E. injection E as <- ->.
    apply polled_success in P as (K & t0 & ->).
    now exists v, t0.
Qed.

(** X4. [grantAccessCephx] first asks Manila to grant access to the share
    with type cephx, level rw and the share's name as [AccessTo].  When
    that fails nothing else is requested and the results are nil and
    that error.  Every later request asks the clock or lists the access
    rights of the same share, and the access rights are listed at most
    120 times. *)
Theorem grantAccessCephx_bounded_wait (S : Type) (h : manila.handler S)
  (args : GrantAccessArgs.t) (s : S) :
  let '(r, _, t) := manila.run h (sharebackends.grantAccessCephx args) s in
  exists g t',
    t = manila.Ev (granting args) g :: t'
    /\ (forall e, g = inl e -> t' = [] /\ r = Some (None, Some e))
    /\ Forall (waits_on (Share.ID (GrantAccessArgs.Share args))) t'
    /\ List.length (listings t) <= 120.
Proof.
  pose proof (run_grantAccessCephx h args s) as R.
  destruct (h (granting args) s) as [[e|x] s1].
  - rewrite R. exists (inl e), []. split; [reflexivity|].
    split; [intros e' E; injection E as <-; now split|].
    split; [constructor|cbn; lia].
  - destruct R as (v & err & s2 & t & -> & P).
    exists (inr x), t. split; [reflexivity|].
    split; [intros e' E; discriminate|].
    apply polled_bounded in P as [L F]. split; [exact F|exact L].
Qed.

(** X5. What the listings make of the wait.  Every listing but the last
    succeeded and was pending: it showed no access right, or a single one
    with an empty key.  The last listing decides: its error is returned;
    more than one access right gives the error that tells their number;
    a single access right with a key is returned with a nil error; a
    pending one means the wait timed out.  In each case but the keyed
    one the pointer returned refers to a zero access right. *)
Theorem grantAccessCephx_waits_for_key (S : Type) (h : manila.handler S)
  (args : GrantAccessArgs.t) (s : S) :
  let '(r, _, t) := manila.run h (sharebackends.grantAccessCephx args) s in
  (forall l1 a l2,
      listings t = (l1 ++ a :: l2)%list -> l2 <> [] ->
      exists accessRights, a = inr accessRights /\ pending accessRights = true)
  /\ (forall l1 a,
         listings t = (l1 ++ [a])%list ->
         match a with
         | inl e => r = Some (Some AccessRight.zero, Some e)
         | inr accessRights =>
             (1 < List.length accessRights ->
              r = Some (Some AccessRight.zero,
                        Some (crowded (List.length accessRights))))
             /\ (forall x, accessRights = [x] ->
                           AccessRight.AccessKey x <> "" ->
                           r = Some (Some x, None))
             /\ (pending accessRights = true ->
                 r = Some (Some AccessRight.zero,
                           Some gophercloud.timeoutError))
         end).
Proof.
  pose proof (run_grantAccessCephx h args s) as R.
  destruct (h (granting args) s) as [[e|x] s1].
  - rewrite R. cbn. split.
    + intros [|] ? ? E; discriminate.
    + intros [|] ? E; discriminate.
  - destruct R as (v & err & s2 & t & -> & P).
    apply polled_listings in P as (Mid & Last & _).
    cbn [listings granting]. split; [exact Mid|].
    intros l1 a E. specialize (Last l1 a E).
    destruct a as [e|rs].
    + now injection Last as -> ->.
    + destruct Last as (L1 & L2 & L3). split; [|split].
      * intros L. now injection (L1 L) as -> ->.
      * intros y Ey K. now injection (L2 y Ey K) as -> ->.
      * intros Pe. now injection (L3 Pe) as -> ->.
Qed.

Lemma WaitFor_gives_up {S : Type} (h : manila.handler S)
  (args : GrantAccessArgs.t)
  (Clock : forall s, fst (h manila.TimeIsUp s) = false)
  (Keyless : forall s, exists accessRights,
        fst (h (listing (Share.ID (GrantAccessArgs.Share args))) s)
        = inr accessRights
        /\ pending accessRights = true)
  (n : nat) (s : S) :
  let '(r, _, t) :=
    manila.run h (gophercloud.WaitFor n
                    (sharebackends.grantAccessCephx_predicate args)
                    AccessRight.zero) s in
  r = Some (AccessRight.zero, Some gophercloud.timeoutError)
  /\ List.length (listings t) = n.
Proof.
  revert s; induction n as [|n IH]; intros s.
  - cbn. now split.
  - cbn [gophercloud.WaitFor manila.run].
    specialize (Clock s). destruct (h manila.TimeIsUp s) as [up s1].
    cbn in Clock. subst up. rewrite manila_run_bind.
    unfold sharebackends.grantAccessCephx_predicate at 1.
    cbn [manila.run].
    destruct (Keyless s1) as (rs & E & Pe). unfold listing in E.
    destruct (h (manila.Client _) s1) as [g s2]. cbn in E. subst g.
    specialize (IH s2).
    destruct rs as [|x [|y rs]]; try discriminate.
    + cbn [List.length Nat.ltb Nat.leb Nat.eqb manila.run app].
      destruct (manila.run h _ s2) as [[r3 s3] t3].
      destruct IH as [-> L]. split; [reflexivity|]. cbn. now rewrite L.
    + cbn in Pe. cbn [List.length Nat.ltb Nat.leb Nat.eqb nth_error].
      rewrite Pe. cbn [negb manila.run app].
      destruct (manila.run h _ s2) as [[r3 s3] t3].
      destruct IH as [-> L]. split; [reflexivity|]. cbn. now rewrite L.
Qed.

(** X6. When access is granted but the key never shows up (every listing
    is pending and the clock never cuts a round short),
    [grantAccessCephx] lists the access rights 120 times and then
    returns the timeout error, next to a pointer that is not nil and
    refers to a zero access right. *)
Theorem grantAccessCephx_gives_up (S : Type) (h : manila.handler S)
  (args : GrantAccessArgs.t) (s : S) (x : AccessRight.t)
  (Granted : fst (h (granting args) s) = inr x)
  (Clock : forall s', fst (h manila.TimeIsUp s') = false)
  (Keyless : forall s', exists accessRights,
        fst (h (listing (Share.ID (GrantAccessArgs.Share args))) s')
        = inr accessRights
        /\ pending accessRights = true) :
  let '(r, _, t) := manila.run h (sharebackends.grantAccessCephx args) s in
  r = Some (Some AccessRight.zero, Some gophercloud.timeoutError)
  /\ List.length (listings t) = 120.
Proof.
  unfold sharebackends.grantAccessCephx. cbn [manila.run].
  unfold granting, cephxOpts in Granted.
  destruct (h (manila.Client _) s) as [g s1]. cbn in Granted. subst g.
  rewrite manila_run_bind.
  pose proof (WaitFor_gives_up h args Clock Keyless 120 s1) as W.
  destruct (manila.run h (gophercloud.WaitFor 120 _ AccessRight.zero) s1)
    as [[r s2] t].
  destruct W as [-> L]. cbn [manila.run]. rewrite app_nil_r.
  split; [reflexivity|exact L].
Qed.

Lemma grantAccessCephx_gives_up_witness :
  fst (fst (manila.run access.idle (sharebackends.grantAccessCephx access.argsNew) tt))
  = Some (Some AccessRight.zero, Some gophercloud.timeoutError).
Proof.
  pose proof (grantAccessCephx_gives_up unit access.idle access.argsNew tt AccessRight.zero
                eq_refl (fun _ => eq_refl)
                (fun _ => ex_intro _ [] (conj eq_refl eq_refl))) as G.
  destruct (manila.run access.idle (sharebackends.grantAccessCephx access.argsNew) tt)
    as [[r s] t].
  exact (proj1 G).
Defined.

(** ** Access rights: [getOrCreateCephxAccess] *)

Lemma run_getAccess {S : Type} (h : manila.handler S)
  (shareID accessID : string) (s : S) :
  exists p err,
    manila.run h (sharebackends.getAccess shareID accessID) s
    = (Some (p, err), snd (h (listing shareID) s),
       [manila.Ev (listing shareID) (fst (h (listing shareID) s))])
    /\ (err = None ->
        exists a accessRights,
          p = Some a /\ AccessRight.ID a = accessID
          /\ fst (h (listing shareID) s) = inr accessRights
          /\ In a accessRights)
    /\ (err <> None -> p = None).
Proof.
  unfold sharebackends.getAccess, listing. cbn [manila.run].
  destruct (h (manila.Client (manilaclient.GetAccessRights shareID)) s)
    as [[e|accessRights] s1]; cbn [fst snd].
  - exists None, (Some e). cbn. split; [reflexivity|]. split; [discriminate|auto].
  - destruct (find _ accessRights) as [x|] eqn:F.
    + exists (Some x), None. cbn [manila.run]. split; [reflexivity|].
      split; [|intros N; now elim N]. intros _.
      apply find_some in F as [I E]. apply String.eqb_eq in E.
      now exists x, accessRights.
    + eexists None, (Some _). cbn [manila.run]. split; [reflexivity|].
      split; [discriminate|auto].
Qed.

(** X7. Whatever Manila and the clock reply, [getOrCreateCephxAccess]
    does not panic (it never reads through a nil pointer), and of its
    two results exactly one is nil: with a nil error it returns an access
    right of type cephx whose [AccessKey] and [AccessTo] are nonempty;
    with an error it returns a nil pointer. *)
Theorem getOrCreateCephxAccess_contract (S : Type) (h : manila.handler S)
  (args : GrantAccessArgs.t) (s : S) :
  let '(r, _, _) := manila.run h (sharebackends.getOrCreateCephxAccess args) s in
  exists p err,
    r = Some (p, err)
    /\ match err with
       | None =>
           exists a, p = Some a
                     /\ AccessRight.AccessType a = "cephx"
                     /\ AccessRight.AccessKey a <> ""
                     /\ AccessRight.AccessTo a <> ""
       | Some _ => p = None
       end.
Proof.
  unfold sharebackends.getOrCreateCephxAccess. rewrite manila_run_bind.
  assert (First :
    let '(r, _, _) :=
      manila.run h
        (if negb (String.eqb (ShareOptions.OSShareAccessID
                                (GrantAccessArgs.Options args)) "")
         then sharebackends.getAccess
                (Share.ID (GrantAccessArgs.Share args))
                (ShareOptions.OSShareAccessID (GrantAccessArgs.Options args))
         else sharebackends.grantAccessCephx args) s in
    exists p err, r = Some (p, err) /\ (err = None -> p <> None)).
  { destruct (negb _).
    - destruct (run_getAccess h (Share.ID (GrantAccessArgs.Share args))
                  (ShareOptions.OSShareAccessID (GrantAccessArgs.Options args)) s)
        as (p & err & -> & Ok & _).
      exists p, err. split; [reflexivity|].
      intros E. destruct (Ok E) as (a & _ & -> & _). discriminate.
    - pose proof (run_grantAccessCephx h args s) as R.
      destruct (h (granting args) s) as [[e|x] s1].
      + rewrite R. exists None, (Some e). split; [reflexivity|discriminate].
      + destruct R as (v & err & s2 & t & -> & _).
        exists (Some v), err. split; [reflexivity|discriminate]. }
  destruct (manila.run h (if negb _ then _ else _) s) as [[r s1] t1].
  destruct First as (p & err & -> & NonNil).
  destruct err as [e|].
  - cbn. exists None, (Some e). now split.
  - destruct p as [a|]; [|now elim (NonNil eq_refl)].
    destruct (String.eqb_spec (AccessRight.AccessType a) "cephx") as [T|T];
      cbn [negb].
    + destruct (String.eqb_spec (AccessRight.AccessKey a) "") as [K|K];
        cbn [orb].
      * cbn. eexists None, (Some _). now split.
      * destruct (String.eqb_spec (AccessRight.AccessTo a) "") as [A|A].
        -- cbn. eexists None, (Some _). now split.
        -- cbn. exists (Some a), None. split; [reflexivity|]. now exists a.
    + cbn. eexists None, (Some _). now split.
Qed.

(** X8. When the options name an access right ([OSShareAccessID] is
    not empty), [getOrCreateCephxAccess] makes one request, the listing
    of the share's access rights: it grants nothing and never asks the
    clock.  An access right it returns has the ID the options name and
    comes from that listing. *)
Theorem getOrCreateCephxAccess_reuses_rule (S : Type) (h : manila.handler S)
  (args : GrantAccessArgs.t) (s : S)
  (Given : ShareOptions.OSShareAccessID (GrantAccessArgs.Options args) <> "") :
  let shareID := Share.ID (GrantAccessArgs.Share args) in
  let accessID := ShareOptions.OSShareAccessID (GrantAccessArgs.Options args) in
  let '(r, s1, t) := manila.run h (sharebackends.getOrCreateCephxAccess args) s in
  t = [manila.Ev (listing shareID) (fst (h (listing shareID) s))]
  /\ s1 = snd (h (listing shareID) s)
  /\ forall a, r = Some (Some a, None) ->
       AccessRight.ID a = accessID
       /\ exists accessRights,
            fst (h (listing shareID) s) = inr accessRights
            /\ In a accessRights.
Proof.
  cbv zeta. unfold sharebackends.getOrCreateCephxAccess.
  rewrite manila_run_bind.
  destruct (String.eqb_spec (ShareOptions.OSShareAccessID
                               (GrantAccessArgs.Options args)) "") as [E|_];
    [contradiction|]. cbn [negb].
  destruct (run_getAccess h (Share.ID (GrantAccessArgs.Share args))
              (ShareOptions.OSShareAccessID (GrantAccessArgs.Options args)) s)
    as (p & err & -> & Ok & Bad).
  destruct err as [e|].
  - cbn. split; [reflexivity|]. split; [reflexivity|]. intros a R. discriminate.
  - destruct (Ok eq_refl) as (a & accessRights & -> & Ea & El & I).
    destruct (negb (String.eqb (AccessRight.AccessType a) "cephx")).
    + cbn. split; [reflexivity|]. split; [reflexivity|]. intros a' R. discriminate.
    + destruct (String.eqb (AccessRight.AccessKey a) ""
                || String.eqb (AccessRight.AccessTo a) "").
      * cbn. split; [reflexivity|]. split; [reflexivity|]. intros a' R. discriminate.
      * cbn. split; [reflexivity|]. split; [reflexivity|].
        intros a' R. injection R as <-. split; [exact Ea|].
        now exists accessRights.
Qed.

Lemma getOrCreateCephxAccess_reuses_rule_witness :
  ShareOptions.OSShareAccessID (GrantAccessArgs.Options access.argsGiven) <> ""
  /\ snd (manila.run access.idle (sharebackends.getOrCreateCephxAccess access.argsGiven) tt)
     = [manila.Ev (listing "share-1") (inr [])].
Proof.
  split; [discriminate|].
  pose proof (getOrCreateCephxAccess_reuses_rule unit access.idle access.argsGiven tt
                ltac:(discriminate)) as G.
  cbv zeta in G.
  destruct (manila.run access.idle (sharebackends.getOrCreateCephxAccess access.argsGiven) tt)
    as [[r s] t].
  exact (proj1 G).
Defined.

(** ** Names built to the format *)

Lemma underscores_append (a b : string) :
  underscores (a ++ b) = underscores a + underscores b.
Proof. unfold underscores. rewrite bytes_append. apply count_occ_app. Qed.

Lemma underscores_none (x : string) :
  all_in regexp.NotUnderscore x -> underscores x = 0.
Proof.
  unfold underscores, all_in. induction x as [|a x IH]; cbn [strings.bytes].
  - reflexivity.
  - intros H. inversion H as [|? ? Ha Hx]; subst.
    cbn [regexp.in_class] in Ha. apply negb_true_iff in Ha.
    apply Ascii.eqb_neq in Ha.
    rewrite count_occ_cons_neq by exact Ha. now apply IH.
Qed.

Lemma not_underscore_absent (x : string) :
  all_in regexp.NotUnderscore x -> ~ strings.occurs "_" x.
Proof.
  unfold all_in, strings.occurs. intros H I.
  rewrite Forall_forall in H. specialize (H _ I). discriminate H.
Qed.

Lemma append_comparable (a x b y : string) :
  a ++ x = b ++ y -> String.length b <= String.length a ->
  exists d, a = b ++ d /\ y = d ++ x.
Proof.
  revert b; induction a as [|c a IH]; intros [|c' b] E L; cbn in *.
  - now exists "".
  - lia.
  - now exists (String c a).
  - injection E as -> E. destruct (IH b E ltac:(lia)) as (d & -> & ->).
    now exists d.
Qed.

Lemma digits_split_unique (d d' x x' : string) :
  all_in regexp.Digit d -> all_in regexp.Digit d' ->
  d ++ "_" ++ x = d' ++ "_" ++ x' -> d = d' /\ x = x'.
Proof.
  assert (ND : forall a, regexp.in_class regexp.Digit a = true -> a <> "_"%char).
  { intros a H ->. discriminate H. }
  revert d'; induction d as [|a d IH]; intros [|a' d'] H H' E; cbn in E.
  - injection E as ->. now split.
  - injection E as <- _. apply all_in_cons in H' as [H' _].
    now elim (ND _ H').
  - injection E as -> _. apply all_in_cons in H as [H _].
    now elim (ND _ H).
  - injection E as -> E.
    apply all_in_cons in H as [_ H]. apply all_in_cons in H' as [_ H'].
    destruct (IH d' H H' E) as [-> ->]. now split.
Qed.

Lemma prefixText_unique (p : ResourcePrefix) (pre pre' x x' : string) :
  prefixText p pre -> prefixText p pre' ->
  pre ++ x = pre' ++ x' -> pre = pre' /\ x = x'.
Proof.
  destruct p as [|prefix]; cbn [prefixText].
  - intros -> ->. cbn. now split.
  - intros (d & -> & _ & D) (d' & -> & _ & D') E.
    rewrite !append_assoc in E. apply append_inv_head in E.
    destruct (digits_split_unique d d' x x' D D' E) as [-> ->]. now split.
Qed.

(** a name built to the format decodes to its three fields *)
Lemma decode_formatted (cfg : Prefixes) (p : ResourcePrefix)
  (raw pre cn ns nm : string) :
  occurrence cfg p raw "" pre cn ns nm "" ->
  openstack.decomposeLBName cfg p raw = (cn, ns, nm).
Proof.
  intros O.
  destruct (decomposeLBName_cases cfg p raw)
    as [[No _]|(before & pre' & c & n & m & after & O' & E & Left & Long & Tail)].
  - now elim (No _ _ _ _ _ _ O).
  - rewrite E.
    specialize (Left _ _ _ _ _ _ O). cbn in Left.
    destruct before; [|cbn in Left; lia].
    specialize (Long _ _ _ _ _ O).
    destruct O as (Er & Hp & Hc & Hn & Hm).
    destruct O' as (Er' & Hp' & Hc' & Hn' & Hm').
    cbn [append] in Er, Er'. rewrite Er in Er'.
    apply (prefixText_unique p _ _ _ _ Hp Hp') in Er' as [<- Er'].
    apply append_inv_head in Er'.
    rewrite append_nil_r in Er'.
    destruct Tail as [->|[r ->]].
    + rewrite append_nil_r in Er'.
      assert (E1 : (cn ++ "_" ++ ns) ++ String "_" nm
                   = (c ++ "_" ++ n) ++ String "_" m).
      { rewrite !append_assoc. exact Er'. }
      apply last_split_unique in E1 as [E1 ->];
        [|apply not_underscore_absent; tauto..].
      assert (E2 : cn ++ String "_" ns = c ++ String "_" n) by exact E1.
      apply last_split_unique in E2 as [-> ->];
        [|apply not_underscore_absent; tauto..].
      reflexivity.
    + exfalso.
      destruct (append_comparable c ("_" ++ n ++ "_" ++ m ++ String "_" r)
                  cn ("_" ++ ns ++ "_" ++ nm) (eq_sym Er') Long)
        as (d & _ & E2).
      apply (f_equal underscores) in E2.
      rewrite !underscores_append in E2.
      rewrite (underscores_none ns), (underscores_none nm) in E2 by tauto.
      rewrite (underscores_none n), (underscores_none m) in E2 by tauto.
      change (String "_" r) with ("_" ++ r) in E2.
      rewrite underscores_append in E2.
      change (underscores "_") with 1 in E2. lia.
Qed.

Lemma append_same_length (a x b y : string) :
  a ++ x = b ++ y -> String.length a = String.length b -> a = b /\ x = y.
Proof.
  intros E L.
  destruct (append_comparable a x b y E ltac:(lia)) as (d & Ea & Ey).
  rewrite Ea, length_append in L. destruct d; [|cbn in L; lia].
  rewrite append_nil_r in Ea. now split.
Qed.

Lemma replace_field (head old rest new : string) :
  no_occurrence_before old (head ++ old ++ rest) (String.length head) ->
  strings.Replace1 (head ++ old ++ rest) old new = head ++ new ++ rest.
Proof.
  intros First.
  destruct (Replace1_occurs (head ++ old ++ rest) old new)
    as (a & b & E & R & Left); [now exists head, rest|].
  specialize (First a b E). specialize (Left head rest eq_refl).
  apply append_same_length in E as [<- E]; [|lia].
  apply append_inv_head in E as <-. exact R.
Qed.

(** X9. [decomposeLBName] reads back the fields of a name built to the
    format: the resource prefix, the service prefix, then cluster name,
    namespace and name joined by '_'.  The cluster name may hold '_' (but
    no newline); namespace and name hold none. *)
Theorem decomposeLBName_reads_back_fields (cfg : Prefixes)
  (p : ResourcePrefix) (pre cn ns nm : string)
  (Pre : prefixText p pre)
  (Cn : cn <> "" /\ all_in regexp.AnyButNewline cn)
  (Ns : ns <> "" /\ all_in regexp.NotUnderscore ns)
  (Nm : nm <> "" /\ all_in regexp.NotUnderscore nm) :
  openstack.decomposeLBName cfg p
    (pre ++ servicePrefix cfg ++ cn ++ "_" ++ ns ++ "_" ++ nm)
  = (cn, ns, nm).
Proof.
  apply decode_formatted with (pre := pre).
  unfold occurrence. cbn [append]. rewrite append_nil_r. tauto.
Qed.

Ltac all_in_now := unfold all_in; cbn; repeat constructor.

Lemma decomposeLBName_reads_back_fields_witness :
  openstack.decomposeLBName upstream (Numbered "listener_")
    "listener_12_kube_service_east_1_prod_web"
  = ("east_1", "prod", "web").
Proof.
  apply (decomposeLBName_reads_back_fields upstream (Numbered "listener_")
           "listener_12_" "east_1" "prod" "web").
  - exists "12". split; [reflexivity|]. split; [discriminate|all_in_now].
  - split; [discriminate|all_in_now].
  - split; [discriminate|all_in_now].
  - split; [discriminate|all_in_now].
Defined.

(** X10. For a load balancer whose name is built to the format,
    [lbHasOldClusterName] is true exactly when the cluster name in the
    name differs from the one asked about. *)
Theorem lbHasOldClusterName_compares_cluster_field (cfg : Prefixes)
  (lb : loadbalancers.LoadBalancer) (cn ns nm clusterName : string)
  (Name : loadbalancers.Name lb
          = servicePrefix cfg ++ cn ++ "_" ++ ns ++ "_" ++ nm)
  (Cn : cn <> "" /\ all_in regexp.AnyButNewline cn)
  (Ns : ns <> "" /\ all_in regexp.NotUnderscore ns)
  (Nm : nm <> "" /\ all_in regexp.NotUnderscore nm) :
  openstack.lbHasOldClusterName cfg lb clusterName = true <-> cn <> clusterName.
Proof.
  unfold openstack.lbHasOldClusterName.
  rewrite Name, HasPrefix_append. cbn [negb].
  rewrite (decode_formatted cfg NoPrefix _ "" cn ns nm).
  - destruct (String.eqb_spec cn clusterName) as [E|N]; cbn.
    + split; [discriminate|intros H; now elim H].
    + split; [intros _; exact N|reflexivity].
  - unfold occurrence. cbn. rewrite append_nil_r. tauto.
Qed.

Lemma lbHasOldClusterName_compares_cluster_field_witness :
  openstack.lbHasOldClusterName upstream scenario.lbA "clusterB" = true
  <-> "clusterA" <> "clusterB".
Proof.
  apply (lbHasOldClusterName_compares_cluster_field upstream scenario.lbA
           "clusterA" "ns1" "svc1" "clusterB").
  - reflexivity.
  - split; [discriminate|all_in_now].
  - split; [discriminate|all_in_now].
  - split; [discriminate|all_in_now].
Defined.

(** X11. A load balancer whose name starts with the service prefix but
    holds the pattern nowhere decodes to three empty fields, so
    [lbHasOldClusterName] reports an old cluster name for every
    nonempty cluster name asked about. *)
Theorem lbHasOldClusterName_shapeless_name (cfg : Prefixes)
  (lb : loadbalancers.LoadBalancer) (clusterName : string)
  (Prefixed : strings.HasPrefix (loadbalancers.Name lb) (servicePrefix cfg)
              = true)
  (Shapeless : forall before pre c n m after,
      ~ occurrence cfg NoPrefix (loadbalancers.Name lb) before pre c n m after) :
  openstack.decomposeLBName cfg NoPrefix (loadbalancers.Name lb) = ("", "", "")
  /\ (openstack.lbHasOldClusterName cfg lb clusterName = true
      <-> clusterName <> "").
Proof.
  assert (D : openstack.decomposeLBName cfg NoPrefix (loadbalancers.Name lb)
              = ("", "", "")).
  { destruct (decomposeLBName_cases cfg NoPrefix (loadbalancers.Name lb))
      as [[_ E]|(before & pre & c & n & m & after & O & _)]; [exact E|].
    now elim (Shapeless _ _ _ _ _ _ O). }
  split; [exact D|].
  unfold openstack.lbHasOldClusterName. rewrite Prefixed, D. cbn [negb].
  destruct (String.eqb_spec "" clusterName) as [E|N]; cbn.
  - split; [discriminate|intros H; now elim H].
  - split; [intros _ E; now elim N|reflexivity].
Qed.

Lemma lbHasOldClusterName_shapeless_name_witness :
  openstack.lbHasOldClusterName upstream
    {| loadbalancers.ID := "lb7";
       loadbalancers.Name := "kube_service_scratch";
       loadbalancers.Tags := [] |} "clusterB" = true.
Proof.
  apply (lbHasOldClusterName_shapeless_name upstream
           {| loadbalancers.ID := "lb7";
              loadbalancers.Name := "kube_service_scratch";
              loadbalancers.Tags := [] |} "clusterB"); [reflexivity| |discriminate].
  intros before pre c n m after O. cbn [loadbalancers.Name] in O.
  destruct (decomposeLBName_cases upstream NoPrefix "kube_service_scratch")
    as [[No _]|(b' & p' & c' & n' & m' & a' & O' & E & _)];
    [now apply (No _ _ _ _ _ _ O)|].
  vm_compute in E. injection E as <- _ _.
  destruct O' as (_ & _ & [Nc _] & _). now elim Nc.
Defined.

(** X12. In a name built to the format in which the old cluster name
    does not occur before its own field, [replaceClusterName] puts the
    new cluster name into that field and changes nothing else, and
    [decomposeLBName] reads the new cluster name, the namespace and the
    name off the result. *)
Theorem replaceClusterName_lands_on_target (cfg : Prefixes)
  (p : ResourcePrefix) (pre old new ns nm : string)
  (Pre : prefixText p pre)
  (Ns : ns <> "" /\ all_in regexp.NotUnderscore ns)
  (Nm : nm <> "" /\ all_in regexp.NotUnderscore nm)
  (New : new <> "" /\ all_in regexp.AnyButNewline new)
  (First : no_occurrence_before old
             (pre ++ servicePrefix cfg ++ old ++ "_" ++ ns ++ "_" ++ nm)
             (String.length (pre ++ servicePrefix cfg))) :
  let name := pre ++ servicePrefix cfg ++ old ++ "_" ++ ns ++ "_" ++ nm in
  openstack.replaceClusterName old new name
  = pre ++ servicePrefix cfg ++ new ++ "_" ++ ns ++ "_" ++ nm
  /\ openstack.decomposeLBName cfg p
       (openstack.replaceClusterName old new name)
     = (new, ns, nm).
Proof.
  cbv zeta.
  assert (R : openstack.replaceClusterName old new
                (pre ++ servicePrefix cfg ++ old ++ "_" ++ ns ++ "_" ++ nm)
              = pre ++ servicePrefix cfg ++ new ++ "_" ++ ns ++ "_" ++ nm).
  { unfold openstack.replaceClusterName.
    rewrite <- (append_assoc pre (servicePrefix cfg)) in *.
    rewrite (replace_field _ old _ new First).
    apply append_assoc. }
  rewrite R. split; [reflexivity|].
  apply decode_formatted with (pre := pre).
  unfold occurrence. cbn [append]. rewrite append_nil_r. tauto.
Qed.

(** in a concrete name, [old] does not start at any of the first
    positions *)
Ltac not_before :=
  let a := fresh "a" in let b := fresh "b" in let E := fresh "E" in
  intros a b E; cbn in E;
  repeat (destruct a as [|? a];
          [cbn in E; discriminate E
          |cbn in E; injection E as ? E; subst]);
  cbn; lia.

Lemma replaceClusterName_lands_on_target_witness :
  openstack.decomposeLBName upstream (Numbered "pool_")
    (openstack.replaceClusterName "clusterA" "clusterB"
       "pool_0_kube_service_clusterA_ns1_svc1")
  = ("clusterB", "ns1", "svc1").
Proof.
  apply (replaceClusterName_lands_on_target upstream (Numbered "pool_")
           "pool_0_" "clusterA" "clusterB" "ns1" "svc1").
  - exists "0". split; [reflexivity|]. split; [discriminate|all_in_now].
  - split; [discriminate|all_in_now].
  - split; [discriminate|all_in_now].
  - split; [discriminate|all_in_now].
  - not_before.
Defined.

(** X13. A tag built to the format, in which the old cluster name does
    not occur before its own field, is rewritten to the tag of the same
    namespace and name for the new cluster name; rewriting the result
    again changes nothing. *)
Theorem renameTag_retargets_formatted_tag (cfg : Prefixes)
  (old new ns nm : string)
  (Old : old <> "" /\ all_in regexp.AnyButNewline old)
  (Ns : ns <> "" /\ all_in regexp.NotUnderscore ns)
  (Nm : nm <> "" /\ all_in regexp.NotUnderscore nm)
  (New : new <> "" /\ all_in regexp.AnyButNewline new)
  (First : no_occurrence_before old
             (servicePrefix cfg ++ old ++ "_" ++ ns ++ "_" ++ nm)
             (String.length (servicePrefix cfg))) :
  let tag := servicePrefix cfg ++ old ++ "_" ++ ns ++ "_" ++ nm in
  openstack.renameTag cfg new tag
  = servicePrefix cfg ++ new ++ "_" ++ ns ++ "_" ++ nm
  /\ openstack.renameTag cfg new (openstack.renameTag cfg new tag)
     = openstack.renameTag cfg new tag.
Proof.
  cbv zeta.
  assert (Dec : forall c, c <> "" /\ all_in regexp.AnyButNewline c ->
            openstack.decomposeLBName cfg NoPrefix
              (servicePrefix cfg ++ c ++ "_" ++ ns ++ "_" ++ nm)
            = (c, ns, nm)).
  { intros c Hc. apply decode_formatted with (pre := "").
    unfold occurrence. cbn. rewrite append_nil_r. tauto. }
  assert (Once : openstack.renameTag cfg new
                   (servicePrefix cfg ++ new ++ "_" ++ ns ++ "_" ++ nm)
                 = servicePrefix cfg ++ new ++ "_" ++ ns ++ "_" ++ nm).
  { unfold openstack.renameTag. rewrite (Dec new New).
    rewrite String.eqb_refl. cbn. now rewrite andb_false_r. }
  assert (R : openstack.renameTag cfg new
                (servicePrefix cfg ++ old ++ "_" ++ ns ++ "_" ++ nm)
              = servicePrefix cfg ++ new ++ "_" ++ ns ++ "_" ++ nm).
  { unfold openstack.renameTag at 1. rewrite (Dec old Old).
    destruct (String.eqb_spec old "") as [E|_]; [now elim (proj1 Old)|].
    destruct (String.eqb_spec old new) as [<-|_]; cbn [negb andb].
    - reflexivity.
    - unfold openstack.replaceClusterName. now apply replace_field. }
  rewrite R. split; [reflexivity|exact Once].
Qed.

Lemma renameTag_retargets_formatted_tag_witness :
  openstack.renameTag upstream "clusterB" "kube_service_clusterA_ns1_svc2"
  = "kube_service_clusterB_ns1_svc2".
Proof.
  apply (renameTag_retargets_formatted_tag upstream
           "clusterA" "clusterB" "ns1" "svc2").
  - split; [discriminate|all_in_now].
  - split; [discriminate|all_in_now].
  - split; [discriminate|all_in_now].
  - split; [discriminate|all_in_now].
  - not_before.
Defined.

Lemma calls_of_app (k : kind) (t1 t2 : list event) :
  calls_of k (t1 ++ t2) = calls_of k t1 + calls_of k t2.
Proof. unfold calls_of. rewrite map_app. apply count_occ_app. Qed.

Lemma renameListener_calls (cfg : Prefixes) {S : Type} (h : handler S)
  (lb : loadbalancers.LoadBalancer) (cn : string) (l : listeners.Listener)
  (s : S) :
  let t := snd (run h (openstack.renameListener cfg lb cn l) s) in
  List.length t <= 5
  /\ calls_of KList t = 0 /\ calls_of KUpdateLoadBalancer t = 0
  /\ forall k, calls_of k t <= 1.
Proof.
  unfold openstack.renameListener. explore h.
  all: cbn [snd]; split; [cbn; lia|]; split; [reflexivity|];
    split; [reflexivity|]; intros []; cbn; lia.
Qed.

Lemma forEach_calls (cfg : Prefixes) {S : Type} (h : handler S)
  (lb : loadbalancers.LoadBalancer) (cn : string)
  (ls : list listeners.Listener) (s : S) :
  let t := snd (run h (forEach ls (openstack.renameListener cfg lb cn)) s) in
  List.length t <= 5 * List.length ls
  /\ calls_of KList t = 0 /\ calls_of KUpdateLoadBalancer t = 0
  /\ forall k, calls_of k t <= List.length ls.
Proof.
  revert s; induction ls as [|l ls IH]; intros s.
  - cbn. repeat split; lia.
  - cbn [forEach]. rewrite run_bind.
    pose proof (renameListener_calls cfg h lb cn l s) as Hl. cbv zeta in Hl.
    destruct (run h (openstack.renameListener cfg lb cn l) s)
      as [[[err|[]] s1] t1]; cbn [snd] in *.
    + destruct Hl as (L & K1 & K2 & K). cbn [List.length].
      split; [lia|]. split; [exact K1|]. split; [exact K2|].
      intros k. specialize (K k). lia.
    + specialize (IH s1).
      destruct (run h (forEach ls _) s1) as [[r2 s2] t2]. cbn [snd] in *.
      destruct Hl as (L & K1 & K2 & K). destruct IH as (L' & K1' & K2' & K').
      rewrite length_app, !calls_of_app. cbn [List.length].
      split; [lia|]. split; [lia|]. split; [lia|].
      intros k. specialize (K k). specialize (K' k).
      rewrite calls_of_app. lia.
Qed.


(** X14. One invocation makes a single call when the listing fails.
    Otherwise it makes at most two calls plus five for each listener
    listed: it lists once, updates the load balancer at most once, and
    looks up a pool, reads a monitor, updates a monitor, a pool or a
    listener at most once for each listener listed. *)
Theorem renameLoadBalancer_call_budget (cfg : Prefixes) (S : Type)
  (h : handler S) (lb : loadbalancers.LoadBalancer) (lbName cn : string)
  (s : S) :
  let t := snd (run h (openstack.renameLoadBalancer cfg lb lbName cn) s) in
  match fst (h (GetListenersByLoadBalancerID (loadbalancers.ID lb)) s) with
  | inl _ => List.length t = 1
  | inr lbListeners =>
      List.length t <= 2 + 5 * List.length lbListeners
      /\ calls_of KList t = 1
      /\ calls_of KUpdateLoadBalancer t <= 1
      /\ forall k, k <> KList -> k <> KUpdateLoadBalancer ->
                    calls_of k t <= List.length lbListeners
  end.
Proof.
  cbv zeta. rewrite run_renameLoadBalancer.
  destruct (h (GetListenersByLoadBalancerID (loadbalancers.ID lb)) s)
    as [[err|ls] s1]; cbn [fst]; [reflexivity|].
  rewrite run_renameListed.
  pose proof (forEach_calls cfg h lb cn ls s1) as F. cbv zeta in F.
  destruct (run h (forEach ls (openstack.renameListener cfg lb cn)) s1)
    as [[[err|[]] s2] t2]; cbn [snd] in F;
    destruct F as (L & K1 & K2 & K).
  - cbn [snd].
    change (Ev ?c ?a :: t2) with ([Ev c a] ++ t2)%list.
    rewrite length_app, !calls_of_app, K1, K2.
    split; [cbn; lia|]. split; [reflexivity|]. split; [cbn; lia|].
    intros k Nk _. rewrite calls_of_app. specialize (K k).
    assert (Z : calls_of k [Ev (GetListenersByLoadBalancerID
                                  (loadbalancers.ID lb)) (inr ls)] = 0)
      by (destruct k; try (now elim Nk); reflexivity).
    lia.
  - cbv zeta.
    destruct (h (UpdateLoadBalancer (loadbalancers.ID lb) lbName
                   (map (openstack.renameTag cfg cn) (loadbalancers.Tags lb))) s2)
      as [a s3].
    cbn [snd].
    change (Ev ?c ?a :: (t2 ++ ?u)) with ([Ev c a] ++ t2 ++ u)%list.
    rewrite !length_app, !calls_of_app, K1, K2.
    split; [cbn; lia|]. split; [reflexivity|]. split; [cbn; lia|].
    intros k Nk Nu. rewrite !calls_of_app. specialize (K k).
    assert (Z : calls_of k [Ev (GetListenersByLoadBalancerID
                                  (loadbalancers.ID lb)) (inr ls)] = 0)
      by (destruct k; try (now elim Nk); reflexivity).
    assert (U0 : calls_of k
                  [Ev (UpdateLoadBalancer (loadbalancers.ID lb) lbName
                         (map (openstack.renameTag cfg cn)
                              (loadbalancers.Tags lb))) a] = 0)
      by (destruct k; try (now elim Nu); reflexivity).
    lia.
Qed.

(** ** What the updates carry *)

Section ReadsFirst.
Context (cfg : Prefixes) (cn : string) (lb : loadbalancers.LoadBalancer).

Lemma renames_own_name_mono (ps ps' : list pools.Pool)
  (ms ms' : list monitors.Monitor) (e : event) :
  incl ps ps' -> incl ms ms' ->
  renames_own_name cfg cn lb ps ms e -> renames_own_name cfg cn lb ps' ms' e.
Proof.
  unfold renames_own_name. intros Ip Im.
  destruct (ev_call e); auto.
  - intros (E & m & I & R). split; [exact E|]. exists m. split; [now apply Im|exact R].
  - intros (E & p & I & R). split; [exact E|]. exists p. split; [now apply Ip|exact R].
Qed.

Lemma reads_first_mono (t : list event) :
  forall ps ps' ms ms',
    incl ps ps' -> incl ms ms' ->
    reads_first cfg cn lb ps ms t -> reads_first cfg cn lb ps' ms' t.
Proof.
  induction t as [|e t IH]; intros ps ps' ms ms' Ip Im; cbn [reads_first];
    [auto|].
  intros [H1 H2]. split.
  - now apply (renames_own_name_mono ps ps' ms ms').
  - apply (IH (ps ++ pools_read e) _ (ms ++ monitors_read e))%list;
      [now apply incl_app_app; [|apply incl_refl]
      |now apply incl_app_app; [|apply incl_refl]
      |exact H2].
Qed.

Lemma reads_first_app (t1 t2 : list event) :
  forall ps ms,
    reads_first cfg cn lb ps ms t1 ->
    reads_first cfg cn lb (ps ++ flat_map pools_read t1)
                (ms ++ flat_map monitors_read t1) t2 ->
    reads_first cfg cn lb ps ms (t1 ++ t2).
Proof.
  induction t1 as [|e t1 IH]; intros ps ms H1 H2; cbn [app flat_map] in *.
  - now rewrite !app_nil_r in H2.
  - cbn [reads_first] in *. destruct H1 as [He H1]. split; [exact He|].
    apply IH; [exact H1|]. now rewrite <- !app_assoc.
Qed.

Lemma reads_first_split (t1 t2 : list event) (e : event) :
  forall ps ms,
    reads_first cfg cn lb ps ms (t1 ++ e :: t2) ->
    renames_own_name cfg cn lb (ps ++ flat_map pools_read t1)
                     (ms ++ flat_map monitors_read t1) e.
Proof.
  induction t1 as [|e1 t1 IH]; intros ps ms H; cbn [app flat_map reads_first] in *.
  - rewrite !app_nil_r. tauto.
  - destruct H as [_ H]. apply IH in H. now rewrite <- !app_assoc in H.
Qed.

Context {S : Type} (h : handler S).

Lemma renameListener_reads_first (l : listeners.Listener) (s : S) :
  reads_first cfg cn lb [] []
    (snd (run h (openstack.renameListener cfg lb cn l) s)).
Proof.
  unfold openstack.renameListener.
  explore h.
  all: cbn [snd reads_first renames_own_name ev_call pools_read monitors_read app].
  all: repeat match goal with
              | H : negb (String.eqb _ _) = true |- _ =>
                  apply negb_true_iff, String.eqb_neq in H
              end.
  all: repeat split; auto.
  all: eexists; split; [now left|]; unfold decodedClusterName.
  all: repeat match goal with
              | H : openstack.decomposeLBName _ _ _ = _ |- _ => rewrite H; clear H
              end.
  all: cbn [fst]; repeat split; auto.
Qed.

Lemma forEach_reads_first (ls : list listeners.Listener) (s : S) :
  reads_first cfg cn lb [] []
    (snd (run h (forEach ls (openstack.renameListener cfg lb cn)) s)).
Proof.
  revert s; induction ls as [|l ls IH]; intros s.
  - exact I.
  - cbn [forEach]. rewrite run_bind.
    pose proof (renameListener_reads_first l s) as Hl.
    destruct (run h (openstack.renameListener cfg lb cn l) s)
      as [[[err|[]] s1] t1]; cbn [snd] in *; [exact Hl|].
    specialize (IH s1).
    destruct (run h (forEach ls _) s1) as [[r2 s2] t2]. cbn [snd] in *.
    apply reads_first_app; [exact Hl|].
    eapply reads_first_mono; [| |exact IH]; intros x [].
Qed.

End ReadsFirst.

(** X15. Whatever the service answers, every update of a pool or of a
    monitor is made for the load balancer at hand and names a pool (a
    monitor) the service returned earlier in the same invocation; the
    cluster name read off that resource's own name differs from the
    target, and the update carries that name with this cluster name
    replaced by the target. *)
Theorem updates_rename_what_was_read (cfg : Prefixes) (S : Type)
  (h : handler S) (lb : loadbalancers.LoadBalancer) (lbName cn : string)
  (s : S) :
  let t := snd (run h (openstack.renameLoadBalancer cfg lb lbName cn) s) in
  forall t1 e t2,
    t = (t1 ++ e :: t2)%list ->
    renames_own_name cfg cn lb (flat_map pools_read t1)
                     (flat_map monitors_read t1) e.
Proof.
  cbv zeta.
  assert (R : reads_first cfg cn lb [] []
                (snd (run h (openstack.renameLoadBalancer cfg lb lbName cn) s))).
  { rewrite run_renameLoadBalancer.
    destruct (h (GetListenersByLoadBalancerID (loadbalancers.ID lb)) s)
      as [[err|ls] s1]; [cbn; auto|].
    rewrite run_renameListed.
    pose proof (forEach_reads_first cfg cn lb h ls s1) as F.
    destruct (run h (forEach ls (openstack.renameListener cfg lb cn)) s1)
      as [[[err|[]] s2] t2]; cbn [snd] in F.
    - cbn [snd reads_first]. split; [exact I|exact F].
    - cbv zeta.
      destruct (h (UpdateLoadBalancer (loadbalancers.ID lb) lbName
                     (map (openstack.renameTag cfg cn) (loadbalancers.Tags lb))) s2)
        as [a s3].
      cbn [snd reads_first]. split; [exact I|].
      apply reads_first_app; [exact F|]. cbn. auto. }
  intros t1 e t2 E. rewrite E in R.
  now apply reads_first_split in R.
Qed.

(** X16. When every listener listed is passed over (it lacks the
    listener prefix or already reads the target), one invocation makes
    two calls, the listing and the update of the load balancer, which
    still sends [lbName] and the rewritten tags; the result is what that
    update returned. *)
Theorem settled_listeners_cost_two_calls (cfg : Prefixes) (S : Type)
  (h : handler S) (lb : loadbalancers.LoadBalancer) (lbName cn : string)
  (s s1 : S) (lbListeners : list listeners.Listener)
  (Listed : h (GetListenersByLoadBalancerID (loadbalancers.ID lb)) s
            = (inr lbListeners, s1))
  (Settled : forall l, In l lbListeners -> settled cfg cn (listeners.Name l)) :
  let update :=
    UpdateLoadBalancer (loadbalancers.ID lb) lbName
      (map (openstack.renameTag cfg cn) (loadbalancers.Tags lb)) in
  run h (openstack.renameLoadBalancer cfg lb lbName cn) s
  = (fst (h update s1), snd (h update s1),
     [Ev (GetListenersByLoadBalancerID (loadbalancers.ID lb)) (inr lbListeners);
      Ev update (fst (h update s1))]).
Proof.
  cbv zeta. rewrite run_renameLoadBalancer, Listed, run_renameListed.
  rewrite (forEach_all_skipped _ lbListeners).
  - cbn [run ret app].
    destruct (h (UpdateLoadBalancer _ _ _) s1) as [a s2]. reflexivity.
  - intros l I. apply current_listener_skipped. exact (Settled l I).
Qed.

Lemma settled_listeners_cost_two_calls_witness :
  run service.serve
      (openstack.renameLoadBalancer upstream scenario.lbB
         "kube_service_clusterB_ns1_svc1" "clusterB") scenario.treeB
  = (inr scenario.lbB, scenario.treeB,
     [Ev (GetListenersByLoadBalancerID "lb1")
         (inr (service.lbListeners scenario.treeB));
      Ev (UpdateLoadBalancer "lb1" "kube_service_clusterB_ns1_svc1"
            (loadbalancers.Tags scenario.lbB)) (inr scenario.lbB)]).
Proof.
  apply (settled_listeners_cost_two_calls upstream service.Store service.serve
           scenario.lbB "kube_service_clusterB_ns1_svc1" "clusterB"
           scenario.treeB scenario.treeB
           (service.lbListeners scenario.treeB)).
  - reflexivity.
  - intros l [<-|[]] _. vm_compute. reflexivity.
Defined.

(** X17. [renameLoadBalancer] returns a load balancer exactly when its
    last call is the update of the load balancer, with [lbName] and the
    rewritten tags, and that call succeeded; the load balancer returned
    is the one that call returned, and every call before it succeeded. *)
Theorem success_returns_updated_loadbalancer (cfg : Prefixes) (S : Type)
  (h : handler S) (lb : loadbalancers.LoadBalancer) (lbName cn : string)
  (s : S) :
  let '(r, _, t) := run h (openstack.renameLoadBalancer cfg lb lbName cn) s in
  let update :=
    UpdateLoadBalancer (loadbalancers.ID lb) lbName
      (map (openstack.renameTag cfg cn) (loadbalancers.Tags lb)) in
  forall lb',
    r = inr lb' <->
    exists t0, t = (t0 ++ [Ev update (inr lb')])%list
               /\ forall e, In e t0 -> ev_error e = None.
Proof.
  pose proof (renameLoadBalancer_shape cfg h lb lbName cn s) as Sh.
  rewrite run_renameLoadBalancer in *.
  destruct (h (GetListenersByLoadBalancerID (loadbalancers.ID lb)) s)
    as [[err|ls] s1].
  - cbv zeta. intros lb'. split; [discriminate|].
    intros (t0 & E & _). destruct t0 as [|? [|? ?]]; discriminate.
  - rewrite run_renameListed in *.
    pose proof (forEach_shape cfg h lb cn ls s1) as Fs.
    destruct (run h (forEach ls (openstack.renameListener cfg lb cn)) s1)
      as [[[err|[]] s2] t2].
    + cbv zeta. intros lb'. split; [discriminate|].
      intros (t0 & E & _). exfalso.
      destruct Fs as (_ & _ & (t3 & e & -> & Ee)).
      change (?x :: (t3 ++ [e]))%list with ((x :: t3) ++ [e])%list in E.
      apply app_inj_tail in E as [_ ->]. discriminate.
    + cbv zeta in *.
      destruct (h (UpdateLoadBalancer (loadbalancers.ID lb) lbName
                     (map (openstack.renameTag cfg cn) (loadbalancers.Tags lb))) s2)
        as [a s3].
      destruct Sh as [C _].
      intros lb'. split.
      * intros ->. eexists (_ :: t2). split; [reflexivity|].
        intros e I.
        apply in_split in I as (u1 & u2 & E).
        apply (next_ok_not_failed e
                 (hd (Ev (UpdateLoadBalancer (loadbalancers.ID lb) lbName
                            (map (openstack.renameTag cfg cn)
                                 (loadbalancers.Tags lb))) (inr lb'))
                     (u2 ++ [Ev (UpdateLoadBalancer (loadbalancers.ID lb) lbName
                            (map (openstack.renameTag cfg cn)
                                 (loadbalancers.Tags lb))) (inr lb')]))).
        change (?x :: t2 ++ ?y)%list with ((x :: t2) ++ y)%list in C.
        rewrite E in C. rewrite <- app_assoc in C. cbn [app] in C.
        destruct u2 as [|e2 u2]; cbn [app hd] in *.
        -- now apply (chain_adjacent _ u1 [] _ _ C).
        -- exact (chain_adjacent _ u1 _ _ _ C eq_refl).
      * intros (t0 & E & _).
        change (?x :: t2 ++ ?y)%list with ((x :: t2) ++ y)%list in E.
        apply app_inj_tail in E as [_ E].
        apply (f_equal (fun e => match e with
                                 | Ev c r =>
                                     match c as c0
                                           return result (answer c0) ->
                                                  option (result loadbalancers.LoadBalancer)
                                     with
                                     | UpdateLoadBalancer _ _ _ => fun r0 => Some r0
                                     | _ => fun _ => None
                                     end r
                                 end)) in E.
        now injection E as ->.
Qed.

Lemma fits_decode (cfg : Prefixes) (p : ResourcePrefix)
  (pre cn ns nm : string) :
  fits cfg p pre cn ns nm ->
  openstack.decomposeLBName cfg p (formatted cfg pre cn ns nm) = (cn, ns, nm).
Proof.
  intros (Hp & Hc & Hn & Hm & _). apply decode_formatted with (pre := pre).
  unfold occurrence, formatted. cbn [append]. rewrite append_nil_r. tauto.
Qed.

Lemma fits_replace (cfg : Prefixes) (p : ResourcePrefix)
  (pre cn ns nm new : string) :
  fits cfg p pre cn ns nm ->
  openstack.replaceClusterName cn new (formatted cfg pre cn ns nm)
  = formatted cfg pre new ns nm.
Proof.
  intros (_ & _ & _ & _ & First).
  unfold openstack.replaceClusterName, formatted in *.
  rewrite <- (append_assoc pre (servicePrefix cfg)) in *.
  rewrite (replace_field _ cn _ new First). apply append_assoc.
Qed.

(** X18. A listener, its pool and the pool's monitor, all named to the
    format for one cluster name other than the target: the monitor, then
    the pool, then the listener is sent its own name with the target in
    the cluster name field, under its own ID.  A failed update ends the
    calls and its error is the result; the listener's update is the last
    call and its result is the result. *)
Theorem formatted_subtree_retargeted (cfg : Prefixes) (S : Type)
  (h : handler S) (s s1 s2 : S) (lb : loadbalancers.LoadBalancer)
  (old new : string) (l : listeners.Listener) (p : pools.Pool)
  (m : monitors.Monitor)
  (lpre lns lnm ppre pns pnm mpre mns mnm : string)
  (ListenerName : listeners.Name l = formatted cfg lpre old lns lnm)
  (ListenerFits : fits cfg (Numbered (listenerPrefix cfg)) lpre old lns lnm)
  (PoolName : pools.Name p = formatted cfg ppre old pns pnm)
  (PoolFits : fits cfg (Numbered (poolPrefix cfg)) ppre old pns pnm)
  (MonitorName : monitors.Name m = formatted cfg mpre old mns mnm)
  (MonitorFits : fits cfg (Numbered (monitorPrefix cfg)) mpre old mns mnm)
  (Stale : old <> new)
  (Pool : h (GetPoolByListener (loadbalancers.ID lb) (listeners.ID l)) s
          = (inr p, s1))
  (HasMonitor : pools.MonitorID p <> "")
  (Monitor : h (GetHealthMonitor (pools.MonitorID p)) s1 = (inr m, s2)) :
  let '(r, _, t) := run h (openstack.renameListener cfg lb new l) s in
  exists a1 t1,
    t = Ev (GetPoolByListener (loadbalancers.ID lb) (listeners.ID l)) (inr p)
        :: Ev (GetHealthMonitor (pools.MonitorID p)) (inr m)
        :: Ev (UpdateHealthMonitor (monitors.ID m)
                 (formatted cfg mpre new mns mnm) (loadbalancers.ID lb)) a1
        :: t1
    /\ (forall err, a1 = inl err -> t1 = [] /\ r = inl err)
    /\ (a1 = inr tt ->
        exists a2 t2,
          t1 = Ev (UpdatePool (loadbalancers.ID lb) (pools.ID p)
                     (formatted cfg ppre new pns pnm)) a2 :: t2
          /\ (forall err, a2 = inl err -> t2 = [] /\ r = inl err)
          /\ (a2 = inr tt ->
              t2 = [Ev (UpdateListener
                          (loadbalancers.ID lb) (listeners.ID l)
                          (formatted cfg lpre new lns lnm)
                          (map (openstack.renameTag cfg new)
                               (listeners.Tags l))) r])).
Proof.
  unfold openstack.renameListener.
  assert (Managed : strings.HasPrefix (listeners.Name l) (listenerPrefix cfg)
                    = true).
  { rewrite ListenerName. destruct ListenerFits as ((d & -> & _) & _).
    unfold formatted. rewrite !append_assoc. apply HasPrefix_append. }
  assert (Dl : openstack.decomposeLBName cfg (Numbered (listenerPrefix cfg))
                 (listeners.Name l) = (old, lns, lnm))
    by (rewrite ListenerName; now apply fits_decode).
  assert (Dp : openstack.decomposeLBName cfg (Numbered (poolPrefix cfg))
                 (pools.Name p) = (old, pns, pnm))
    by (rewrite PoolName; now apply fits_decode).
  assert (Dm : openstack.decomposeLBName cfg (Numbered (monitorPrefix cfg))
                 (monitors.Name m) = (old, mns, mnm))
    by (rewrite MonitorName; now apply fits_decode).
  assert (Rl : openstack.replaceClusterName old new (listeners.Name l)
               = formatted cfg lpre new lns lnm)
    by (rewrite ListenerName; now apply (fits_replace cfg (Numbered (listenerPrefix cfg)))).
  assert (Rp : openstack.replaceClusterName old new (pools.Name p)
               = formatted cfg ppre new pns pnm)
    by (rewrite PoolName; now apply (fits_replace cfg (Numbered (poolPrefix cfg)))).
  assert (Rm : openstack.replaceClusterName old new (monitors.Name m)
               = formatted cfg mpre new mns mnm)
    by (rewrite MonitorName; now apply (fits_replace cfg (Numbered (monitorPrefix cfg)))).
  rewrite Managed, Dl. cbn [negb].
  destruct (String.eqb_spec old new) as [|_]; [contradiction|]. cbn [negb].
  rewrite run_bind. unfold perform at 1. cbn [run]. rewrite Pool, Dp.
  destruct (String.eqb_spec old new) as [|_]; [contradiction|]. cbn [negb].
  destruct (String.eqb_spec (pools.MonitorID p) "") as [|_]; [contradiction|].
  cbn [negb].
  rewrite !run_bind. unfold perform at 1. cbn [run]. rewrite Monitor, Dm, Rl, Rp.
  destruct (String.eqb_spec old new) as [|_]; [contradiction|]. cbn [negb].
  rewrite Rm.
  unfold perform. cbn [run].
  destruct (h (UpdateHealthMonitor _ _ _) s2) as [[err|[]] s3].
  - cbn. eexists _, _. split; [reflexivity|]. split.
    + intros err' E. injection E as <-. now split.
    + discriminate.
  - cbn [run app].
    destruct (h (UpdatePool _ _ _) s3) as [[err|[]] s4].
    + cbn. eexists _, _. split; [reflexivity|]. split; [discriminate|].
      intros _. eexists _, _. split; [reflexivity|]. split.
      * intros err' E. injection E as <-. now split.
      * discriminate.
    + cbn [run app].
      destruct (h (UpdateListener _ _ _ _) s4) as [a3 s5].
      cbn. eexists _, _. split; [reflexivity|]. split; [discriminate|].
      intros _. eexists _, _. split; [reflexivity|]. split; [discriminate|].
      intros _. reflexivity.
Qed.

Ltac fits_now d :=
  repeat split;
  [exists d; split; [reflexivity|]; split; [discriminate|all_in_now]
  |discriminate|all_in_now|discriminate|all_in_now|discriminate|all_in_now
  |not_before].

Lemma formatted_subtree_retargeted_witness :
  let '(r, _, t) :=
    run service.serve
        (openstack.renameListener upstream scenario.lbA "clusterB"
                                  scenario.listenerA) scenario.treeA in
  exists a1 t1,
    t = Ev (GetPoolByListener "lb1" "l1") (inr scenario.poolA)
        :: Ev (GetHealthMonitor "m1") (inr scenario.monitorA)
        :: Ev (UpdateHealthMonitor "m1"
                 "monitor_0_kube_service_clusterB_ns1_svc1" "lb1") a1
        :: t1.
Proof.
  pose proof (formatted_subtree_retargeted upstream service.Store service.serve
                scenario.treeA scenario.treeA scenario.treeA scenario.lbA
                "clusterA" "clusterB"
                scenario.listenerA scenario.poolA scenario.monitorA
                "listener_0_" "ns1" "svc1" "pool_0_" "ns1" "svc1"
                "monitor_0_" "ns1" "svc1"
                eq_refl ltac:(fits_now "0") eq_refl ltac:(fits_now "0")
                eq_refl ltac:(fits_now "0") ltac:(discriminate) eq_refl
                ltac:(discriminate) eq_refl) as T.
  destruct (run service.serve _ scenario.treeA) as [[r s'] t].
  destruct T as (a1 & t1 & E & _). now exists a1, t1.
Defined.


Lemma updates_rename_what_was_read_witness :
  renames_own_name upstream "clusterB" scenario.lbA
    [scenario.poolA] [scenario.monitorA]
    (Ev (UpdatePool "lb1" "p1" "pool_0_kube_service_clusterB_ns1_svc1")
        (inr tt)).
Proof.
  apply (updates_rename_what_was_read upstream service.Store service.serve
           scenario.lbA "kube_service_clusterB_ns1_svc1" "clusterB"
           scenario.treeA
           [Ev (GetListenersByLoadBalancerID "lb1") (inr [scenario.listenerA]);
            Ev (GetPoolByListener "lb1" "l1") (inr scenario.poolA);
            Ev (GetHealthMonitor "m1") (inr scenario.monitorA);
            Ev (UpdateHealthMonitor
                  "m1" "monitor_0_kube_service_clusterB_ns1_svc1" "lb1")
               (inr tt)]
           (Ev (UpdatePool "lb1" "p1" "pool_0_kube_service_clusterB_ns1_svc1")
               (inr tt))
           [Ev (UpdateListener
                  "lb1" "l1" "listener_0_kube_service_clusterB_ns1_svc1"
                  ["kube_service_clusterB_ns1_svc2"; "team:payments"])
               (inr tt);
            Ev (UpdateLoadBalancer
                  "lb1" "kube_service_clusterB_ns1_svc1"
                  ["kube_service_clusterB_ns1_svc1"; "team:payments"])
               (inr scenario.lbB)]).
  vm_compute. reflexivity.
Defined.

(** ** A pool outside the name format *)

(** X19. A listener that carries the listener prefix and another
    cluster name than the target, over a pool whose name holds the
    pattern nowhere: the cluster name read off the pool is empty, so the
    pool is sent its name with the target put in front of it, and the
    listener too is sent its name with the target in front (the cluster
    name in the listener's name stays as it was); when processing the
    listener succeeds, these two updates are its last calls. *)
Theorem shapeless_pool_gets_target_prepended (cfg : Prefixes) (S : Type)
  (h : handler S) (s s1 : S) (lb : loadbalancers.LoadBalancer) (cn : string)
  (l : listeners.Listener) (p : pools.Pool)
  (Managed : strings.HasPrefix (listeners.Name l) (listenerPrefix cfg) = true)
  (Stale : decodedClusterName cfg (Numbered (listenerPrefix cfg))
             (listeners.Name l) <> cn)
  (Pool : h (GetPoolByListener (loadbalancers.ID lb) (listeners.ID l)) s
          = (inr p, s1))
  (Shapeless : forall before pre c n m after,
      ~ occurrence cfg (Numbered (poolPrefix cfg)) (pools.Name p)
          before pre c n m after)
  (Target : cn <> "") :
  let updatePool :=
    UpdatePool (loadbalancers.ID lb) (pools.ID p) (cn ++ pools.Name p) in
  let updateListener :=
    UpdateListener (loadbalancers.ID lb) (listeners.ID l)
      (cn ++ listeners.Name l)
      (map (openstack.renameTag cfg cn) (listeners.Tags l)) in
  let '(r, _, t) := run h (openstack.renameListener cfg lb cn l) s in
  (forall e, In e t -> ev_kind e = KUpdatePool -> ev_call e = updatePool)
  /\ (forall e, In e t -> ev_kind e = KUpdateListener ->
                ev_call e = updateListener)
  /\ (r = inr tt ->
      exists t0, t = (t0 ++ [Ev updatePool (inr tt);
                             Ev updateListener (inr tt)])%list).
Proof.
  cbv zeta.
  assert (D : openstack.decomposeLBName cfg (Numbered (poolPrefix cfg))
                (pools.Name p) = ("", "", "")).
  { destruct (decomposeLBName_cases cfg (Numbered (poolPrefix cfg))
                (pools.Name p))
      as [[_ E]|(before & pre & c & n & m & after & O & _)]; [exact E|].
    now elim (Shapeless _ _ _ _ _ _ O). }
  unfold openstack.renameListener, decodedClusterName in *.
  rewrite Managed. cbn [negb].
  destruct (openstack.decomposeLBName cfg (Numbered (listenerPrefix cfg))
              (listeners.Name l)) as [[o1 n1] m1].
  cbn [fst] in Stale.
  destruct (String.eqb_spec o1 cn) as [|_]; [contradiction|]. cbn [negb].
  rewrite run_bind. unfold perform at 1. cbn [run]. rewrite Pool, D.
  destruct (String.eqb_spec "" cn) as [E|_]; [now elim Target|]. cbn [negb].
  unfold openstack.replaceClusterName. rewrite !Replace1_empty.
  explore h.
  all: split; [intros e I K; in_cases I; first [discriminate K|reflexivity]|].
  all: split; [intros e I K; in_cases I; first [discriminate K|reflexivity]|].
  all: intros R; try discriminate R.
  all: injection R as ->.
  all: repeat match goal with
              | a : answer (UpdatePool _ _ _) |- _ => destruct a
              | a : answer (UpdateHealthMonitor _ _ _) |- _ => destruct a
              end.
  all: eexists; cbn [app];
    first [ instantiate (1 := [_]); reflexivity
          | instantiate (1 := [_; _]); reflexivity
          | instantiate (1 := [_; _; _]); reflexivity ].
Qed.

Lemma shapeless_pool_gets_target_prepended_witness :
  let pool := {| pools.ID := "p1"; pools.Name := "web-pool";
                 pools.MonitorID := "" |} in
  let tree :=
    {| service.loadbalancer := scenario.lbA;
       service.lbListeners := [scenario.listenerA];
       service.lbPools := [("l1", pool)];
       service.lbMonitors := [] |} in
  let '(r, _, t) :=
    run service.serve
        (openstack.renameListener upstream scenario.lbA "clusterB"
                                  scenario.listenerA) tree in
  r = inr tt ->
  exists t0,
    t = (t0 ++ [Ev (UpdatePool "lb1" "p1" "clusterBweb-pool") (inr tt);
                Ev (UpdateListener "lb1" "l1"
                      "clusterBlistener_0_kube_service_clusterA_ns1_svc1"
                      ["kube_service_clusterB_ns1_svc2"; "team:payments"])
                   (inr tt)])%list.
Proof.
  intros pool tree.
  pose proof (shapeless_pool_gets_target_prepended upstream service.Store
                service.serve tree tree scenario.lbA "clusterB"
                scenario.listenerA pool
                eq_refl ltac:(vm_compute; discriminate) eq_refl) as T.
  cbv zeta in T.
  assert (Sh : forall before pre c n m after,
             ~ occurrence upstream (Numbered (poolPrefix upstream))
                 (pools.Name pool) before pre c n m after).
  { intros before pre c n m after O.
    destruct (decomposeLBName_cases upstream (Numbered "pool_") "web-pool")
      as [[No _]|(b' & p' & c' & n' & m' & a' & O' & E & _)];
      [now apply (No _ _ _ _ _ _ O)|].
    vm_compute in E. injection E as <- _ _.
    destruct O' as (_ & _ & [Nc _] & _). now elim Nc. }
  specialize (T Sh ltac:(discriminate)).
  destruct (run service.serve _ tree) as [[r s'] t].
  exact (proj2 (proj2 T)).
Defined.
